(** * Cardano key converter: a shallow embedding of [src/CardanoKeyConverter.ts]

    The development follows the TypeScript class [CardanoKeyConverter]:
    the key file reader ([readPrivateKeyFile], [isValidHex]), the key
    encoder ([cborHexToLucidPrivateKey], [initBech32Encoder]), the
    orchestration ([onchainToOffchainPrivateKey]), the wallet helpers and
    the [CardanoUtils] shortcuts.

    Conventions.
    - A JavaScript string is the list of its UTF-16 code units ([jsstring]).
    - A thrown value is an [Error] object, of which the program only ever
      reads [message]; every value thrown in the model is an instance of
      [Error], as are the values thrown by [JSON.parse], [fs] and the
      [bech32] package.
    - The instance is a record threaded through the methods that touch
      [this.bech32Encoder]; the file system, the module loader and the
      wallet library are explicit parameters. *)

From Stdlib Require Import List ZArith NArith Bool Lia String Ascii.
Import ListNotations.

Set Warnings "-register-all".

(* ================================================================== *)
(** ** JavaScript values, strings and exceptions *)

Module JS.

(** UTF-16 code units. *)
Definition jsstring := list N.

Definition str (s : string) : jsstring :=
  map N_of_ascii (list_ascii_of_string s).

(** The double quote, which the literals of this file never contain. *)
Definition dquote : N := 34%N.
Definition quoted (s : jsstring) : jsstring := dquote :: s ++ [dquote].

Fixpoint str_eqb (a b : jsstring) : bool :=
  match a, b with
  | [], [] => true
  | x :: a', y :: b' => N.eqb x y && str_eqb a' b'
  | _, _ => false
  end.

(** [s.startsWith(p)] *)
Fixpoint startsWith (s p : jsstring) {struct p} : bool :=
  match p with
  | [] => true
  | x :: p' =>
      match s with
      | y :: s' => N.eqb x y && startsWith s' p'
      | [] => false
      end
  end.

(** [s.slice(n)] for a non-negative [n]. *)
Definition slice (n : nat) (s : jsstring) : jsstring := skipn n s.

(** [s.includes(p)], used to state that a message carries a given text. *)
Fixpoint includes (s p : jsstring) : bool :=
  startsWith s p ||
  match s with
  | [] => false
  | _ :: s' => includes s' p
  end.

(** White space and line terminators removed by [String.prototype.trim]. *)
Definition is_js_space (c : N) : bool :=
  ((9 <=? c) && (c <=? 13) || (c =? 32) || (c =? 160) || (c =? 5760)
   || (8192 <=? c) && (c <=? 8202) || (c =? 8232) || (c =? 8233)
   || (c =? 8239) || (c =? 8287) || (c =? 12288) || (c =? 65279))%N.

Fixpoint trimStart (s : jsstring) : jsstring :=
  match s with
  | c :: s' => if is_js_space c then trimStart s' else s
  | [] => []
  end.

Definition trim (s : jsstring) : jsstring :=
  rev (trimStart (rev (trimStart s))).

(** Decimal rendering of a non-negative integer, as a template literal
    prints [rawHex.length]. *)
Fixpoint uint_digits (u : Decimal.uint) : jsstring :=
  match u with
  | Decimal.Nil => []
  | Decimal.D0 u' => 48%N :: uint_digits u'
  | Decimal.D1 u' => 49%N :: uint_digits u'
  | Decimal.D2 u' => 50%N :: uint_digits u'
  | Decimal.D3 u' => 51%N :: uint_digits u'
  | Decimal.D4 u' => 52%N :: uint_digits u'
  | Decimal.D5 u' => 53%N :: uint_digits u'
  | Decimal.D6 u' => 54%N :: uint_digits u'
  | Decimal.D7 u' => 55%N :: uint_digits u'
  | Decimal.D8 u' => 56%N :: uint_digits u'
  | Decimal.D9 u' => 57%N :: uint_digits u'
  end.

Definition Number_toString (n : nat) : jsstring := uint_digits (Nat.to_uint n).

(** Thrown values.  [ctor] records which constructor built the object;
    handlers only read [message]. *)
Inductive ErrorCtor := Error | TypeError | SyntaxError | SystemError.

Record JSError := mkError { ctor : ErrorCtor; message : jsstring }.

Definition new_Error (msg : jsstring) : JSError := mkError Error msg.

Inductive Result (A : Type) :=
| Ok (a : A)
| Throw (e : JSError).
Arguments Ok {A} a.
Arguments Throw {A} e.

Definition bindR {A B} (r : Result A) (k : A -> Result B) : Result B :=
  match r with
  | Ok a => k a
  | Throw e => Throw e
  end.

(** [try { body } catch (e) { handler e }] for code without instance state. *)
Definition try_catchR {A} (body : Result A) (handler : JSError -> Result A)
  : Result A :=
  match body with
  | Ok a => Ok a
  | Throw e => handler e
  end.

(** Values as [JSON.parse] builds them, plus [undefined].  A number is kept
    as the exact decimal [m * 10^e] that its literal denotes; the IEEE
    rounding only matters for the test against zero, see [number_is_zero].
    An object is its list of own properties in creation order, without
    repeated keys. *)
Inductive JSValue :=
| JUndefined
| JNull
| JBool (b : bool)
| JNumber (m e : Z)
| JString (s : jsstring)
| JArray (xs : list JSValue)
| JObject (fields : list (jsstring * JSValue)).

(** A decimal [m * 10^e] becomes the double [0] (or [-0]) exactly when it is
    zero or at most [2^-1075] in magnitude, half of the least subnormal
    (ties go to the even neighbour, which is zero). *)
Definition number_is_zero (m e : Z) : bool :=
  ((m =? 0) || (e <? 0) && (Z.abs m * 2 ^ 1075 <=? 10 ^ (- e)))%Z.

(** [ToBoolean] *)
Definition truthy (v : JSValue) : bool :=
  match v with
  | JUndefined | JNull => false
  | JBool b => b
  | JNumber m e => negb (number_is_zero m e)
  | JString s => match s with [] => false | _ :: _ => true end
  | JArray _ | JObject _ => true
  end.

(** [typeof v === "string"] *)
Definition typeof_string (v : JSValue) : bool :=
  match v with
  | JString _ => true
  | _ => false
  end.

(** The characters of a value known to be a string. *)
Definition string_of (v : JSValue) : jsstring :=
  match v with
  | JString s => s
  | _ => []
  end.

(** [v === JString s] against a string constant. *)
Definition strict_eq_string (v : JSValue) (s : jsstring) : bool :=
  match v with
  | JString t => str_eqb t s
  | _ => false
  end.

Fixpoint lookup (fields : list (jsstring * JSValue)) (k : jsstring)
  : option JSValue :=
  match fields with
  | [] => None
  | (k', v) :: rest => if str_eqb k' k then Some v else lookup rest k
  end.

(** [CreateDataProperty]: a repeated key keeps its place and takes the
    later value. *)
Fixpoint set_prop (fields : list (jsstring * JSValue)) (k : jsstring)
  (v : JSValue) : list (jsstring * JSValue) :=
  match fields with
  | [] => [(k, v)]
  | (k', v') :: rest =>
      if str_eqb k' k then (k', v) :: rest else (k', v') :: set_prop rest k v
  end.

(** [v.k] for a property name [k] that no prototype defines ([cborHex],
    [type]): reading it from [null] or [undefined] throws a [TypeError],
    an object gives its own property, anything else gives [undefined]. *)
Definition get_prop (v : JSValue) (k : jsstring) : Result JSValue :=
  match v with
  | JUndefined | JNull =>
      Throw (mkError TypeError (str "Cannot read properties of null"))
  | JObject fields =>
      match lookup fields k with
      | Some x => Ok x
      | None => Ok JUndefined
      end
  | _ => Ok JUndefined
  end.

(** [v.length] of a string value. *)
Definition length_of (v : JSValue) : nat := List.length (string_of v).

End JS.
Export JS.

(* ================================================================== *)
(** ** [JSON.parse]

    The grammar of ECMA-404 as the runtime accepts it, by recursive
    descent.  The recursion is on a fuel argument; [JSON_parse] starts it
    with more fuel than any text can use ([parse_value_fuel] below). *)

Module JSON.

Definition is_json_ws (c : N) : bool :=
  ((c =? 32) || (c =? 9) || (c =? 10) || (c =? 13))%N.

Definition is_digit (c : N) : bool := ((48 <=? c) && (c <=? 57))%N.

Fixpoint skip_ws (s : jsstring) : jsstring :=
  match s with
  | c :: s' => if is_json_ws c then skip_ws s' else s
  | [] => []
  end.

Definition hex_value (c : N) : option N :=
  if ((48 <=? c) && (c <=? 57))%N then Some (c - 48)%N
  else if ((97 <=? c) && (c <=? 102))%N then Some (c - 87)%N
  else if ((65 <=? c) && (c <=? 70))%N then Some (c - 55)%N
  else None.

Definition hex4 (a b c d : N) : option N :=
  match hex_value a, hex_value b, hex_value c, hex_value d with
  | Some x, Some y, Some z, Some w => Some (((x * 16 + y) * 16 + z) * 16 + w)%N
  | _, _, _, _ => None
  end.

(** The single-character escapes. *)
Definition escape_char (c : N) : option N :=
  if (c =? 34)%N then Some 34%N        (* quote *)
  else if (c =? 92)%N then Some 92%N   (* backslash *)
  else if (c =? 47)%N then Some 47%N   (* slash *)
  else if (c =? 98)%N then Some 8%N    (* b: backspace *)
  else if (c =? 102)%N then Some 12%N  (* f: form feed *)
  else if (c =? 110)%N then Some 10%N  (* n: line feed *)
  else if (c =? 114)%N then Some 13%N  (* r: carriage return *)
  else if (c =? 116)%N then Some 9%N   (* t: tab *)
  else None.

(** The characters after an opening quote, up to and including the closing
    one; [acc] holds the decoded characters in reverse. *)
Fixpoint parse_string_body (s acc : jsstring) : option (jsstring * jsstring) :=
  match s with
  | [] => None
  | c :: r =>
      if (c =? 34)%N then Some (rev acc, r)
      else if (c =? 92)%N then
        match r with
        | [] => None
        | d :: r1 =>
            if (d =? 117)%N then
              match r1 with
              | h1 :: h2 :: h3 :: h4 :: r2 =>
                  match hex4 h1 h2 h3 h4 with
                  | Some u => parse_string_body r2 (u :: acc)
                  | None => None
                  end
              | _ => None
              end
            else
              match escape_char d with
              | Some u => parse_string_body r1 (u :: acc)
              | None => None
              end
        end
      else if (c <? 32)%N then None
      else parse_string_body r (c :: acc)
  end.

(** The longest run of decimal digits at the head of [s]. *)
Fixpoint span_digits (s : jsstring) : jsstring * jsstring :=
  match s with
  | c :: r =>
      if is_digit c then let (ds, rest) := span_digits r in (c :: ds, rest)
      else ([], s)
  | [] => ([], [])
  end.

Definition digits_value (ds : jsstring) : Z :=
  fold_left (fun acc c => (acc * 10 + (Z.of_N c - 48))%Z) ds 0%Z.

(** [int]: a lone [0], or a digit run that does not start with [0]. *)
Definition parse_int (s : jsstring) : option (jsstring * jsstring) :=
  match s with
  | c :: r =>
      if (c =? 48)%N then Some ([c], r)
      else if is_digit c then Some (span_digits s)
      else None
  | [] => None
  end.

(** [frac]: nothing, or a dot and at least one digit. *)
Definition parse_frac (s : jsstring) : option (jsstring * jsstring) :=
  match s with
  | c :: r =>
      if (c =? 46)%N then
        match span_digits r with
        | ([], _) => None
        | (ds, rest) => Some (ds, rest)
        end
      else Some ([], s)
  | [] => Some ([], [])
  end.

(** The digits of an exponent, after its sign. *)
Definition exp_digits (neg : bool) (s : jsstring) : option (Z * jsstring) :=
  match span_digits s with
  | ([], _) => None
  | (ds, rest) =>
      Some ((if neg then - digits_value ds else digits_value ds)%Z, rest)
  end.

(** [exp]: nothing, or [e]/[E], an optional sign and at least one digit. *)
Definition parse_exp (s : jsstring) : option (Z * jsstring) :=
  match s with
  | c :: r =>
      if ((c =? 101) || (c =? 69))%N then
        match r with
        | sg :: r' =>
            if (sg =? 45)%N then exp_digits true r'
            else if (sg =? 43)%N then exp_digits false r'
            else exp_digits false r
        | [] => exp_digits false r
        end
      else Some (0%Z, s)
  | [] => Some (0%Z, [])
  end.

(** A number after its optional minus sign. *)
Definition parse_unsigned (neg : bool) (s1 : jsstring)
  : option (JSValue * jsstring) :=
  match parse_int s1 with
  | None => None
  | Some (ip, s2) =>
      match parse_frac s2 with
      | None => None
      | Some (fp, s3) =>
          match parse_exp s3 with
          | None => None
          | Some (ex, s4) =>
              let mag := digits_value (ip ++ fp) in
              Some (JNumber (if neg then - mag else mag)%Z
                            (ex - Z.of_nat (List.length fp))%Z, s4)
          end
      end
  end.

Definition parse_number (s : jsstring) : option (JSValue * jsstring) :=
  match s with
  | c :: r => if (c =? 45)%N then parse_unsigned true r
              else parse_unsigned false s
  | [] => None
  end.

Inductive Parse (A : Type) :=
| OutOfFuel
| Reject
| Accept (a : A) (rest : jsstring).
Arguments OutOfFuel {A}.
Arguments Reject {A}.
Arguments Accept {A} a rest.

Fixpoint parse_value (fuel : nat) (s : jsstring) : Parse JSValue :=
  match fuel with
  | O => OutOfFuel
  | S fuel' =>
      match skip_ws s with
      | [] => Reject
      | c :: r =>
          if (c =? 123)%N then                       (* { *)
            match skip_ws r with
            | [] => Reject
            | c1 :: r1 =>
                if (c1 =? 125)%N then Accept (JObject []) r1
                else parse_members fuel' (c1 :: r1) []
            end
          else if (c =? 91)%N then                   (* [ *)
            match skip_ws r with
            | [] => Reject
            | c1 :: r1 =>
                if (c1 =? 93)%N then Accept (JArray []) r1
                else parse_elements fuel' (c1 :: r1) []
            end
          else if (c =? 34)%N then                   (* a string *)
            match parse_string_body r [] with
            | Some (x, r1) => Accept (JString x) r1
            | None => Reject
            end
          else if startsWith (c :: r) (str "true") then
            Accept (JBool true) (slice 4 (c :: r))
          else if startsWith (c :: r) (str "false") then
            Accept (JBool false) (slice 5 (c :: r))
          else if startsWith (c :: r) (str "null") then
            Accept JNull (slice 4 (c :: r))
          else
            match parse_number (c :: r) with
            | Some (v, r1) => Accept v r1
            | None => Reject
            end
      end
  end

(** The elements of an array, after the opening bracket. *)
with parse_elements (fuel : nat) (s : jsstring) (acc : list JSValue)
  : Parse JSValue :=
  match fuel with
  | O => OutOfFuel
  | S fuel' =>
      match parse_value fuel' s with
      | OutOfFuel => OutOfFuel
      | Reject => Reject
      | Accept v r =>
          match skip_ws r with
          | [] => Reject
          | c :: r1 =>
              if (c =? 44)%N then parse_elements fuel' r1 (v :: acc)
              else if (c =? 93)%N then Accept (JArray (rev (v :: acc))) r1
              else Reject
          end
      end
  end

(** The members of an object, after the opening brace. *)
with parse_members (fuel : nat) (s : jsstring)
  (fields : list (jsstring * JSValue)) : Parse JSValue :=
  match fuel with
  | O => OutOfFuel
  | S fuel' =>
      match skip_ws s with
      | [] => Reject
      | q :: r =>
          if (q =? 34)%N then
            match parse_string_body r [] with
            | None => Reject
            | Some (k, r1) =>
                match skip_ws r1 with
                | [] => Reject
                | colon :: r2 =>
                    if (colon =? 58)%N then
                      match parse_value fuel' r2 with
                      | OutOfFuel => OutOfFuel
                      | Reject => Reject
                      | Accept v r3 =>
                          match skip_ws r3 with
                          | [] => Reject
                          | c :: r4 =>
                              if (c =? 44)%N then
                                parse_members fuel' r4 (set_prop fields k v)
                              else if (c =? 125)%N then
                                Accept (JObject (set_prop fields k v)) r4
                              else Reject
                          end
                      end
                    else Reject
                end
            end
          else Reject
      end
  end.

(** An outcome that is not [OutOfFuel] and leaves less than it was given. *)
Definition consumes (s : jsstring) (p : Parse JSValue) : Prop :=
  match p with
  | OutOfFuel => False
  | Reject => True
  | Accept _ r => (List.length r < List.length s)%nat
  end.

Definition parse_fuel (s : jsstring) : nat := S (2 * List.length s).

Definition syntax_error : JSError :=
  mkError SyntaxError (str "Unexpected token in JSON").

(** [JSON.parse(text)]: one value between optional white space, or a
    [SyntaxError]. *)
Definition JSON_parse (text : jsstring) : Result JSValue :=
  match parse_value (parse_fuel text) text with
  | Accept v rest =>
      match skip_ws rest with
      | [] => Ok v
      | _ :: _ => Throw syntax_error
      end
  | _ => Throw syntax_error
  end.

End JSON.
Export JSON.

(* ================================================================== *)
(** ** [Buffer.from(text, "hex")]

    Node decodes two characters at a time and stops, without throwing, at
    the first pair that is not two hexadecimal digits (or at a trailing
    single character); the buffer holds the bytes decoded so far.  Each
    code unit is narrowed to eight bits before the table lookup. *)

Module NodeBuffer.

Definition unhex (c : N) : option Z :=
  let x := (c mod 256)%N in
  if ((48 <=? x) && (x <=? 57))%N then Some (Z.of_N x - 48)%Z
  else if ((97 <=? x) && (x <=? 102))%N then Some (Z.of_N x - 87)%Z
  else if ((65 <=? x) && (x <=? 70))%N then Some (Z.of_N x - 55)%Z
  else None.

Fixpoint hex_decode (src : jsstring) : list Z :=
  match src with
  | a :: b :: rest =>
      match unhex a, unhex b with
      | Some hi, Some lo => Z.lor (Z.shiftl hi 4) lo :: hex_decode rest
      | _, _ => []
      end
  | _ => []
  end.

Definition Buffer_from_hex (text : jsstring) : list Z := hex_decode text.

End NodeBuffer.
Export NodeBuffer.

(* ================================================================== *)
(** ** The [bech32] package (version 2), the encoder the program loads

    [toWords] and [encode] of the package's [bech32] export, with the
    32-bit integer arithmetic of the JavaScript bit operators written
    out. *)

Module Bech32.

Local Open Scope Z_scope.

(** [ToInt32] *)
Definition int32 (z : Z) : Z := (z + 2 ^ 31) mod 2 ^ 32 - 2 ^ 31.

Definition js_shl (a n : Z) : Z := int32 (Z.shiftl (int32 a) (Z.land n 31)).
Definition js_sar (a n : Z) : Z := Z.shiftr (int32 a) (Z.land n 31).
Definition js_and (a b : Z) : Z := Z.land (int32 a) (int32 b).
Definition js_or (a b : Z) : Z := Z.lor (int32 a) (int32 b).
Definition js_xor (a b : Z) : Z := Z.lxor (int32 a) (int32 b).

Definition ALPHABET : jsstring := str "qpzry9x8gf2tvdw0s3jn54khce6mua7l".

(** [s.charAt(i)]: one character, or the empty string out of range. *)
Definition charAt (s : jsstring) (i : Z) : jsstring :=
  if i <? 0 then []
  else match nth_error s (Z.to_nat i) with
       | Some c => [c]
       | None => []
       end.

Definition polymodStep (pre : Z) : Z :=
  let b := js_sar pre 25 in
  js_xor (js_xor (js_xor (js_xor (js_xor
    (js_shl (js_and pre 0x1ffffff) 5)
    (js_and (- js_and (js_sar b 0) 1) 0x3b6a57b2))
    (js_and (- js_and (js_sar b 1) 1) 0x26508e6d))
    (js_and (- js_and (js_sar b 2) 1) 0x1ea119fa))
    (js_and (- js_and (js_sar b 3) 1) 0x3d4233dd))
    (js_and (- js_and (js_sar b 4) 1) 0x2a1462b3).

(** First loop of [prefixChk]; [None] is the early return of the
    "Invalid prefix" message. *)
Fixpoint prefixChk_high (cs : jsstring) (chk : Z) : option Z :=
  match cs with
  | [] => Some chk
  | c :: rest =>
      if ((c <? 33) || (126 <? c))%N then None
      else prefixChk_high rest (js_xor (polymodStep chk) (js_sar (Z.of_N c) 5))
  end.

Definition prefixChk (prefix : jsstring) : jsstring + Z :=
  match prefixChk_high prefix 1 with
  | None => inl (str "Invalid prefix (" ++ prefix ++ str ")")%list
  | Some chk =>
      inr (fold_left
             (fun chk v => js_xor (polymodStep chk) (js_and (Z.of_N v) 0x1f))
             prefix (polymodStep chk))
  end.

(** The inner [while (bits >= outBits)] loop of [convert].  Each round
    lowers [bits] by [outBits]; for a positive [outBits] the loop ends
    within [bits] rounds, which is the fuel [convert_loop] gives it. *)
Fixpoint drain (fuel : nat) (value bits outBits maxV : Z) (result : list Z)
  : Z * list Z :=
  match fuel with
  | O => (bits, result)
  | S fuel' =>
      if bits >=? outBits then
        let bits := bits - outBits in
        drain fuel' value bits outBits maxV
              (result ++ [js_and (js_sar value bits) maxV])
      else (bits, result)
  end.

Fixpoint convert_loop (data : list Z) (inBits outBits maxV value bits : Z)
  (result : list Z) : Z * Z * list Z :=
  match data with
  | [] => (value, bits, result)
  | d :: rest =>
      let value := js_or (js_shl value inBits) d in
      let bits := bits + inBits in
      let '(bits, result) :=
        drain (Z.to_nat bits) value bits outBits maxV result in
      convert_loop rest inBits outBits maxV value bits result
  end.

Definition convert (data : list Z) (inBits outBits : Z) (pad : bool)
  : jsstring + list Z :=
  let maxV := js_shl 1 outBits - 1 in
  let '(value, bits, result) :=
    convert_loop data inBits outBits maxV 0 0 [] in
  if pad then
    if bits >? 0 then
      inr (result ++ [js_and (js_shl value (outBits - bits)) maxV])
    else inr result
  else
    if bits >=? inBits then inl (str "Excess padding")
    else if negb (js_and (js_shl value (outBits - bits)) maxV =? 0)
    then inl (str "Non-zero padding")
    else inr result.

Definition toWords (bytes : list Z) : jsstring + list Z :=
  convert bytes 8 5 true.

(** [String.prototype.toLowerCase] on ASCII letters.  The converter only
    passes the constant prefix [ed25519_sk]; case mapping outside ASCII is
    not modelled. *)
Definition toLowerCase (s : jsstring) : jsstring :=
  map (fun c => if ((65 <=? c) && (c <=? 90))%N then (c + 32)%N else c) s.

(** The loop over [words] of [encode]; [None] is the "Non 5-bit word"
    throw. *)
Fixpoint encode_words (words : list Z) (chk : Z) (result : jsstring)
  : option (Z * jsstring) :=
  match words with
  | [] => Some (chk, result)
  | x :: rest =>
      if negb (js_sar x 5 =? 0) then None
      else encode_words rest (js_xor (polymodStep chk) x)
                        (result ++ charAt ALPHABET x)
  end.

Definition checksum_chars (chk : Z) : jsstring :=
  flat_map (fun i => charAt ALPHABET (js_and (js_sar chk ((5 - i) * 5)) 0x1f))
           [0; 1; 2; 3; 4; 5].

Definition ENCODING_CONST : Z := 1.

(** [bech32.encode(prefix, words, LIMIT)]; [LIMIT] is [None] when the
    caller leaves it out. *)
Definition encode (prefix : jsstring) (words : list Z) (LIMIT : option Z)
  : Result jsstring :=
  let LIMIT := match LIMIT with
               | Some l => if l =? 0 then 90 else l
               | None => 90
               end in
  if Z.of_nat (List.length prefix) + 7 + Z.of_nat (List.length words) >? LIMIT
  then Throw (mkError TypeError (str "Exceeds length limit"))
  else
    let prefix := toLowerCase prefix in
    match prefixChk prefix with
    | inl msg => Throw (new_Error msg)
    | inr chk =>
        match encode_words words chk (prefix ++ str "1") with
        | None => Throw (new_Error (str "Non 5-bit word"))
        | Some (chk, result) =>
            let chk := Nat.iter 6 polymodStep chk in
            let chk := js_xor chk ENCODING_CONST in
            Ok (result ++ checksum_chars chk)%list
        end
    end.

(** A five-bit word. *)
Definition word5 (x : Z) : Prop := 0 <= x < 32.

(** The checksum state after the converter's prefix. *)
Definition ed25519_sk_chk : Z :=
  Eval vm_compute in
    match prefixChk (toLowerCase (str "ed25519_sk")) with
    | inr chk => chk
    | inl _ => 0
    end.

End Bech32.

(* ================================================================== *)
(** ** The world around the converter *)

(** [interface Bech32Encoder]: the two methods the converter calls.  Either
    may throw. *)
Record Bech32Encoder := {
  toWords : list Z -> Result (list Z);
  encode : jsstring -> list Z -> Result jsstring
}.

(** The [bech32] export of the package.  With [pad = true] [convert]
    always returns the array (lemma [toWords_words]). *)
Definition bech32 : Bech32Encoder := {|
  toWords bytes :=
    match Bech32.toWords bytes with
    | inr words => Ok words
    | inl _ => Ok []
    end;
  encode prefix words := Bech32.encode prefix words None
|}.

(** [fs]: the two calls the reader makes. *)
Record FileSystem := {
  existsSync : jsstring -> bool;
  readFileSync : jsstring -> Result jsstring
}.

(** Module resolution: what [await import("bech32")] and
    [require("bech32")] give.  [Ok None] is a module without a [bech32]
    export, whose property read is [undefined]. *)
Record ModuleLoader := {
  import_bech32 : Result (option Bech32Encoder);
  require_bech32 : Result (option Bech32Encoder)
}.

(** [Network] of the wallet library. *)
Inductive Network := Mainnet | Preprod | Preview | Custom.

Record CardanoConfig := {
  cfg_network : Network;
  cfg_blockfrostApiUrl : jsstring;
  cfg_blockfrostApiKey : jsstring
}.

(** The wallet library, an external collaborator: building a client from
    a Blockfrost provider and a network, selecting a wallet (which returns
    the updated client), and the two queries. *)
Record LucidLib (LucidEvolution UTxO : Type) := {
  Lucid : jsstring -> jsstring -> Network -> Result LucidEvolution;
  selectWallet_fromPrivateKey :
    LucidEvolution -> jsstring -> Result LucidEvolution;
  wallet_address : LucidEvolution -> Result jsstring;
  utxosAt : LucidEvolution -> jsstring -> Result (list UTxO)
}.
Arguments Lucid {LucidEvolution UTxO}.
Arguments selectWallet_fromPrivateKey {LucidEvolution UTxO}.
Arguments wallet_address {LucidEvolution UTxO}.
Arguments utxosAt {LucidEvolution UTxO}.

(* ================================================================== *)
(** ** [class CardanoKeyConverter] *)

(** The fields of an instance.  [bech32Encoder] is declared
    [Bech32Encoder | null]; at run time it can also hold [undefined], when
    the loaded module has no [bech32] export. *)
Inductive EncoderField :=
| FNull
| FUndefined
| FEncoder (e : Bech32Encoder).

Record CardanoKeyConverter := {
  network : Network;
  blockfrostApiUrl : jsstring;
  blockfrostApiKey : jsstring;
  bech32Encoder : EncoderField
}.

Definition constructor (config : CardanoConfig) : CardanoKeyConverter := {|
  network := cfg_network config;
  blockfrostApiUrl := cfg_blockfrostApiUrl config;
  blockfrostApiKey := cfg_blockfrostApiKey config;
  bech32Encoder := FNull
|}.

(** [this.bech32Encoder = v] *)
Definition set_bech32Encoder (v : EncoderField) (this : CardanoKeyConverter)
  : CardanoKeyConverter := {|
  network := network this;
  blockfrostApiUrl := blockfrostApiUrl this;
  blockfrostApiKey := blockfrostApiKey this;
  bech32Encoder := v
|}.

(** The value of [pkg.bech32] for a loaded module. *)
Definition export_of (x : option Bech32Encoder) : EncoderField :=
  match x with
  | Some e => FEncoder e
  | None => FUndefined
  end.

(** Methods that touch the instance: a result and the instance after the
    call.  A throw keeps the assignments made before it. *)
Definition Method (A : Type) : Type :=
  CardanoKeyConverter -> Result A * CardanoKeyConverter.

Definition ret {A} (a : A) : Method A := fun this => (Ok a, this).
Definition throw {A} (e : JSError) : Method A := fun this => (Throw e, this).
Definition lift {A} (r : Result A) : Method A := fun this => (r, this).

Definition bind {A B} (m : Method A) (k : A -> Method B) : Method B :=
  fun this =>
    match m this with
    | (Ok a, this') => k a this'
    | (Throw e, this') => (Throw e, this')
    end.

Definition try_catch {A} (body : Method A) (handler : JSError -> Method A)
  : Method A :=
  fun this =>
    match body this with
    | (Ok a, this') => (Ok a, this')
    | (Throw e, this') => handler e this'
    end.

Declare Scope method_scope.
Delimit Scope method_scope with method.
Notation "x <- m ;; k" := (bind m (fun x => k))
  (at level 61, m at next level, right associativity) : method_scope.
Notation "x <-- r ;; k" := (bindR r (fun x => k))
  (at level 61, r at next level, right associativity).

(** The messages of the program. *)
Definition msg_not_found (keyPath : jsstring) : jsstring :=
  str "Private key file not found at path: " ++ keyPath.
Definition msg_unable_to_extract : jsstring :=
  str "Unable to extract CBOR hex from JSON structure".
Definition msg_neither_json_nor_hex : jsstring :=
  str "File content is neither valid JSON nor valid hex string".
Definition msg_reading : jsstring := str "Error reading private key file: ".
Definition msg_invalid_input : jsstring := str "Invalid CBOR hex input".
Definition msg_invalid_prefix : jsstring :=
  str "CBOR hex must start with '5820' prefix for 32-byte private key".
Definition msg_invalid_length (actual : nat) : jsstring :=
  str "Invalid private key length: expected 64 characters, got "
  ++ Number_toString actual.
Definition msg_converting : jsstring :=
  str "Error converting CBOR hex to Lucid private key: ".
Definition msg_onchain : jsstring :=
  str "Error converting onchain to offchain private key: ".
Definition msg_load_failed : jsstring := str "Failed to load bech32 encoder: ".
Definition msg_init_failed : jsstring :=
  str "Failed to initialize bech32 encoder".
Definition msg_creating : jsstring :=
  str "Error creating Lucid instance with private key: ".
Definition msg_address : jsstring := str "Error getting wallet address: ".
Definition msg_utxos : jsstring := str "Error getting wallet UTXOs: ".

(** [catch (error) { throw new Error(`<context>${error.message}`) }]: every
    thrown value of the model is an [Error], so the [String(error)] branch
    of the handlers is not taken. *)
Definition rethrow (context : jsstring) (error : JSError) : JSError :=
  new_Error (context ++ message error).

Definition is_hex_digit (c : N) : bool :=
  ((48 <=? c) && (c <=? 57) || (97 <=? c) && (c <=? 102)
   || (65 <=? c) && (c <=? 70))%N.

(** [/^[0-9a-fA-F]+$/.test(hex) && hex.length % 2 === 0] *)
Definition isValidHex (hex : jsstring) : bool :=
  (match hex with [] => false | _ :: _ => forallb is_hex_digit hex end)
  && (List.length hex mod 2 =? 0)%nat.

Section Converter.

Variable fs : FileSystem.
Variable loader : ModuleLoader.

(** [initBech32Encoder] from [await import("bech32")] on: the assignment
    of what was loaded (by the import or, when that throws, by [require])
    and the final test of the field. *)
Definition initBech32Encoder_resume : Method Bech32Encoder :=
  fun this =>
    let loaded : Result CardanoKeyConverter :=
      match import_bech32 loader with
      | Ok bech32Package =>
          Ok (set_bech32Encoder (export_of bech32Package) this)
      | Throw _ =>
          match require_bech32 loader with
          | Ok pkg => Ok (set_bech32Encoder (export_of pkg) this)
          | Throw err => Throw (rethrow msg_load_failed err)
          end
      end in
    match loaded with
    | Throw e => (Throw e, this)
    | Ok this' =>
        match bech32Encoder this' with
        | FEncoder e => (Ok e, this')
        | _ => (Throw (new_Error msg_init_failed), this')
        end
    end.

(** [private async initBech32Encoder()] *)
Definition initBech32Encoder : Method Bech32Encoder :=
  fun this =>
    match bech32Encoder this with
    | FEncoder e => (Ok e, this)
    | _ => initBech32Encoder_resume this
    end.

(** Calls that overlap.  [initBech32Encoder] has the one suspension point
    after which an instance is written, so a moment of an instance with
    calls in flight is the instance and the number of calls suspended at
    the import.  A call either finds the encoder and returns, or finds none
    and suspends; a suspended call resumes at any later time. *)
Inductive overlap_step :
  CardanoKeyConverter * nat -> CardanoKeyConverter * nat -> Prop :=
| overlap_hit (this : CardanoKeyConverter) (n : nat) (e : Bech32Encoder) :
    bech32Encoder this = FEncoder e ->
    overlap_step (this, n) (this, n)
| overlap_suspend (this : CardanoKeyConverter) (n : nat) :
    (forall e, bech32Encoder this <> FEncoder e) ->
    overlap_step (this, n) (this, S n)
| overlap_resume (this : CardanoKeyConverter) (n : nat) :
    overlap_step (this, S n) (snd (initBech32Encoder_resume this), n).

Inductive overlap_run :
  CardanoKeyConverter * nat -> CardanoKeyConverter * nat -> Prop :=
| overlap_done (m : CardanoKeyConverter * nat) : overlap_run m m
| overlap_next (m1 m2 m3 : CardanoKeyConverter * nat) :
    overlap_step m1 m2 -> overlap_run m2 m3 -> overlap_run m1 m3.

(** The inner [try] of [readPrivateKeyFile]: the JSON shapes. *)
Definition extract_from_json (fileContent : jsstring) : Result JSValue :=
  keyData <-- JSON_parse fileContent ;;
  cborHex <-- get_prop keyData (str "cborHex") ;;
  if truthy cborHex then Ok cborHex
  else
    type <-- get_prop keyData (str "type") ;;
    if strict_eq_string type (str "PaymentSigningKeyShelley_ed25519")
       && truthy cborHex
    then Ok cborHex
    else if typeof_string keyData && (0 <? length_of keyData)%nat
    then Ok keyData
    else Throw (new_Error msg_unable_to_extract).

(** [public readPrivateKeyFile(keyPath)].  The value returned is whatever
    the JSON held, so the result is a [JSValue]. *)
Definition readPrivateKeyFile (keyPath : jsstring) : Result JSValue :=
  try_catchR
    (if negb (existsSync fs keyPath)
     then Throw (new_Error (msg_not_found keyPath))
     else
       fileContent <-- readFileSync fs keyPath ;;
       try_catchR
         (extract_from_json fileContent)
         (fun jsonError =>
            let trimmedContent := trim fileContent in
            if isValidHex trimmedContent then Ok (JString trimmedContent)
            else Throw (new_Error msg_neither_json_nor_hex)))
    (fun error => Throw (rethrow msg_reading error)).

(** [public async cborHexToLucidPrivateKey(cborHex)] *)
Definition cborHexToLucidPrivateKey (cborHex : JSValue) : Method jsstring :=
  try_catch
    (if negb (truthy cborHex) || negb (typeof_string cborHex)
     then throw (new_Error msg_invalid_input)
     else
       let cleanHex := trim (string_of cborHex) in
       if negb (startsWith cleanHex (str "5820"))
       then throw (new_Error msg_invalid_prefix)
       else
         let rawHex := slice 4 cleanHex in
         if negb (List.length rawHex =? 64)%nat
         then throw (new_Error (msg_invalid_length (List.length rawHex)))
         else
           let bytes := Buffer_from_hex rawHex in
           (encoder <- initBech32Encoder ;;
            words <- lift (toWords encoder bytes) ;;
            lucidSk <- lift (encode encoder (str "ed25519_sk") words) ;;
            ret lucidSk)%method)
    (fun error => throw (rethrow msg_converting error)).

(** [public async onchainToOffchainPrivateKey(keyPath)] *)
Definition onchainToOffchainPrivateKey (keyPath : jsstring)
  : Method jsstring :=
  try_catch
    (cborHex <- lift (readPrivateKeyFile keyPath) ;;
     lucidPrivateKey <- cborHexToLucidPrivateKey cborHex ;;
     ret lucidPrivateKey)%method
    (fun error => throw (rethrow msg_onchain error)).

Section Wallet.

Variables LucidEvolution UTxO : Type.
Variable lib : LucidLib LucidEvolution UTxO.

(** [public async createLucidWithPrivateKey(keyPath)] *)
Definition createLucidWithPrivateKey (keyPath : jsstring)
  : Method LucidEvolution :=
  try_catch
    (fun this =>
       (lucid <- lift (Lucid lib (blockfrostApiUrl this)
                             (blockfrostApiKey this) (network this)) ;;
        privateKey <- onchainToOffchainPrivateKey keyPath ;;
        lucid' <- lift (selectWallet_fromPrivateKey lib lucid privateKey) ;;
        ret lucid')%method this)
    (fun error => throw (rethrow msg_creating error)).

(** [public async getWalletAddress(keyPath)] *)
Definition getWalletAddress (keyPath : jsstring) : Method jsstring :=
  try_catch
    (lucid <- createLucidWithPrivateKey keyPath ;;
     lift (wallet_address lib lucid))%method
    (fun error => throw (rethrow msg_address error)).

(** [public async getWalletUtxos(keyPath)] *)
Definition getWalletUtxos (keyPath : jsstring) : Method (list UTxO) :=
  try_catch
    (lucid <- createLucidWithPrivateKey keyPath ;;
     address <- lift (wallet_address lib lucid) ;;
     lift (utxosAt lib lucid address))%method
    (fun error => throw (rethrow msg_utxos error)).

(** One call of a public method on an instance. *)
Inductive Call :=
| CallReadPrivateKeyFile (keyPath : jsstring)
| CallCborHexToLucidPrivateKey (cborHex : JSValue)
| CallOnchainToOffchainPrivateKey (keyPath : jsstring)
| CallCreateLucidWithPrivateKey (keyPath : jsstring)
| CallGetWalletAddress (keyPath : jsstring)
| CallGetWalletUtxos (keyPath : jsstring).

(** The instance after a call, whatever the call returned or threw. *)
Definition after (c : Call) (this : CardanoKeyConverter)
  : CardanoKeyConverter :=
  match c with
  | CallReadPrivateKeyFile _ => this
  | CallCborHexToLucidPrivateKey x => snd (cborHexToLucidPrivateKey x this)
  | CallOnchainToOffchainPrivateKey p =>
      snd (onchainToOffchainPrivateKey p this)
  | CallCreateLucidWithPrivateKey p => snd (createLucidWithPrivateKey p this)
  | CallGetWalletAddress p => snd (getWalletAddress p this)
  | CallGetWalletUtxos p => snd (getWalletUtxos p this)
  end.

(** The instance after a sequence of calls, each run to completion. *)
Definition after_all (calls : list Call) (this : CardanoKeyConverter)
  : CardanoKeyConverter :=
  fold_left (fun s c => after c s) calls this.

End Wallet.

(** [CardanoUtils]: each shortcut builds a converter of its own. *)
Definition default_config : CardanoConfig := {|
  cfg_network := Mainnet;
  cfg_blockfrostApiUrl := [];
  cfg_blockfrostApiKey := []
|}.

Definition CardanoUtils_cborHexToLucidPrivateKey (cborHex : JSValue)
  : Result jsstring :=
  let converter := constructor default_config in
  fst (cborHexToLucidPrivateKey cborHex converter).

Definition CardanoUtils_readPrivateKeyFile (keyPath : jsstring)
  : Result JSValue :=
  let converter := constructor default_config in
  readPrivateKeyFile keyPath.

End Converter.

(* ================================================================== *)
(** ** Vocabulary of the specification *)

(** The invariant of a CBOR hex string: after trimming, the tag [5820] and
    64 hexadecimal digits. *)
Definition CborHexString (s : jsstring) : bool :=
  let t := trim s in
  startsWith t (str "5820") && (List.length t =? 68)%nat
  && forallb is_hex_digit t.

(** The error kinds, as the errors a caller receives. *)
Definition FileNotFoundError (keyPath : jsstring) : JSError :=
  rethrow msg_reading (new_Error (msg_not_found keyPath)).
Definition UnrecognizedFormatError : JSError :=
  rethrow msg_reading (new_Error msg_neither_json_nor_hex).
Definition InvalidInputError : JSError :=
  rethrow msg_converting (new_Error msg_invalid_input).
Definition InvalidPrefixError : JSError :=
  rethrow msg_converting (new_Error msg_invalid_prefix).
Definition InvalidLengthError (actual : nat) : JSError :=
  rethrow msg_converting (new_Error (msg_invalid_length actual)).

(** What the two loading strategies of [initBech32Encoder] assign to the
    field, or the error of the second one. *)
Definition load (loader : ModuleLoader) : Result EncoderField :=
  match import_bech32 loader with
  | Ok pkg => Ok (export_of pkg)
  | Throw _ =>
      match require_bech32 loader with
      | Ok pkg => Ok (export_of pkg)
      | Throw err => Throw (rethrow msg_load_failed err)
      end
  end.

(** The field of an instance is still [null], or holds what the loader
    gives. *)
Definition settled (loader : ModuleLoader) (this : CardanoKeyConverter)
  : Prop :=
  bech32Encoder this = FNull \/ load loader = Ok (bech32Encoder this).

(** The encoder is the [bech32] package wherever one is present. *)
Definition links_bech32 (loader : ModuleLoader) (this : CardanoKeyConverter)
  : Prop :=
  (forall e, load loader = Ok (FEncoder e) -> e = bech32)
  /\ (forall e, bech32Encoder this = FEncoder e -> e = bech32).

(** The composition the specification describes for the orchestration:
    the reader, then the encoder on what it returned, and one more
    context on the message of a failure of either. *)
Definition reader_then_encoder (fs : FileSystem) (loader : ModuleLoader)
  (keyPath : jsstring) : Method jsstring :=
  fun this =>
    match readPrivateKeyFile fs keyPath with
    | Throw e => (Throw (rethrow msg_onchain e), this)
    | Ok cborHex =>
        match cborHexToLucidPrivateKey loader cborHex this with
        | (Ok key, this') => (Ok key, this')
        | (Throw e, this') => (Throw (rethrow msg_onchain e), this')
        end
    end.

(** What [initBech32Encoder] returns on an instance whose field is
    [settled]: the loaded encoder, or one of its two errors. *)
Definition init_outcome (loader : ModuleLoader) : Result Bech32Encoder :=
  match load loader with
  | Ok (FEncoder e) => Ok e
  | Ok _ => Throw (new_Error msg_init_failed)
  | Throw err => Throw err
  end.

(** The part of [cborHexToLucidPrivateKey] after the three checks, on the
    64 characters that follow the tag. *)
Definition encode_stage (loader : ModuleLoader) (rawHex : jsstring)
  : Method jsstring :=
  try_catch
    (encoder <- initBech32Encoder loader ;;
     words <- lift (toWords encoder (Buffer_from_hex rawHex)) ;;
     lucidSk <- lift (encode encoder (str "ed25519_sk") words) ;;
     ret lucidSk)%method
    (fun error => throw (rethrow msg_converting error)).

(** How a call may change an instance: the configuration stays, an encoder
    once stored stays, and a settled field stays settled. *)
Definition evolves (loader : ModuleLoader) (this this' : CardanoKeyConverter)
  : Prop :=
  network this' = network this
  /\ blockfrostApiUrl this' = blockfrostApiUrl this
  /\ blockfrostApiKey this' = blockfrostApiKey this
  /\ (forall e, bech32Encoder this = FEncoder e ->
                bech32Encoder this' = FEncoder e)
  /\ (settled loader this -> settled loader this').

Definition preserves {A} (loader : ModuleLoader) (m : Method A) : Prop :=
  forall this, evolves loader this (snd (m this)).

(** Every encoder the field holds is the one the loader gives. *)
Definition loaded_only (loader : ModuleLoader) (this : CardanoKeyConverter)
  : Prop :=
  forall e, bech32Encoder this = FEncoder e -> load loader = Ok (FEncoder e).

(** While calls are suspended at the import, the field holds no encoder
    of another origin. *)
Definition overlap_inv (loader : ModuleLoader)
  (m : CardanoKeyConverter * nat) : Prop :=
  snd m = 0%nat \/ loaded_only loader (fst m).

(* ================================================================== *)
(** ** Concrete worlds *)

(** A file system with one readable file. *)
Definition single_file (path content : jsstring) : FileSystem := {|
  existsSync p := str_eqb p path;
  readFileSync p :=
    if str_eqb p path then Ok content
    else Throw (mkError SystemError (str "ENOENT: no such file or directory"))
|}.

Definition no_files : FileSystem := {|
  existsSync _ := false;
  readFileSync _ :=
    Throw (mkError SystemError (str "ENOENT: no such file or directory"))
|}.

(** The package is installed, both loading strategies find it. *)
Definition node_modules : ModuleLoader := {|
  import_bech32 := Ok (Some bech32);
  require_bech32 := Ok (Some bech32)
|}.

(** A wallet library that refuses every call. *)
Definition offline_lib : LucidLib unit unit := {|
  Lucid _ _ _ := Throw (new_Error (str "offline"));
  selectWallet_fromPrivateKey _ _ := Throw (new_Error (str "offline"));
  wallet_address _ := Throw (new_Error (str "offline"));
  utxosAt _ _ := Throw (new_Error (str "offline"))
|}.

Definition repeat_str (n : nat) (s : jsstring) : jsstring :=
  List.concat (repeat s n).

Definition key_path : jsstring := str "/path/key.json".

(** A JSON object with the single member [cborHex]. *)
Definition cborHex_file (value : jsstring) : jsstring :=
  str "{" ++ quoted (str "cborHex") ++ str ":" ++ quoted value ++ str "}".

Definition preprod_config : CardanoConfig := {|
  cfg_network := Preprod;
  cfg_blockfrostApiUrl := str "https://cardano-preprod.blockfrost.io/api/v0";
  cfg_blockfrostApiKey := str "test-api-key"
|}.

(** The tag and a payload. *)
Definition tagged (payload : jsstring) : jsstring := str "5820" ++ payload.

(** A key file as the command-line tooling writes it. *)
Definition skey_file (type value : jsstring) : jsstring :=
  str "{" ++ quoted (str "type") ++ str ": " ++ quoted type ++ str ", "
  ++ quoted (str "cborHex") ++ str ": " ++ quoted value ++ str "}".

(* ================================================================== *)
(** ** Further vocabulary and worlds *)

(** The value the two accepted JSON shapes give, read off the branches of
    [readPrivateKeyFile]: an object's truthy [cborHex] member, or a
    non-empty string itself. *)
Definition accepted_shape (keyData : JSValue) : option JSValue :=
  match keyData with
  | JObject fields =>
      match lookup fields (str "cborHex") with
      | Some v => if truthy v then Some v else None
      | None => None
      end
  | JString (c :: s) => Some (JString (c :: s))
  | _ => None
  end.

(** The reader on a readable file, as a table. *)
Definition reader_table (fileContent : jsstring) : Result JSValue :=
  match
    match JSON_parse fileContent with
    | Ok keyData => accepted_shape keyData
    | Throw _ => None
    end
  with
  | Some v => Ok v
  | None =>
      if isValidHex (trim fileContent) then Ok (JString (trim fileContent))
      else Throw UnrecognizedFormatError
  end.

(** A character that stands for itself inside a JSON string. *)
Definition plain_char (c : N) : bool :=
  (negb (c =? 34) && negb (c =? 92) && negb (c <? 32))%N.

(** A byte. *)
Definition is_byte (b : Z) : Prop := (0 <= b < 256)%Z.

(** What the loop of [convert] computes from 8 to 5 bits, as arithmetic:
    [c] holds the [b] bits not yet written; each byte is joined to them and
    the whole groups of five bits are written from the top, and at the end
    the bits left are padded with zeros on the right. *)
Fixpoint regroup (b c : Z) (data : list Z) : list Z :=
  match data with
  | [] => if (b >? 0)%Z then [(c * 2 ^ (5 - b))%Z] else []
  | d :: rest =>
      let x := (c * 256 + d)%Z in
      if (b >=? 2)%Z then
        (x / 2 ^ (b + 3))%Z :: ((x / 2 ^ (b - 2)) mod 32)%Z
        :: regroup (b - 2)%Z (x mod 2 ^ (b - 2))%Z rest
      else
        (x / 2 ^ (b + 3))%Z :: regroup (b + 3)%Z (x mod 2 ^ (b + 3))%Z rest
  end.


(** No loading strategy finds the package. *)
Definition no_modules : ModuleLoader := {|
  import_bech32 := Throw (new_Error (str "Cannot find package 'bech32'"));
  require_bech32 := Throw (new_Error (str "require is not defined"))
|}.

(** The import fails and [require] finds the package. *)
Definition cjs_only : ModuleLoader := {|
  import_bech32 := Throw (new_Error (str "Cannot find package 'bech32'"));
  require_bech32 := Ok (Some bech32)
|}.

(** The import gives a module without a [bech32] export, although
    [require] would find the package. *)
Definition module_without_export : ModuleLoader := {|
  import_bech32 := Ok None;
  require_bech32 := Ok (Some bech32)
|}.

(** A wallet library that answers: a client is the provider's address, the
    key and the network it was built with, together with the key selected
    (none at first). *)
Definition answering_lib
  : LucidLib (jsstring * jsstring * Network * option jsstring) jsstring := {|
  Lucid url key net := Ok (url, key, net, None);
  selectWallet_fromPrivateKey client privateKey :=
    let '(url, key, net, _) := client in Ok (url, key, net, Some privateKey);
  wallet_address client :=
    match snd client with
    | Some privateKey => Ok (str "addr_of_" ++ privateKey)
    | None => Throw (new_Error (str "no wallet selected"))
    end;
  utxosAt _ address := Ok [str "utxo_at_" ++ address]
|}.

(* ================================================================== *)
(** ** Strings *)

Lemma str_eqb_refl (s : jsstring) : str_eqb s s = true.
Proof.
  induction s as [|c s IH]; simpl; [reflexivity|].
  now rewrite N.eqb_refl, IH.
Qed.

Lemma str_eqb_eq (a b : jsstring) : str_eqb a b = true <-> a = b.
Proof.
  split; [|intros ->; apply str_eqb_refl].
  revert b; induction a as [|x a IH]; intros [|y b]; simpl; try discriminate;
    [reflexivity|].
  intros H; apply andb_prop in H as [Hx Ha].
  apply N.eqb_eq in Hx; subst; f_equal; auto.
Qed.

Lemma startsWith_app (p rest : jsstring) : startsWith (p ++ rest) p = true.
Proof.
  induction p as [|c p IH]; simpl; [reflexivity|].
  now rewrite N.eqb_refl, IH.
Qed.

Lemma startsWith_refl (s : jsstring) : startsWith s s = true.
Proof. rewrite <- (app_nil_r s) at 1; apply startsWith_app. Qed.

Lemma startsWith_inv (s p : jsstring) :
  startsWith s p = true -> s = p ++ skipn (List.length p) s.
Proof.
  revert s; induction p as [|c p IH]; intros s H; simpl in *; [reflexivity|].
  destruct s as [|d s]; [discriminate|].
  apply andb_prop in H as [Hc Hp]; apply N.eqb_eq in Hc; subst.
  simpl; f_equal; auto.
Qed.

Lemma startsWith_trans (s p q : jsstring) :
  startsWith s (p ++ q) = true -> startsWith s p = true.
Proof.
  revert s; induction p as [|c p IH]; intros s H; simpl in *; [reflexivity|].
  destruct s as [|d s]; [discriminate|].
  apply andb_prop in H as [Hc Hp]; rewrite Hc; simpl; eauto.
Qed.

Lemma includes_suffix (pre p : jsstring) : includes (pre ++ p) p = true.
Proof.
  induction pre as [|c pre IH]; simpl.
  - destruct p; simpl; [reflexivity|].
    now rewrite N.eqb_refl, startsWith_refl.
  - now rewrite IH, orb_true_r.
Qed.

(* ================================================================== *)
(** ** [JSON.parse] never runs out of fuel *)

Module JSONFacts.

Lemma skip_ws_length (s : jsstring) :
  (List.length (skip_ws s) <= List.length s)%nat.
Proof.
  induction s as [|c s IH]; simpl; [lia|].
  destruct (is_json_ws c); simpl; lia.
Qed.

Lemma skip_ws_cons (s r : jsstring) (c : N) :
  skip_ws s = c :: r -> (List.length r < List.length s)%nat.
Proof.
  intros H; pose proof (skip_ws_length s) as Hl.
  rewrite H in Hl; simpl in Hl; lia.
Qed.

Lemma span_digits_length (s : jsstring) :
  (List.length (snd (span_digits s)) <= List.length s)%nat.
Proof.
  induction s as [|c s IH]; simpl; [lia|].
  destruct (is_digit c); simpl; [|lia].
  destruct (span_digits s); simpl in *; lia.
Qed.

Lemma startsWith_length (s p : jsstring) :
  startsWith s p = true -> (List.length p <= List.length s)%nat.
Proof.
  revert s; induction p as [|x p IH]; intros s H; simpl in *; [lia|].
  destruct s as [|y s]; [discriminate|].
  apply andb_prop in H as [_ H]; apply IH in H; simpl; lia.
Qed.

Lemma parse_string_body_length (n : nat) :
  forall (s acc x r : jsstring),
    (List.length s <= n)%nat ->
    parse_string_body s acc = Some (x, r) ->
    (List.length r < List.length s)%nat.
Proof.
  induction n as [|n IH]; intros s acc x r Hn H.
  - destruct s; [discriminate | simpl in Hn; lia].
  - destruct s as [|c s]; [discriminate|].
    cbn [parse_string_body] in H; simpl in Hn.
    destruct (c =? 34)%N.
    { injection H as _ <-; simpl; lia. }
    destruct (c =? 92)%N.
    + destruct s as [|d s1]; [discriminate|].
      destruct (d =? 117)%N.
      * destruct s1 as [|h1 [|h2 [|h3 [|h4 s2]]]]; try discriminate.
        destruct (hex4 h1 h2 h3 h4); [|discriminate].
        apply IH in H; simpl in *; lia.
      * destruct (escape_char d); [|discriminate].
        apply IH in H; simpl in *; lia.
    + destruct (c <? 32)%N; [discriminate|].
      apply IH in H; simpl in *; lia.
Qed.

Lemma parse_int_length (s ip r : jsstring) :
  parse_int s = Some (ip, r) -> (List.length r < List.length s)%nat.
Proof.
  unfold parse_int; destruct s as [|c s]; [discriminate|].
  destruct (c =? 48)%N; [intros [= _ <-]; simpl; lia|].
  destruct (is_digit c) eqn:Hd; [|discriminate].
  intros [= H]; simpl in H; rewrite Hd in H.
  pose proof (span_digits_length s) as Hl.
  destruct (span_digits s) as [ds rest]; injection H as _ <-.
  simpl in *; lia.
Qed.

Lemma parse_frac_length (s fp r : jsstring) :
  parse_frac s = Some (fp, r) -> (List.length r <= List.length s)%nat.
Proof.
  unfold parse_frac; destruct s as [|c s]; [intros [= _ <-]; simpl; lia|].
  destruct (c =? 46)%N; [|intros [= _ <-]; simpl; lia].
  pose proof (span_digits_length s) as Hl.
  destruct (span_digits s) as [[|d ds] rest]; [discriminate|].
  intros [= _ <-]; simpl in *; lia.
Qed.

Lemma exp_digits_length (neg : bool) (s r : jsstring) (ex : Z) :
  exp_digits neg s = Some (ex, r) -> (List.length r <= List.length s)%nat.
Proof.
  unfold exp_digits; pose proof (span_digits_length s) as Hl.
  destruct (span_digits s) as [[|d ds] rest]; [discriminate|].
  intros [= _ <-]; simpl in *; lia.
Qed.

Lemma parse_exp_length (s r : jsstring) (ex : Z) :
  parse_exp s = Some (ex, r) -> (List.length r <= List.length s)%nat.
Proof.
  unfold parse_exp; destruct s as [|c s]; [intros [= _ <-]; simpl; lia|].
  destruct ((c =? 101) || (c =? 69))%N; [|intros [= _ <-]; simpl; lia].
  destruct s as [|sg s'];
    [|destruct (sg =? 45)%N; [|destruct (sg =? 43)%N]];
    intros H; apply exp_digits_length in H; simpl in *; lia.
Qed.

Lemma parse_unsigned_length (neg : bool) (s r : jsstring) (v : JSValue) :
  parse_unsigned neg s = Some (v, r) -> (List.length r < List.length s)%nat.
Proof.
  unfold parse_unsigned; intros H.
  destruct (parse_int s) as [[ip s2]|] eqn:Hi; [|discriminate].
  destruct (parse_frac s2) as [[fp s3]|] eqn:Hf; [|discriminate].
  destruct (parse_exp s3) as [[ex s4]|] eqn:He; [|discriminate].
  injection H as _ <-.
  apply parse_int_length in Hi; apply parse_frac_length in Hf.
  apply parse_exp_length in He; lia.
Qed.

Lemma parse_number_length (s r : jsstring) (v : JSValue) :
  parse_number s = Some (v, r) -> (List.length r < List.length s)%nat.
Proof.
  unfold parse_number; destruct s as [|c s']; [discriminate|].
  destruct (c =? 45)%N; intros H; apply parse_unsigned_length in H;
    simpl in *; lia.
Qed.

Lemma consumes_shorter (s s' : jsstring) (p : Parse JSValue) :
  (List.length s' <= List.length s)%nat -> consumes s' p -> consumes s p.
Proof. destruct p; simpl; auto; lia. Qed.

Lemma parse_fuel_enough (fuel : nat) :
  (forall s, (2 * List.length s + 1 <= fuel)%nat ->
             consumes s (parse_value fuel s))
  /\ (forall s acc, (2 * List.length s + 2 <= fuel)%nat ->
                    consumes s (parse_elements fuel s acc))
  /\ (forall s fields, (2 * List.length s + 2 <= fuel)%nat ->
                       consumes s (parse_members fuel s fields)).
Proof.
  induction fuel as [|fuel (IHv & IHe & IHm)].
  { repeat split; intros; lia. }
  split; [|split].
  - (* a value *)
    intros s Hf; cbn [parse_value].
    destruct (skip_ws s) as [|c r] eqn:Hs; [exact I|].
    apply skip_ws_cons in Hs.
    destruct (c =? 123)%N.
    { destruct (skip_ws r) as [|c1 r1] eqn:Hr; [exact I|].
      apply skip_ws_cons in Hr.
      destruct (c1 =? 125)%N; [simpl; lia|].
      apply (consumes_shorter s (c1 :: r1)); [simpl; lia|].
      apply IHm; simpl; lia. }
    destruct (c =? 91)%N.
    { destruct (skip_ws r) as [|c1 r1] eqn:Hr; [exact I|].
      apply skip_ws_cons in Hr.
      destruct (c1 =? 93)%N; [simpl; lia|].
      apply (consumes_shorter s (c1 :: r1)); [simpl; lia|].
      apply IHe; simpl; lia. }
    destruct (c =? 34)%N.
    { destruct (parse_string_body r []) as [[x r1]|] eqn:Hb; [|exact I].
      apply (parse_string_body_length (List.length r)) in Hb; simpl; lia. }
    destruct (startsWith (c :: r) (str "true")) eqn:Ht.
    { apply startsWith_length in Ht; unfold consumes, slice.
      rewrite length_skipn; simpl in *; lia. }
    destruct (startsWith (c :: r) (str "false")) eqn:Hfa.
    { apply startsWith_length in Hfa; unfold consumes, slice.
      rewrite length_skipn; simpl in *; lia. }
    destruct (startsWith (c :: r) (str "null")) eqn:Hnu.
    { apply startsWith_length in Hnu; unfold consumes, slice.
      rewrite length_skipn; simpl in *; lia. }
    destruct (parse_number (c :: r)) as [[v r1]|] eqn:Hn; [|exact I].
    apply parse_number_length in Hn; simpl in *; lia.
  - (* the elements of an array *)
    intros s acc Hf; cbn [parse_elements].
    specialize (IHv s ltac:(lia)).
    destruct (parse_value fuel s) as [| |v r]; simpl in IHv; auto.
    destruct (skip_ws r) as [|c r1] eqn:Hr; [exact I|].
    apply skip_ws_cons in Hr.
    destruct (c =? 44)%N.
    { apply (consumes_shorter s r1); [lia|]. apply IHe; lia. }
    destruct (c =? 93)%N; simpl; [lia | exact I].
  - (* the members of an object *)
    intros s fields Hf; cbn [parse_members].
    destruct (skip_ws s) as [|q r] eqn:Hs; [exact I|].
    apply skip_ws_cons in Hs.
    destruct (q =? 34)%N; [|exact I].
    destruct (parse_string_body r []) as [[k r1]|] eqn:Hb; [|exact I].
    apply (parse_string_body_length (List.length r)) in Hb; [|lia].
    destruct (skip_ws r1) as [|colon r2] eqn:Hr1; [exact I|].
    apply skip_ws_cons in Hr1.
    destruct (colon =? 58)%N; [|exact I].
    specialize (IHv r2 ltac:(lia)).
    destruct (parse_value fuel r2) as [| |v r3]; simpl in IHv; auto.
    destruct (skip_ws r3) as [|c r4] eqn:Hr3; [exact I|].
    apply skip_ws_cons in Hr3.
    destruct (c =? 44)%N.
    { apply (consumes_shorter s r4); [lia|]. apply IHm; lia. }
    destruct (c =? 125)%N; simpl; [lia | exact I].
Qed.

End JSONFacts.

(** The fuel [JSON_parse] starts with is never used up: a text is refused
    for its syntax alone. *)
Lemma parse_value_fuel (text : jsstring) :
  parse_value (parse_fuel text) text <> OutOfFuel.
Proof.
  pose proof (proj1 (JSONFacts.parse_fuel_enough (parse_fuel text)) text) as H.
  unfold parse_fuel in *.
  destruct (parse_value (S (2 * List.length text)) text); try discriminate.
  intros _; apply H; lia.
Qed.

(* ================================================================== *)
(** ** JSON texts that are also hexadecimal strings *)

Lemma json_ws_is_space (c : N) : is_json_ws c = true -> is_js_space c = true.
Proof.
  unfold is_json_ws, is_js_space; intros H.
  repeat rewrite ?orb_true_iff, ?N.eqb_eq in H.
  destruct H as [[[-> | ->] | ->] | ->]; reflexivity.
Qed.

Lemma trimStart_skip_ws (s : jsstring) : trimStart (skip_ws s) = trimStart s.
Proof.
  induction s as [|c s IH]; [reflexivity|].
  cbn [skip_ws]; destruct (is_json_ws c) eqn:Hc; [|reflexivity].
  cbn [trimStart]; now rewrite (json_ws_is_space c Hc).
Qed.

Lemma trim_skip_ws (s : jsstring) : trim (skip_ws s) = trim s.
Proof. unfold trim; now rewrite trimStart_skip_ws. Qed.

Lemma trimStart_keeps_suffix (q : jsstring) (c : N) :
  is_js_space c = false ->
  forall l : jsstring, exists u, trimStart (l ++ c :: q) = u ++ c :: q.
Proof.
  intros Hc; induction l as [|a l [u IH]]; cbn [app trimStart].
  - exists []; now rewrite Hc.
  - destruct (is_js_space a); [exists u; exact IH|].
    exists (a :: l); reflexivity.
Qed.

(** Trimming keeps a prefix that starts and ends with characters that are
    no white space. *)
Lemma trim_keeps_prefix (c d : N) (p q r : jsstring) :
  is_js_space c = false -> is_js_space d = false ->
  c :: p = q ++ [d] ->
  exists t, trim ((c :: p) ++ r) = (c :: p) ++ t.
Proof.
  intros Hc Hd Hq; unfold trim.
  cbn [app trimStart]; rewrite Hc.
  change (c :: p ++ r) with ((c :: p) ++ r).
  rewrite rev_app_distr, Hq, rev_app_distr; cbn [rev app].
  destruct (trimStart_keeps_suffix (rev q) d Hd (rev r)) as [u ->].
  exists (rev u).
  rewrite rev_app_distr; cbn [rev].
  now rewrite rev_involutive, <- Hq.
Qed.

Lemma isValidHex_digits (s : jsstring) :
  isValidHex s = true -> forallb is_hex_digit s = true.
Proof.
  unfold isValidHex; intros H; apply andb_prop in H as [H _].
  destruct s; [discriminate | exact H].
Qed.

Lemma parse_number_JNumber (s r : jsstring) (v : JSValue) :
  parse_number s = Some (v, r) -> exists m e, v = JNumber m e.
Proof.
  assert (Hu : forall neg s1, parse_unsigned neg s1 = Some (v, r) ->
                              exists m e, v = JNumber m e).
  { unfold parse_unsigned; intros neg s1 H.
    destruct (parse_int s1) as [[ip s2]|]; [|discriminate].
    destruct (parse_frac s2) as [[fp s3]|]; [|discriminate].
    destruct (parse_exp s3) as [[ex s4]|]; [|discriminate].
    injection H as <- _; eauto. }
  unfold parse_number; destruct s as [|c s']; [discriminate|].
  destruct (c =? 45)%N; eauto.
Qed.

(** A text in one of the start characters of a structured value, a string
    or a literal is not a hexadecimal string after trimming. *)
Lemma not_hex_after_trim (text p r : jsstring) (c d : N) (q : jsstring) :
  skip_ws text = (c :: p) ++ r ->
  c :: p = q ++ [d] ->
  is_js_space c = false -> is_js_space d = false ->
  forallb is_hex_digit (c :: p) = false ->
  isValidHex (trim text) = true -> False.
Proof.
  intros Hs Hq Hc Hd Hp Hv.
  apply isValidHex_digits in Hv.
  rewrite <- trim_skip_ws, Hs in Hv.
  destruct (trim_keeps_prefix c d p q r Hc Hd Hq) as [t Ht].
  rewrite Ht, forallb_app, Hp in Hv; discriminate.
Qed.

(** If a text parses as JSON and its trimmed form is a hexadecimal string,
    the value is a number. *)
Lemma JSON_parse_hex_is_number (text : jsstring) (v : JSValue) :
  JSON_parse text = Ok v ->
  isValidHex (trim text) = true ->
  exists m e, v = JNumber m e.
Proof.
  unfold JSON_parse, parse_fuel; intros Hp Hv.
  destruct (parse_value (S (2 * List.length text)) text) as [| |w rest] eqn:Hpv;
    try discriminate.
  assert (w = v) as -> by (destruct (skip_ws rest); congruence).
  clear Hp; cbn [parse_value] in Hpv.
  destruct (skip_ws text) as [|c r] eqn:Hs; [discriminate|].
  destruct (N.eqb_spec c 123) as [->|_].
  { exfalso; apply (not_hex_after_trim text [] r 123 123 [] Hs); auto. }
  destruct (N.eqb_spec c 91) as [->|_].
  { exfalso; apply (not_hex_after_trim text [] r 91 91 [] Hs); auto. }
  destruct (N.eqb_spec c 34) as [->|_].
  { exfalso; apply (not_hex_after_trim text [] r 34 34 [] Hs); auto. }
  destruct (startsWith (c :: r) (str "true")) eqn:Ht.
  { exfalso; apply startsWith_inv in Ht; rewrite Ht in Hs.
    apply (not_hex_after_trim text (str "rue") _ 116 101 (str "tru") Hs);
      auto. }
  destruct (startsWith (c :: r) (str "false")) eqn:Hf.
  { exfalso; apply startsWith_inv in Hf; rewrite Hf in Hs.
    apply (not_hex_after_trim text (str "alse") _ 102 101 (str "fals") Hs);
      auto. }
  destruct (startsWith (c :: r) (str "null")) eqn:Hn.
  { exfalso; apply startsWith_inv in Hn; rewrite Hn in Hs.
    apply (not_hex_after_trim text (str "ull") _ 110 108 (str "nul") Hs);
      auto. }
  destruct (parse_number (c :: r)) as [[x r1]|] eqn:Hnum; [|discriminate].
  injection Hpv as -> _.
  eapply parse_number_JNumber; eassumption.
Qed.

(* ================================================================== *)
(** ** The key file reader *)

Section Reader.

Variable fs : FileSystem.

(** The outer handler adds its context to whatever the body threw. *)
Lemma readPrivateKeyFile_readable (keyPath fileContent : jsstring) :
  existsSync fs keyPath = true ->
  readFileSync fs keyPath = Ok fileContent ->
  readPrivateKeyFile fs keyPath =
    match extract_from_json fileContent with
    | Ok v => Ok v
    | Throw _ =>
        if isValidHex (trim fileContent) then Ok (JString (trim fileContent))
        else Throw UnrecognizedFormatError
    end.
Proof.
  intros Hex Hrd; unfold readPrivateKeyFile.
  rewrite Hex, Hrd; simpl.
  destruct (extract_from_json fileContent); simpl; [reflexivity|].
  destruct (isValidHex (trim fileContent)); reflexivity.
Qed.

(** Which values the JSON shapes give: a truthy [cborHex] property of an
    object, or the value itself when it is a non-empty string. *)
Lemma extract_from_json_Ok (fileContent : jsstring) (v : JSValue) :
  extract_from_json fileContent = Ok v ->
  (exists fields, JSON_parse fileContent = Ok (JObject fields)
                  /\ lookup fields (str "cborHex") = Some v
                  /\ truthy v = true)
  \/ (exists s, JSON_parse fileContent = Ok (JString s)
                /\ s <> [] /\ v = JString s).
Proof.
  unfold extract_from_json.
  destruct (JSON_parse fileContent) as [keyData|e]; simpl; [|discriminate].
  destruct keyData as [| |b|m e|s|xs|fields]; simpl; try discriminate.
  - (* a string *)
    destruct s as [|c s]; simpl; [discriminate|].
    intros [= <-]; right; exists (c :: s); repeat split; discriminate.
  - (* an object *)
    destruct (lookup fields (str "cborHex")) as [x|] eqn:Hl; simpl.
    + destruct (truthy x) eqn:Ht.
      * intros [= <-]; left; exists fields; auto.
      * destruct (lookup fields (str "type")) as [t|]; simpl;
          rewrite ?andb_false_r; simpl; discriminate.
    + destruct (lookup fields (str "type")) as [t|]; simpl;
        rewrite ?andb_false_r; simpl; discriminate.
Qed.

(** C8. A path that does not exist makes [readPrivateKeyFile] fail with the
    file-not-found error, and the message of the error the caller receives
    contains the path as given. *)
Theorem readPrivateKeyFile_missing_file (keyPath : jsstring) :
  existsSync fs keyPath = false ->
  readPrivateKeyFile fs keyPath = Throw (FileNotFoundError keyPath)
  /\ message (FileNotFoundError keyPath)
     = str "Error reading private key file: Private key file not found at path: "
       ++ keyPath
  /\ includes (message (FileNotFoundError keyPath)) keyPath = true.
Proof.
  intros Hex; split; [|split].
  - unfold readPrivateKeyFile; rewrite Hex; reflexivity.
  - reflexivity.
  - unfold FileNotFoundError, rethrow, new_Error, msg_not_found.
    cbn [message]; rewrite app_assoc; apply includes_suffix.
Qed.

(** C4, amended. When the content parses as a JSON object whose [cborHex]
    member is truthy (for a string: not empty), [readPrivateKeyFile] returns
    that member's value, whatever other members, [type] included, the
    object has. *)
Theorem readPrivateKeyFile_cborHex_member
  (keyPath fileContent : jsstring) (fields : list (jsstring * JSValue))
  (v : JSValue) :
  existsSync fs keyPath = true ->
  readFileSync fs keyPath = Ok fileContent ->
  JSON_parse fileContent = Ok (JObject fields) ->
  lookup fields (str "cborHex") = Some v ->
  truthy v = true ->
  readPrivateKeyFile fs keyPath = Ok v.
Proof.
  intros Hex Hrd Hp Hl Ht.
  rewrite (readPrivateKeyFile_readable _ _ Hex Hrd).
  unfold extract_from_json; rewrite Hp; simpl; rewrite Hl; simpl.
  now rewrite Ht.
Qed.

(** C3, amended. A value that [readPrivateKeyFile] returns is one of: the
    truthy [cborHex] member of the parsed object; the parsed value itself,
    a non-empty string; the trimmed content, a non-empty run of hexadecimal
    digits of even length.  Tag and length are not looked at here. *)
Theorem readPrivateKeyFile_returns (keyPath : jsstring) (v : JSValue) :
  readPrivateKeyFile fs keyPath = Ok v ->
  exists fileContent,
    existsSync fs keyPath = true
    /\ readFileSync fs keyPath = Ok fileContent
    /\ ((exists fields, JSON_parse fileContent = Ok (JObject fields)
                        /\ lookup fields (str "cborHex") = Some v
                        /\ truthy v = true)
        \/ (exists s, JSON_parse fileContent = Ok (JString s)
                      /\ s <> [] /\ v = JString s)
        \/ (v = JString (trim fileContent)
            /\ isValidHex (trim fileContent) = true)).
Proof.
  intros H.
  destruct (existsSync fs keyPath) eqn:Hex.
  2:{ unfold readPrivateKeyFile in H; rewrite Hex in H; discriminate. }
  destruct (readFileSync fs keyPath) as [fileContent|e] eqn:Hrd.
  2:{ unfold readPrivateKeyFile in H; rewrite Hex, Hrd in H; discriminate. }
  exists fileContent; repeat split; try reflexivity.
  rewrite (readPrivateKeyFile_readable _ _ Hex Hrd) in H.
  destruct (extract_from_json fileContent) as [w|e] eqn:Hj.
  - injection H as ->.
    destruct (extract_from_json_Ok _ _ Hj) as [Ho|Hs]; auto.
  - destruct (isValidHex (trim fileContent)) eqn:Hh; [|discriminate].
    injection H as <-; auto.
Qed.

(** A content that parses as JSON to anything but a number, and to none of
    the accepted shapes, is refused; the handler of the inner [try] runs
    all the same and finds no hexadecimal string. *)
Lemma readPrivateKeyFile_unrecognized_shape
  (keyPath fileContent : jsstring) (keyData : JSValue) :
  existsSync fs keyPath = true ->
  readFileSync fs keyPath = Ok fileContent ->
  JSON_parse fileContent = Ok keyData ->
  (forall m e, keyData <> JNumber m e) ->
  (forall v, extract_from_json fileContent <> Ok v) ->
  readPrivateKeyFile fs keyPath = Throw UnrecognizedFormatError.
Proof.
  intros Hex Hrd Hp Hnum Hshape.
  rewrite (readPrivateKeyFile_readable _ _ Hex Hrd).
  destruct (extract_from_json fileContent) as [v|e]; [now elim (Hshape v)|].
  destruct (isValidHex (trim fileContent)) eqn:Hh; [|reflexivity].
  destruct (JSON_parse_hex_is_number _ _ Hp Hh) as (m & e' & ->).
  now elim (Hnum m e').
Qed.

(** In particular an object without a truthy [cborHex] member. *)
Lemma readPrivateKeyFile_object_without_cborHex
  (keyPath fileContent : jsstring) (fields : list (jsstring * JSValue)) :
  existsSync fs keyPath = true ->
  readFileSync fs keyPath = Ok fileContent ->
  JSON_parse fileContent = Ok (JObject fields) ->
  (forall v, lookup fields (str "cborHex") = Some v -> truthy v = false) ->
  readPrivateKeyFile fs keyPath = Throw UnrecognizedFormatError.
Proof.
  intros Hex Hrd Hp Hno.
  apply (readPrivateKeyFile_unrecognized_shape _ _ _ Hex Hrd Hp);
    [discriminate|].
  intros v Hv.
  destruct (extract_from_json_Ok _ _ Hv)
    as [(fields' & Hp' & Hl & Ht)|(s & Hp' & _)];
    rewrite Hp in Hp'; [|discriminate].
  injection Hp' as <-; rewrite (Hno v Hl) in Ht; discriminate.
Qed.

End Reader.

(* ================================================================== *)
(** ** The [bech32] package on the converter's inputs *)

Module Bech32Facts.
Import Bech32.
Local Open Scope Z_scope.

Lemma int32_small (z : Z) : 0 <= z < 2 ^ 31 -> int32 z = z.
Proof.
  intros H; unfold int32.
  rewrite Z.mod_small; lia.
Qed.

Lemma js_and_31 (a : Z) : word5 (js_and a 31).
Proof.
  unfold word5, js_and.
  change (int32 31) with (Z.ones 5).
  rewrite Z.land_ones by lia.
  apply Z.mod_pos_bound; lia.
Qed.

Lemma word5_sar (x : Z) : word5 x -> js_sar x 5 = 0.
Proof.
  intros H; unfold js_sar, word5 in *.
  change (Z.land 5 31) with 5.
  rewrite int32_small by lia.
  rewrite Z.shiftr_div_pow2 by lia.
  apply Z.div_small; lia.
Qed.

(** The inner loop with [outBits = 5]: the words it pushes are five-bit
    words, and [bits] loses five for each. *)
Lemma drain_5 (fuel : nat) :
  forall (value bits : Z) (result : list Z),
    0 <= bits -> (Z.to_nat bits <= fuel)%nat ->
    exists (ws : list Z) (bits' : Z),
      drain fuel value bits 5 31 result = (bits', result ++ ws)
      /\ Forall word5 ws
      /\ 5 * Z.of_nat (List.length ws) + bits' = bits
      /\ 0 <= bits' < 5.
Proof.
  induction fuel as [|fuel IH]; intros value bits result Hb Hf.
  - exists [], bits; cbn [drain List.length]; rewrite app_nil_r.
    repeat split; auto; lia.
  - cbn [drain]. rewrite Z.geb_leb. destruct (Z.leb_spec 5 bits) as [Hge|Hge].
    + destruct (IH value (bits - 5)
                   (result ++ [js_and (js_sar value (bits - 5)) 31]))
        as (ws & bits' & Hd & Hw & Hlen & Hr); try lia.
      exists (js_and (js_sar value (bits - 5)) 31 :: ws), bits'.
      rewrite Hd, <- app_assoc; cbn [app List.length].
      rewrite Nat2Z.inj_succ.
      repeat split; try lia.
      constructor; [apply js_and_31 | assumption].
    + exists [], bits; rewrite app_nil_r; cbn [List.length].
      repeat split; auto; lia.
Qed.

Lemma convert_loop_8_5 (data : list Z) :
  forall (value bits : Z) (result : list Z),
    0 <= bits < 5 ->
    exists (ws : list Z) (value' bits' : Z),
      convert_loop data 8 5 31 value bits result = (value', bits', result ++ ws)
      /\ Forall word5 ws
      /\ 5 * Z.of_nat (List.length ws) + bits'
         = bits + 8 * Z.of_nat (List.length data)
      /\ 0 <= bits' < 5.
Proof.
  induction data as [|d data IH]; intros value bits result Hb.
  - exists [], value, bits; cbn [convert_loop List.length]; rewrite app_nil_r.
    repeat split; auto; lia.
  - cbn [convert_loop].
    destruct (drain_5 (Z.to_nat (bits + 8)) (js_or (js_shl value 8) d)
                (bits + 8) result)
      as (ws1 & bits1 & Hd & Hw1 & Hl1 & Hr1); try lia.
    rewrite Hd.
    destruct (IH (js_or (js_shl value 8) d) bits1 (result ++ ws1) Hr1)
      as (ws2 & value' & bits' & Hc & Hw2 & Hl2 & Hr2).
    exists (ws1 ++ ws2), value', bits'.
    rewrite Hc, <- app_assoc.
    repeat split; try lia.
    + apply Forall_app; auto.
    + rewrite length_app, Nat2Z.inj_add; cbn [List.length]; lia.
Qed.

(** [toWords] returns the array: five-bit words, at most one more than the
    bits of the input fill. *)
Lemma toWords_words (bytes : list Z) :
  exists ws : list Z,
    toWords bytes = inr ws
    /\ Forall word5 ws
    /\ 5 * Z.of_nat (List.length ws) <= 8 * Z.of_nat (List.length bytes) + 4.
Proof.
  unfold toWords, convert.
  change (js_shl 1 5 - 1) with 31.
  destruct (convert_loop_8_5 bytes 0 0 []) as (ws & value & bits & Hc & Hw & Hl & Hr);
    [lia|].
  rewrite Hc; cbn [app].
  rewrite Z.gtb_ltb. destruct (Z.ltb_spec 0 bits) as [Hpos|Hpos].
  - eexists; split; [reflexivity|]; split.
    + apply Forall_app; split; [assumption|].
      constructor; [apply js_and_31 | constructor].
    + rewrite length_app, Nat2Z.inj_add; cbn [List.length]; lia.
  - exists ws; repeat split; auto; lia.
Qed.

Lemma encode_words_word5 (ws : list Z) :
  Forall word5 ws ->
  forall (chk : Z) (result : jsstring),
  exists (chk' : Z) (tail : jsstring),
    encode_words ws chk result = Some (chk', result ++ tail).
Proof.
  induction 1 as [|x ws Hx Hws IH]; intros chk result.
  - exists chk, []; simpl; now rewrite app_nil_r.
  - cbn [encode_words]; rewrite (word5_sar _ Hx); cbn [Z.eqb negb].
    destruct (IH (js_xor (polymodStep chk) x) (result ++ charAt ALPHABET x))
      as (chk' & tail & He).
    exists chk', (charAt ALPHABET x ++ tail).
    now rewrite He, <- app_assoc.
Qed.

Lemma prefixChk_ed25519_sk :
  prefixChk (toLowerCase (str "ed25519_sk")) = inr ed25519_sk_chk.
Proof. vm_compute; reflexivity. Qed.

(** [encode] with the converter's prefix accepts every array of at most 73
    five-bit words, and its result starts with the prefix and the
    separator. *)
Lemma encode_ed25519_sk (ws : list Z) :
  Forall word5 ws ->
  (List.length ws <= 73)%nat ->
  exists tail : jsstring,
    encode (str "ed25519_sk") ws None = Ok (str "ed25519_sk1" ++ tail).
Proof.
  intros Hw Hl; unfold encode.
  change (List.length (str "ed25519_sk")) with 10%nat.
  rewrite Z.gtb_ltb.
  destruct (Z.ltb_spec 90 (Z.of_nat 10 + 7 + Z.of_nat (List.length ws)));
    [lia|].
  rewrite prefixChk_ed25519_sk.
  destruct (encode_words_word5 ws Hw ed25519_sk_chk
              (toLowerCase (str "ed25519_sk") ++ str "1"))
    as (chk' & tail & He).
  rewrite He.
  eexists; rewrite <- app_assoc; reflexivity.
Qed.

End Bech32Facts.

(** The package's encoder on a buffer of at most 32 bytes: neither method
    throws, and the key starts with [ed25519_sk1]. *)
Lemma bech32_encodes (bytes : list Z) :
  (List.length bytes <= 32)%nat ->
  exists (words : list Z) (tail : jsstring),
    toWords bech32 bytes = Ok words
    /\ encode bech32 (str "ed25519_sk") words = Ok (str "ed25519_sk1" ++ tail).
Proof.
  intros Hl.
  destruct (Bech32Facts.toWords_words bytes) as (ws & Ht & Hw & Hlen).
  destruct (Bech32Facts.encode_ed25519_sk ws Hw) as (tail & He); [lia|].
  exists ws, tail; cbn [toWords encode bech32]; rewrite Ht; auto.
Qed.

(** A pair is decoded for two characters consumed. *)
Lemma hex_decode_length (n : nat) :
  forall src : jsstring,
    (List.length src <= n)%nat ->
    (2 * List.length (hex_decode src) <= List.length src)%nat.
Proof.
  induction n as [|n IH]; intros src Hn.
  - destruct src; simpl in *; lia.
  - destruct src as [|a [|b rest]]; simpl in *; try lia.
    destruct (unhex a), (unhex b); simpl; try lia.
    specialize (IH rest); lia.
Qed.

Lemma Buffer_from_hex_64 (rawHex : jsstring) :
  List.length rawHex = 64%nat ->
  (List.length (Buffer_from_hex rawHex) <= 32)%nat.
Proof.
  intros H; unfold Buffer_from_hex.
  pose proof (hex_decode_length 64 rawHex); lia.
Qed.

(* ================================================================== *)
(** ** The instance across calls *)

Section Evolution.

Variable loader : ModuleLoader.

Lemma evolves_refl (this : CardanoKeyConverter) : evolves loader this this.
Proof. unfold evolves; auto 10. Qed.

Lemma evolves_trans (a b c : CardanoKeyConverter) :
  evolves loader a b -> evolves loader b c -> evolves loader a c.
Proof.
  unfold evolves; intros (H1 & H2 & H3 & H4 & H5) (K1 & K2 & K3 & K4 & K5).
  repeat split; try congruence; auto.
Qed.

Lemma preserves_ret {A} (a : A) : preserves loader (ret a).
Proof. intros this; apply evolves_refl. Qed.

Lemma preserves_throw {A} (e : JSError) : preserves loader (@throw A e).
Proof. intros this; apply evolves_refl. Qed.

Lemma preserves_lift {A} (r : Result A) : preserves loader (lift r).
Proof. intros this; apply evolves_refl. Qed.

Lemma preserves_bind {A B} (m : Method A) (k : A -> Method B) :
  preserves loader m -> (forall a, preserves loader (k a)) ->
  preserves loader (bind m k).
Proof.
  intros Hm Hk this; unfold bind.
  specialize (Hm this); destruct (m this) as [[a|e] this']; simpl in *; auto.
  eapply evolves_trans; [eassumption | apply Hk].
Qed.

Lemma preserves_try_catch {A} (body : Method A) (handler : JSError -> Method A) :
  preserves loader body -> (forall e, preserves loader (handler e)) ->
  preserves loader (try_catch body handler).
Proof.
  intros Hm Hk this; unfold try_catch.
  specialize (Hm this); destruct (body this) as [[a|e] this']; simpl in *; auto.
  eapply evolves_trans; [eassumption | apply Hk].
Qed.

Lemma preserves_if {A} (c : bool) (m1 m2 : Method A) :
  preserves loader m1 -> preserves loader m2 ->
  preserves loader (if c then m1 else m2).
Proof. destruct c; auto. Qed.

(** A call on an instance that holds an encoder returns it and writes
    nothing. *)
Lemma initBech32Encoder_memo (this : CardanoKeyConverter) (e : Bech32Encoder) :
  bech32Encoder this = FEncoder e ->
  initBech32Encoder loader this = (Ok e, this).
Proof. intros H; unfold initBech32Encoder; now rewrite H. Qed.

(** A call on an instance without an encoder assigns what the loader
    gives, also when that is [undefined]. *)
Lemma initBech32Encoder_load (this : CardanoKeyConverter) :
  (forall e, bech32Encoder this <> FEncoder e) ->
  initBech32Encoder loader this =
    match load loader with
    | Ok f =>
        (match f with
         | FEncoder e => Ok e
         | _ => Throw (new_Error msg_init_failed)
         end, set_bech32Encoder f this)
    | Throw err => (Throw err, this)
    end.
Proof.
  intros Hn; unfold initBech32Encoder, initBech32Encoder_resume, load.
  destruct (bech32Encoder this) as [| |e] eqn:Hf; [| |now elim (Hn e)];
    destruct (import_bech32 loader) as [[x|]|err1];
    try destruct (require_bech32 loader) as [[y|]|err2]; reflexivity.
Qed.

Lemma preserves_initBech32Encoder : preserves loader (initBech32Encoder loader).
Proof.
  intros this.
  destruct (bech32Encoder this) as [| |e] eqn:Hf.
  3:{ rewrite (initBech32Encoder_memo _ _ Hf); apply evolves_refl. }
  all: rewrite initBech32Encoder_load by (rewrite Hf; discriminate).
  all: destruct (load loader) as [f|err] eqn:Hl; simpl;
    [|apply evolves_refl].
  all: unfold evolves, settled; simpl; rewrite Hf, Hl.
  all: repeat split; auto; discriminate.
Qed.

(** On a settled instance the result of [initBech32Encoder] depends on the
    loader alone. *)
Lemma initBech32Encoder_settled (this : CardanoKeyConverter) :
  settled loader this ->
  fst (initBech32Encoder loader this) = init_outcome loader.
Proof.
  unfold settled, init_outcome; intros Hs.
  destruct (bech32Encoder this) as [| |e] eqn:Hf.
  3:{ rewrite (initBech32Encoder_memo _ _ Hf).
      destruct Hs as [Hs|Hs]; [discriminate|now rewrite Hs]. }
  all: rewrite initBech32Encoder_load by (rewrite Hf; discriminate).
  all: destruct (load loader) as [f|err]; reflexivity.
Qed.

Lemma preserves_encode_stage (rawHex : jsstring) :
  preserves loader (encode_stage loader rawHex).
Proof.
  unfold encode_stage.
  apply preserves_try_catch; [|intros; apply preserves_throw].
  apply preserves_bind; [apply preserves_initBech32Encoder|intros enc].
  apply preserves_bind; [apply preserves_lift|intros words].
  apply preserves_bind; [apply preserves_lift|intros k].
  apply preserves_ret.
Qed.

Lemma encode_stage_settled (rawHex : jsstring) (this : CardanoKeyConverter) :
  settled loader this ->
  fst (encode_stage loader rawHex this) =
    match init_outcome loader with
    | Ok encoder =>
        match toWords encoder (Buffer_from_hex rawHex) with
        | Ok words =>
            match encode encoder (str "ed25519_sk") words with
            | Ok lucidSk => Ok lucidSk
            | Throw e => Throw (rethrow msg_converting e)
            end
        | Throw e => Throw (rethrow msg_converting e)
        end
    | Throw e => Throw (rethrow msg_converting e)
    end.
Proof.
  intros Hs; rewrite <- (initBech32Encoder_settled this Hs).
  unfold encode_stage, try_catch, bind, lift, ret, throw.
  destruct (initBech32Encoder loader this) as [[enc|e] this']; simpl; auto.
  destruct (toWords enc (Buffer_from_hex rawHex)) as [words|e]; simpl; auto.
  destruct (encode enc (str "ed25519_sk") words) as [k|e]; reflexivity.
Qed.


(** What a resumed [initBech32Encoder] writes. *)
Lemma initBech32Encoder_resume_writes (this : CardanoKeyConverter) :
  snd (initBech32Encoder_resume loader this) = this
  \/ exists f, load loader = Ok f
               /\ snd (initBech32Encoder_resume loader this)
                  = set_bech32Encoder f this.
Proof.
  unfold initBech32Encoder_resume, load.
  destruct (import_bech32 loader) as [[x|]|err1];
    try destruct (require_bech32 loader) as [[y|]|err2]; simpl;
    solve [left; reflexivity | right; eexists; split; reflexivity].
Qed.

Lemma overlap_step_frame (m1 m2 : CardanoKeyConverter * nat) :
  overlap_step loader m1 m2 ->
  overlap_inv loader m1 ->
  overlap_inv loader m2
  /\ network (fst m2) = network (fst m1)
  /\ blockfrostApiUrl (fst m2) = blockfrostApiUrl (fst m1)
  /\ blockfrostApiKey (fst m2) = blockfrostApiKey (fst m1)
  /\ (forall e, bech32Encoder (fst m1) = FEncoder e ->
                bech32Encoder (fst m2) = FEncoder e).
Proof.
  intros Hstep Hinv; destruct Hstep as [this n e Hf|this n Hn|this n].
  - auto 10.
  - repeat split; auto.
    right; intros e Hf; now elim (Hn e).
  - destruct Hinv as [Hz|Hlo]; [discriminate|]; cbn [fst snd] in *.
    destruct (initBech32Encoder_resume_writes this) as [->|(f & Hl & ->)].
    + repeat split; auto; now right.
    + repeat split; cbn [bech32Encoder set_bech32Encoder].
      * right; intros e Hf; cbn in Hf; congruence.
      * intros e Hf; apply Hlo in Hf; congruence.
Qed.

(** Overlapping calls: whenever calls start and resume, the configuration
    stays and an encoder once stored is never replaced by another. *)
Lemma overlap_run_frame (m1 m2 : CardanoKeyConverter * nat) :
  overlap_run loader m1 m2 ->
  overlap_inv loader m1 ->
  overlap_inv loader m2
  /\ network (fst m2) = network (fst m1)
  /\ blockfrostApiUrl (fst m2) = blockfrostApiUrl (fst m1)
  /\ blockfrostApiKey (fst m2) = blockfrostApiKey (fst m1)
  /\ (forall e, bech32Encoder (fst m1) = FEncoder e ->
                bech32Encoder (fst m2) = FEncoder e).
Proof.
  induction 1 as [m|m1 m2 m3 Hstep Hrun IH]; intros Hinv; [auto 10|].
  destruct (overlap_step_frame _ _ Hstep Hinv) as (Hi & Hn & Hu & Hk & He).
  destruct (IH Hi) as (Hi' & Hn' & Hu' & Hk' & He').
  repeat split; try congruence; auto.
Qed.

(** From an instance with no call in flight: at every later moment the
    configuration is the initial one, and an encoder seen at one moment is
    the encoder at every later moment. *)
Lemma overlapping_calls_frame
  (this this1 this2 : CardanoKeyConverter) (n1 n2 : nat) :
  overlap_run loader (this, 0%nat) (this1, n1) ->
  overlap_run loader (this1, n1) (this2, n2) ->
  network this2 = network this
  /\ blockfrostApiUrl this2 = blockfrostApiUrl this
  /\ blockfrostApiKey this2 = blockfrostApiKey this
  /\ (forall e, bech32Encoder this1 = FEncoder e ->
                bech32Encoder this2 = FEncoder e).
Proof.
  intros H1 H2.
  destruct (overlap_run_frame _ _ H1 (or_introl eq_refl))
    as (Hi & Hn & Hu & Hk & _).
  destruct (overlap_run_frame _ _ H2 Hi) as (_ & Hn' & Hu' & Hk' & He).
  cbn [fst] in *; repeat split; try congruence; auto.
Qed.

(** A call that runs alone is a suspension followed by its resumption. *)
Lemma initBech32Encoder_alone (this : CardanoKeyConverter) :
  overlap_run loader (this, 0%nat)
              (snd (initBech32Encoder loader this), 0%nat).
Proof.
  unfold initBech32Encoder.
  destruct (bech32Encoder this) as [| |e] eqn:Hf.
  3:{ apply overlap_done. }
  all: eapply overlap_next;
    [apply overlap_suspend; rewrite Hf; discriminate|].
  all: eapply overlap_next; [apply overlap_resume | apply overlap_done].
Qed.

End Evolution.

Create HintDb frame discriminated.
#[global] Hint Resolve preserves_ret preserves_throw preserves_lift
  preserves_bind preserves_try_catch preserves_if
  preserves_initBech32Encoder preserves_encode_stage : frame.

(* ================================================================== *)
(** ** The key encoder *)

Section Encoder.

Variable loader : ModuleLoader.

Lemma trim_nil : trim [] = [].
Proof. reflexivity. Qed.

Lemma cborHexToLucidPrivateKey_rejects (x : JSValue) (this : CardanoKeyConverter) :
  truthy x = false \/ typeof_string x = false ->
  cborHexToLucidPrivateKey loader x this = (Throw InvalidInputError, this).
Proof.
  intros H; unfold cborHexToLucidPrivateKey, try_catch.
  replace (negb (truthy x) || negb (typeof_string x)) with true; [reflexivity|].
  destruct H as [-> | ->]; simpl; auto using orb_true_r.
Qed.

Lemma cborHexToLucidPrivateKey_prefix (s : jsstring) (this : CardanoKeyConverter) :
  s <> [] ->
  startsWith (trim s) (str "5820") = false ->
  cborHexToLucidPrivateKey loader (JString s) this
  = (Throw InvalidPrefixError, this).
Proof.
  intros Hs Hp; unfold cborHexToLucidPrivateKey, try_catch.
  destruct s as [|c s]; [contradiction|].
  cbn [truthy typeof_string negb orb string_of]; rewrite Hp; reflexivity.
Qed.

Lemma cborHexToLucidPrivateKey_length (s : jsstring) (this : CardanoKeyConverter) :
  s <> [] ->
  startsWith (trim s) (str "5820") = true ->
  List.length (slice 4 (trim s)) <> 64%nat ->
  cborHexToLucidPrivateKey loader (JString s) this
  = (Throw (InvalidLengthError (List.length (slice 4 (trim s)))), this).
Proof.
  intros Hs Hp Hl; unfold cborHexToLucidPrivateKey, try_catch.
  destruct s as [|c s]; [contradiction|].
  cbn [truthy typeof_string negb orb string_of]; rewrite Hp.
  apply Nat.eqb_neq in Hl; cbn [negb]; rewrite Hl; reflexivity.
Qed.

Lemma cborHexToLucidPrivateKey_encodes (s : jsstring) (this : CardanoKeyConverter) :
  s <> [] ->
  startsWith (trim s) (str "5820") = true ->
  List.length (slice 4 (trim s)) = 64%nat ->
  cborHexToLucidPrivateKey loader (JString s) this
  = encode_stage loader (slice 4 (trim s)) this.
Proof.
  intros Hs Hp Hl; unfold cborHexToLucidPrivateKey, encode_stage, try_catch.
  destruct s as [|c s]; [contradiction|].
  cbn [truthy typeof_string negb orb string_of]; rewrite Hp.
  apply Nat.eqb_eq in Hl; cbn [negb]; rewrite Hl; reflexivity.
Qed.

(** The four ways through the checks. *)
Lemma cborHexToLucidPrivateKey_cases (x : JSValue) (this : CardanoKeyConverter) :
  ((forall s, x <> JString s) \/ x = JString [])
    /\ cborHexToLucidPrivateKey loader x this = (Throw InvalidInputError, this)
  \/ exists s, x = JString s /\ s <> [] /\
       (startsWith (trim s) (str "5820") = false
          /\ cborHexToLucidPrivateKey loader x this
             = (Throw InvalidPrefixError, this)
        \/ startsWith (trim s) (str "5820") = true
          /\ List.length (slice 4 (trim s)) <> 64%nat
          /\ cborHexToLucidPrivateKey loader x this
             = (Throw (InvalidLengthError (List.length (slice 4 (trim s)))),
                this)
        \/ startsWith (trim s) (str "5820") = true
          /\ List.length (slice 4 (trim s)) = 64%nat
          /\ cborHexToLucidPrivateKey loader x this
             = encode_stage loader (slice 4 (trim s)) this).
Proof.
  destruct x as [| |b|m e|s|xs|fields];
    try (left; split;
         [left; discriminate
         |apply cborHexToLucidPrivateKey_rejects; right; reflexivity]).
  destruct s as [|c s].
  { left; split; [now right|].
    apply cborHexToLucidPrivateKey_rejects; left; reflexivity. }
  right; exists (c :: s); split; [reflexivity|]; split; [discriminate|].
  destruct (startsWith (trim (c :: s)) (str "5820")) eqn:Hp.
  - destruct (Nat.eq_dec (List.length (slice 4 (trim (c :: s)))) 64) as [Hl|Hl].
    + right; right; repeat split; auto.
      apply cborHexToLucidPrivateKey_encodes; auto; discriminate.
    + right; left; repeat split; auto.
      apply cborHexToLucidPrivateKey_length; auto; discriminate.
  - left; split; auto.
    apply cborHexToLucidPrivateKey_prefix; auto; discriminate.
Qed.

Lemma preserves_cborHexToLucidPrivateKey (x : JSValue) :
  preserves loader (cborHexToLucidPrivateKey loader x).
Proof.
  intros this.
  destruct (cborHexToLucidPrivateKey_cases x this)
    as [[_ ->]|(s & _ & _ & [[_ ->]|[(_ & _ & ->)|(_ & _ & ->)]])];
    try apply evolves_refl.
  apply preserves_encode_stage.
Qed.

Lemma settled_constructor (config : CardanoConfig) :
  settled loader (constructor config).
Proof. left; reflexivity. Qed.

(** On a settled instance the result of the encoder is the result on a
    fresh instance. *)
Lemma cborHexToLucidPrivateKey_settled (x : JSValue) (this : CardanoKeyConverter) :
  settled loader this ->
  fst (cborHexToLucidPrivateKey loader x this)
  = CardanoUtils_cborHexToLucidPrivateKey loader x.
Proof.
  intros Hs; unfold CardanoUtils_cborHexToLucidPrivateKey; cbv zeta.
  pose proof (settled_constructor default_config) as Hc.
  destruct x as [| |b|m e|s|xs|fields];
    try (rewrite !cborHexToLucidPrivateKey_rejects by (right; reflexivity);
         reflexivity).
  destruct s as [|c s].
  { rewrite !cborHexToLucidPrivateKey_rejects by (left; reflexivity).
    reflexivity. }
  destruct (startsWith (trim (c :: s)) (str "5820")) eqn:Hp.
  - destruct (Nat.eq_dec (List.length (slice 4 (trim (c :: s)))) 64) as [Hl|Hl].
    + rewrite !cborHexToLucidPrivateKey_encodes by (auto; discriminate).
      now rewrite !encode_stage_settled.
    + rewrite !cborHexToLucidPrivateKey_length by (auto; discriminate).
      reflexivity.
  - rewrite !cborHexToLucidPrivateKey_prefix by (auto; discriminate).
    reflexivity.
Qed.

(** With the package loaded, or its encoder already stored, the stage after
    the checks succeeds on any 64 characters; the key is the encoding of
    the bytes that [Buffer.from] decoded. *)
Lemma encode_stage_bech32 (rawHex : jsstring) (this : CardanoKeyConverter) :
  List.length rawHex = 64%nat ->
  bech32Encoder this = FEncoder bech32
  \/ (forall e, bech32Encoder this <> FEncoder e)
     /\ load loader = Ok (FEncoder bech32) ->
  exists (words : list Z) (tail : jsstring) (this' : CardanoKeyConverter),
    toWords bech32 (Buffer_from_hex rawHex) = Ok words
    /\ encode bech32 (str "ed25519_sk") words = Ok (str "ed25519_sk1" ++ tail)
    /\ encode_stage loader rawHex this = (Ok (str "ed25519_sk1" ++ tail), this')
    /\ bech32Encoder this' = FEncoder bech32.
Proof.
  intros Hl Hready.
  destruct (bech32_encodes (Buffer_from_hex rawHex) (Buffer_from_hex_64 _ Hl))
    as (words & tail & Hw & He).
  assert (Hinit : exists this',
             initBech32Encoder loader this = (Ok bech32, this')
             /\ bech32Encoder this' = FEncoder bech32).
  { destruct Hready as [Hf|[Hn Hload]].
    - exists this; split; [now apply initBech32Encoder_memo | assumption].
    - rewrite (initBech32Encoder_load loader this Hn), Hload.
      eexists; split; reflexivity. }
  destruct Hinit as (this' & Hinit & Hf').
  exists words, tail, this'; repeat split; auto.
  unfold encode_stage, try_catch, bind, lift, ret.
  now rewrite Hinit, Hw, He.
Qed.

(** Without a usable package the stage fails with one of the two messages
    of [initBech32Encoder], both of which start with [Failed]. *)
Lemma encode_stage_unavailable (rawHex : jsstring) (this : CardanoKeyConverter) :
  (forall e, bech32Encoder this <> FEncoder e) ->
  (forall e, load loader <> Ok (FEncoder e)) ->
  exists (m : jsstring) (this' : CardanoKeyConverter),
    encode_stage loader rawHex this
    = (Throw (new_Error (msg_converting ++ 70%N :: m)), this').
Proof.
  intros Hn Hload.
  unfold encode_stage, try_catch, bind, lift, ret, throw.
  rewrite (initBech32Encoder_load loader this Hn).
  unfold load in *.
  destruct (import_bech32 loader) as [[e|]|err1].
  - now elim (Hload e).
  - eexists _, _; reflexivity.
  - destruct (require_bech32 loader) as [[e|]|err2].
    + now elim (Hload e).
    + eexists _, _; reflexivity.
    + eexists _, _; reflexivity.
Qed.

End Encoder.

#[global] Hint Resolve preserves_cborHexToLucidPrivateKey : frame.

(* ================================================================== *)
(** ** Orchestration, wallet helpers and sequences of calls *)

Section Calls.

Variable fs : FileSystem.
Variable loader : ModuleLoader.

Lemma onchainToOffchainPrivateKey_unfold (keyPath : jsstring)
  (this : CardanoKeyConverter) :
  onchainToOffchainPrivateKey fs loader keyPath this
  = reader_then_encoder fs loader keyPath this.
Proof.
  unfold onchainToOffchainPrivateKey, reader_then_encoder.
  unfold try_catch, bind, lift, ret, throw.
  destruct (readPrivateKeyFile fs keyPath) as [cborHex|e]; [|reflexivity].
  destruct (cborHexToLucidPrivateKey loader cborHex this) as [[key|e] this'];
    reflexivity.
Qed.

Lemma preserves_onchainToOffchainPrivateKey (keyPath : jsstring) :
  preserves loader (onchainToOffchainPrivateKey fs loader keyPath).
Proof.
  unfold onchainToOffchainPrivateKey; auto 8 with frame.
Qed.

#[local] Hint Resolve preserves_onchainToOffchainPrivateKey : frame.

Section WalletCalls.

Variables LucidEvolution UTxO : Type.
Variable lib : LucidLib LucidEvolution UTxO.

Lemma preserves_createLucidWithPrivateKey (keyPath : jsstring) :
  preserves loader (createLucidWithPrivateKey fs loader _ _ lib keyPath).
Proof.
  unfold createLucidWithPrivateKey.
  apply preserves_try_catch; [|auto with frame].
  intros this; cbv beta.
  apply preserves_bind; auto 8 with frame.
Qed.

#[local] Hint Resolve preserves_createLucidWithPrivateKey : frame.

Lemma preserves_getWalletAddress (keyPath : jsstring) :
  preserves loader (getWalletAddress fs loader _ _ lib keyPath).
Proof.
  unfold getWalletAddress; auto 8 with frame.
Qed.

Lemma preserves_getWalletUtxos (keyPath : jsstring) :
  preserves loader (getWalletUtxos fs loader _ _ lib keyPath).
Proof.
  unfold getWalletUtxos; auto 8 with frame.
Qed.

Lemma evolves_after (c : Call) (this : CardanoKeyConverter) :
  evolves loader this (after fs loader _ _ lib c this).
Proof.
  destruct c; cbn [after].
  - apply evolves_refl.
  - apply preserves_cborHexToLucidPrivateKey.
  - apply preserves_onchainToOffchainPrivateKey.
  - apply preserves_createLucidWithPrivateKey.
  - apply preserves_getWalletAddress.
  - apply preserves_getWalletUtxos.
Qed.

Lemma evolves_after_all (calls : list Call) :
  forall this : CardanoKeyConverter,
    evolves loader this (after_all fs loader _ _ lib calls this).
Proof.
  unfold after_all.
  induction calls as [|c calls IH]; intros this; cbn [fold_left].
  - apply evolves_refl.
  - eapply evolves_trans; [apply evolves_after | apply IH].
Qed.

Lemma after_all_app (calls1 calls2 : list Call) (this : CardanoKeyConverter) :
  after_all fs loader _ _ lib (calls1 ++ calls2) this
  = after_all fs loader _ _ lib calls2 (after_all fs loader _ _ lib calls1 this).
Proof. unfold after_all; apply fold_left_app. Qed.

(** An instance built by the constructor is settled after any calls. *)
Lemma settled_after_all (config : CardanoConfig) (calls : list Call) :
  settled loader (after_all fs loader _ _ lib calls (constructor config)).
Proof.
  apply (evolves_after_all calls (constructor config)).
  apply settled_constructor.
Qed.

End WalletCalls.

End Calls.

(* ================================================================== *)
(** ** Inputs of the form tag plus payload *)

Lemma hex_digit_not_space (c : N) :
  is_hex_digit c = true -> is_js_space c = false.
Proof.
  unfold is_hex_digit, is_js_space; intros H.
  apply not_true_is_false; intros Hs.
  repeat rewrite ?orb_true_iff, ?andb_true_iff, ?N.leb_le, ?N.eqb_eq in H.
  repeat rewrite ?orb_true_iff, ?andb_true_iff, ?N.leb_le, ?N.eqb_eq in Hs.
  lia.
Qed.

Lemma trim_fixed (s back : jsstring) (c d : N) (front : jsstring) :
  s = c :: front -> rev s = d :: back ->
  is_js_space c = false -> is_js_space d = false ->
  trim s = s.
Proof.
  intros Hs Hr Hc Hd; unfold trim.
  rewrite Hs at 1; cbn [trimStart]; rewrite Hc, <- Hs, Hr.
  cbn [trimStart]; rewrite Hd, <- Hr.
  apply rev_involutive.
Qed.

(** A tag followed by hexadecimal digits has nothing to trim. *)
Lemma trim_tagged (hex : jsstring) :
  forallb is_hex_digit hex = true ->
  trim (str "5820" ++ hex) = str "5820" ++ hex.
Proof.
  intros Hh.
  destruct (rev (str "5820" ++ hex)) as [|d back] eqn:Hr.
  { apply (f_equal (@List.length N)) in Hr.
    rewrite length_rev, length_app in Hr; discriminate. }
  eapply trim_fixed; [reflexivity | exact Hr | reflexivity |].
  assert (Hin : In d (str "5820" ++ hex)).
  { apply in_rev; rewrite Hr; now left. }
  apply in_app_or in Hin as [Hin|Hin].
  - cbn in Hin; intuition (subst; reflexivity).
  - apply hex_digit_not_space.
    rewrite forallb_forall in Hh; auto.
Qed.

Section EncoderResults.

Variable loader : ModuleLoader.

(** With the package at hand the encoder succeeds on any trimmed input
    made of the tag and 64 more characters. *)
Lemma cborHexToLucidPrivateKey_bech32 (s : jsstring) (this : CardanoKeyConverter) :
  startsWith (trim s) (str "5820") = true ->
  List.length (slice 4 (trim s)) = 64%nat ->
  bech32Encoder this = FEncoder bech32
  \/ (forall e, bech32Encoder this <> FEncoder e)
     /\ load loader = Ok (FEncoder bech32) ->
  exists (words : list Z) (tail : jsstring) (this' : CardanoKeyConverter),
    toWords bech32 (Buffer_from_hex (slice 4 (trim s))) = Ok words
    /\ encode bech32 (str "ed25519_sk") words = Ok (str "ed25519_sk1" ++ tail)
    /\ cborHexToLucidPrivateKey loader (JString s) this
       = (Ok (str "ed25519_sk1" ++ tail), this')
    /\ bech32Encoder this' = FEncoder bech32.
Proof.
  intros Hp Hl Hready.
  assert (Hs : s <> []) by (intros ->; discriminate).
  rewrite (cborHexToLucidPrivateKey_encodes loader s this Hs Hp Hl).
  now apply encode_stage_bech32.
Qed.

(** A settled instance in a world where the package loads is ready. *)
Lemma settled_ready (this : CardanoKeyConverter) :
  load loader = Ok (FEncoder bech32) ->
  settled loader this ->
  bech32Encoder this = FEncoder bech32
  \/ (forall e, bech32Encoder this <> FEncoder e)
     /\ load loader = Ok (FEncoder bech32).
Proof.
  intros Hload [Hs|Hs].
  - right; split; [rewrite Hs; discriminate | assumption].
  - left; congruence.
Qed.

(** With the [bech32] package as the only encoder around, the stage after
    the checks returns a key or fails with a message of
    [initBech32Encoder]. *)
Lemma encode_stage_linked (rawHex : jsstring) (this : CardanoKeyConverter) :
  links_bech32 loader this ->
  List.length rawHex = 64%nat ->
  (exists key this', encode_stage loader rawHex this = (Ok key, this'))
  \/ (exists m this',
        encode_stage loader rawHex this
        = (Throw (new_Error (msg_converting ++ 70%N :: m)), this')).
Proof.
  intros [Hload Hfield] Hl.
  destruct (bech32Encoder this) as [| |e] eqn:Hf.
  3:{ left. rewrite (Hfield e eq_refl) in Hf.
      destruct (encode_stage_bech32 loader rawHex this Hl (or_introl Hf))
        as (w & t & this' & _ & _ & E & _); eauto. }
  all: assert (Hn : forall e, bech32Encoder this <> FEncoder e)
    by (rewrite Hf; discriminate).
  all: destruct (load loader) as [[| |e]|err] eqn:Hld.
  all: try (right; apply encode_stage_unavailable;
            [assumption | rewrite Hld; discriminate]).
  all: left; rewrite (Hload e eq_refl) in Hld;
    destruct (encode_stage_bech32 loader rawHex this Hl
                (or_intror (conj Hn Hld)))
      as (w & t & this' & _ & _ & E & _); eauto.
Qed.

End EncoderResults.

(** Two messages of the encoder that differ after the common context. *)
Ltac clash H :=
  exfalso;
  first
    [ discriminate H
    | unfold InvalidInputError, InvalidPrefixError, InvalidLengthError,
        rethrow, new_Error in H;
      cbn [message] in H;
      injection H as H; apply app_inv_head in H;
      unfold msg_invalid_input, msg_invalid_prefix, msg_invalid_length in H;
      simpl in H; discriminate H ].

(* ================================================================== *)
(** ** The encoder: order of the checks, results, independence *)

(** C6. With the [bech32] package as the encoder, the error the caller
    receives is the invalid-input error exactly when the argument is not a
    string or is the empty string; for a non-empty string it is the
    invalid-prefix error exactly when the trimmed text does not start with
    [5820]; and when it does, it is the invalid-length error, whose message
    names 64 and the length found, exactly when the rest is not 64
    characters long. *)
Theorem cborHexToLucidPrivateKey_checks
  (loader : ModuleLoader) (this : CardanoKeyConverter) (x : JSValue) :
  links_bech32 loader this ->
  let r := fst (cborHexToLucidPrivateKey loader x this) in
  (r = Throw InvalidInputError
   <-> ((forall s, x <> JString s) \/ x = JString []))
  /\ (forall s, x = JString s -> s <> [] ->
        (r = Throw InvalidPrefixError
         <-> startsWith (trim s) (str "5820") = false)
        /\ (startsWith (trim s) (str "5820") = true ->
            (r = Throw (InvalidLengthError (List.length (slice 4 (trim s))))
             <-> List.length (slice 4 (trim s)) <> 64%nat)))
  /\ (forall n,
        message (InvalidLengthError n)
        = str "Error converting CBOR hex to Lucid private key: Invalid private key length: expected 64 characters, got "
          ++ Number_toString n).
Proof.
  intros Hlink r; subst r.
  split; [|split; [|reflexivity]].
  - (* the input check *)
    destruct (cborHexToLucidPrivateKey_cases loader x this)
      as [[Hx ->]|(s & -> & Hs & [[Hp ->]|[(Hp & Hl & ->)|(Hp & Hl & ->)]])];
      cbn [fst].
    + tauto.
    + split; [intros H; clash H|].
      intros [H|H]; [elim (H s); reflexivity | congruence].
    + split; [intros H; clash H|].
      intros [H|H]; [elim (H s); reflexivity | congruence].
    + split; [|intros [H|H]; [elim (H s); reflexivity | congruence]].
      destruct (encode_stage_linked loader _ this Hlink Hl)
        as [(k & this' & ->)|(m & this' & ->)]; intros H; clash H.
  - (* the prefix and length checks *)
    intros s -> Hs.
    destruct (cborHexToLucidPrivateKey_cases loader (JString s) this)
      as [[Hx _]|(s' & [= <-] & _ & [[Hp ->]|[(Hp & Hl & ->)|(Hp & Hl & ->)]])];
      cbn [fst].
    + destruct Hx as [H|H]; [elim (H s); reflexivity | congruence].
    + split; [tauto | congruence].
    + split; [split; [intros H; clash H | congruence] | tauto].
    + destruct (encode_stage_linked loader _ this Hlink Hl)
        as [(k & this' & ->)|(m & this' & ->)]; cbn [fst];
        (split; [split; [intros H; clash H | congruence]|]);
        (intros _; split; [intros H; clash H | tauto]).
Qed.

(** C2, amended. For a string whose trimmed text is the tag [5820] and 64
    more characters, hexadecimal digits or not, no decoding error is
    raised: [Buffer.from] keeps the bytes of the pairs before the first
    malformed one (at most 32), and with the [bech32] package loaded the
    call returns their encoding, a key that starts with [ed25519_sk1]. *)
Theorem cborHexToLucidPrivateKey_any_payload
  (loader : ModuleLoader) (this : CardanoKeyConverter) (s : jsstring) :
  startsWith (trim s) (str "5820") = true ->
  List.length (slice 4 (trim s)) = 64%nat ->
  load loader = Ok (FEncoder bech32) ->
  settled loader this ->
  exists (words : list Z) (key : jsstring) (this' : CardanoKeyConverter),
    (List.length (Buffer_from_hex (slice 4 (trim s))) <= 32)%nat
    /\ toWords bech32 (Buffer_from_hex (slice 4 (trim s))) = Ok words
    /\ encode bech32 (str "ed25519_sk") words = Ok key
    /\ cborHexToLucidPrivateKey loader (JString s) this = (Ok key, this')
    /\ startsWith key (str "ed25519_sk1") = true.
Proof.
  intros Hp Hl Hload Hs.
  destruct (cborHexToLucidPrivateKey_bech32 loader s this Hp Hl
              (settled_ready loader this Hload Hs))
    as (words & tail & this' & Hw & He & Hc & _).
  exists words, (str "ed25519_sk1" ++ tail), this'.
  repeat split; auto using Buffer_from_hex_64, startsWith_app.
Qed.

(** C5. For the tag [5820] followed by 64 hexadecimal digits, and with the
    [bech32] package loaded, there is one key, starting with [ed25519_sk],
    that [cborHexToLucidPrivateKey] returns on every settled instance,
    hence on an instance at any point of its life: before the encoder is
    initialised, after it, and after any other calls. *)
Theorem cborHexToLucidPrivateKey_tagged_hex
  (loader : ModuleLoader) (hex : jsstring) :
  List.length hex = 64%nat ->
  forallb is_hex_digit hex = true ->
  load loader = Ok (FEncoder bech32) ->
  exists key : jsstring,
    startsWith key (str "ed25519_sk") = true
    /\ (forall this, settled loader this ->
          exists this',
            cborHexToLucidPrivateKey loader (JString (tagged hex)) this
            = (Ok key, this')
            /\ bech32Encoder this' = FEncoder bech32
            /\ settled loader this')
    /\ (forall (fs : FileSystem) (LucidEvolution UTxO : Type)
               (lib : LucidLib LucidEvolution UTxO)
               (config : CardanoConfig) (calls : list Call),
          fst (cborHexToLucidPrivateKey loader (JString (tagged hex))
                 (after_all fs loader LucidEvolution UTxO lib calls
                            (constructor config)))
          = Ok key).
Proof.
  intros Hl Hh Hload.
  assert (Htrim : trim (tagged hex) = tagged hex) by now apply trim_tagged.
  assert (Hp : startsWith (trim (tagged hex)) (str "5820") = true)
    by (rewrite Htrim; apply startsWith_app).
  assert (Hraw : slice 4 (trim (tagged hex)) = hex)
    by (rewrite Htrim; reflexivity).
  destruct (bech32_encodes (Buffer_from_hex hex) (Buffer_from_hex_64 _ Hl))
    as (words & tail & Hw & He).
  assert (Hall : forall this, settled loader this ->
            exists this',
              cborHexToLucidPrivateKey loader (JString (tagged hex)) this
              = (Ok (str "ed25519_sk1" ++ tail), this')
              /\ bech32Encoder this' = FEncoder bech32
              /\ settled loader this').
  { intros this Hs.
    destruct (cborHexToLucidPrivateKey_bech32 loader (tagged hex) this Hp
                (eq_trans (f_equal (@List.length N) Hraw) Hl)
                (settled_ready loader this Hload Hs))
      as (words' & tail' & this' & Hw' & He' & Hc & Hf).
    rewrite Hraw, Hw in Hw'; injection Hw' as <-.
    rewrite He in He'; injection He' as Ht.
    exists this'; rewrite Hc, Ht; repeat split; auto.
    right; now rewrite Hf. }
  exists (str "ed25519_sk1" ++ tail); split; [|split].
  - apply (startsWith_trans _ (str "ed25519_sk") (str "1")).
    apply (startsWith_app (str "ed25519_sk1") tail).
  - exact Hall.
  - intros fs LE UT lib config calls.
    destruct (Hall _ (settled_after_all fs loader LE UT lib config calls))
      as (this' & -> & _); reflexivity.
Qed.

(** C9. The result of [cborHexToLucidPrivateKey], key or error, is the
    same on two instances built from any two configurations, whatever
    calls each has served, and it is the result of the [CardanoUtils]
    shortcut. *)
Theorem cborHexToLucidPrivateKey_config_independent
  (fs : FileSystem) (loader : ModuleLoader) (LucidEvolution UTxO : Type)
  (lib : LucidLib LucidEvolution UTxO)
  (config1 config2 : CardanoConfig) (calls1 calls2 : list Call)
  (cborHex : JSValue) :
  let instance1 :=
    after_all fs loader LucidEvolution UTxO lib calls1 (constructor config1) in
  let instance2 :=
    after_all fs loader LucidEvolution UTxO lib calls2 (constructor config2) in
  fst (cborHexToLucidPrivateKey loader cborHex instance1)
  = fst (cborHexToLucidPrivateKey loader cborHex instance2)
  /\ CardanoUtils_cborHexToLucidPrivateKey loader cborHex
     = fst (cborHexToLucidPrivateKey loader cborHex instance1).
Proof.
  intros instance1 instance2.
  rewrite !cborHexToLucidPrivateKey_settled
    by (apply settled_after_all).
  split; reflexivity.
Qed.

(** C10. Over any sequence of calls the three configuration fields keep
    the values they had, and once [bech32Encoder] holds an encoder it holds
    that same encoder after every later call: the field leaves [null] for
    an encoder at most once. *)
Theorem configuration_and_encoder_frame
  (fs : FileSystem) (loader : ModuleLoader) (LucidEvolution UTxO : Type)
  (lib : LucidLib LucidEvolution UTxO)
  (this : CardanoKeyConverter) (calls1 calls2 : list Call) :
  let this1 := after_all fs loader LucidEvolution UTxO lib calls1 this in
  let this2 :=
    after_all fs loader LucidEvolution UTxO lib (calls1 ++ calls2) this in
  network this2 = network this
  /\ blockfrostApiUrl this2 = blockfrostApiUrl this
  /\ blockfrostApiKey this2 = blockfrostApiKey this
  /\ (forall e, bech32Encoder this1 = FEncoder e ->
                bech32Encoder this2 = FEncoder e).
Proof.
  intros this1 this2.
  destruct (evolves_after_all fs loader _ _ lib (calls1 ++ calls2) this)
    as (Hn & Hu & Hk & _ & _).
  repeat split; auto.
  subst this1 this2; rewrite after_all_app.
  apply (evolves_after_all fs loader _ _ lib calls2).
Qed.

(** C7. When the reader returns a value and the encoder, given that value,
    returns a key, [onchainToOffchainPrivateKey] returns that key and
    leaves the instance as the encoder left it; a failure of either stage
    comes back with one more context on its message; and in all cases the
    method is the composition of the two. *)
Theorem onchainToOffchainPrivateKey_composition
  (fs : FileSystem) (loader : ModuleLoader) (keyPath : jsstring)
  (this : CardanoKeyConverter) :
  (forall cborHex key this',
      readPrivateKeyFile fs keyPath = Ok cborHex ->
      cborHexToLucidPrivateKey loader cborHex this = (Ok key, this') ->
      onchainToOffchainPrivateKey fs loader keyPath this = (Ok key, this'))
  /\ (forall e,
      readPrivateKeyFile fs keyPath = Throw e ->
      onchainToOffchainPrivateKey fs loader keyPath this
      = (Throw (rethrow msg_onchain e), this))
  /\ (forall cborHex e this',
      readPrivateKeyFile fs keyPath = Ok cborHex ->
      cborHexToLucidPrivateKey loader cborHex this = (Throw e, this') ->
      onchainToOffchainPrivateKey fs loader keyPath this
      = (Throw (rethrow msg_onchain e), this'))
  /\ onchainToOffchainPrivateKey fs loader keyPath this
     = reader_then_encoder fs loader keyPath this.
Proof.
  rewrite onchainToOffchainPrivateKey_unfold; unfold reader_then_encoder.
  repeat split.
  - intros cborHex key this' -> ->; reflexivity.
  - intros e ->; reflexivity.
  - intros cborHex e this' -> ->; reflexivity.
Qed.

(* ================================================================== *)
(** ** The statements on concrete files and inputs *)

(** C1. A file that holds the JSON number [1234]: the content parses, the
    value is no accepted shape, and the handler of the inner [try] catches
    the error raised for that and returns the content as raw hex. *)
Theorem readPrivateKeyFile_json_number_taken_as_hex :
  JSON_parse (str "1234") = Ok (JNumber 1234 0)
  /\ extract_from_json (str "1234") = Throw (new_Error msg_unable_to_extract)
  /\ readPrivateKeyFile (single_file key_path (str "1234")) key_path
     = Ok (JString (str "1234")).
Proof. repeat split; vm_compute; reflexivity. Qed.

(** The object of the repository's test, without [cborHex]: the same
    handler runs, and its message is the one the caller reads. *)
Lemma readPrivateKeyFile_foo_bar :
  readPrivateKeyFile
    (single_file key_path
       (str "{" ++ quoted (str "foo") ++ str ":" ++ quoted (str "bar")
        ++ str "}"))
    key_path
  = Throw UnrecognizedFormatError.
Proof. vm_compute; reflexivity. Qed.

(** C2, as the specification words it, does not hold: 64 characters that
    are no hexadecimal digits after the tag give an empty buffer, and the
    empty buffer is encoded. *)
Lemma cborHexToLucidPrivateKey_malformed_hex_encoded :
  startsWith (trim (tagged (repeat_str 32 (str "zz")))) (str "5820") = true
  /\ List.length (slice 4 (trim (tagged (repeat_str 32 (str "zz"))))) = 64%nat
  /\ forallb is_hex_digit (slice 4 (trim (tagged (repeat_str 32 (str "zz")))))
     = false
  /\ Buffer_from_hex (repeat_str 32 (str "zz")) = []
  /\ fst (cborHexToLucidPrivateKey node_modules
            (JString (tagged (repeat_str 32 (str "zz"))))
            (constructor default_config))
     = Ok (str "ed25519_sk1c9ks3q").
Proof. repeat split; vm_compute; reflexivity. Qed.

Lemma cborHexToLucidPrivateKey_any_payload_witness :
  startsWith (trim (tagged (repeat_str 32 (str "zz")))) (str "5820") = true
  /\ List.length (slice 4 (trim (tagged (repeat_str 32 (str "zz"))))) = 64%nat
  /\ load node_modules = Ok (FEncoder bech32)
  /\ settled node_modules (constructor default_config)
  /\ exists (words : list Z) (key : jsstring) (this' : CardanoKeyConverter),
      (List.length
         (Buffer_from_hex (slice 4 (trim (tagged (repeat_str 32 (str "zz"))))))
       <= 32)%nat
      /\ toWords bech32
           (Buffer_from_hex (slice 4 (trim (tagged (repeat_str 32 (str "zz"))))))
         = Ok words
      /\ encode bech32 (str "ed25519_sk") words = Ok key
      /\ cborHexToLucidPrivateKey node_modules
           (JString (tagged (repeat_str 32 (str "zz"))))
           (constructor default_config)
         = (Ok key, this')
      /\ startsWith key (str "ed25519_sk1") = true.
Proof.
  split; [reflexivity|]; split; [reflexivity|]; split; [reflexivity|].
  split; [left; reflexivity|].
  apply (cborHexToLucidPrivateKey_any_payload node_modules
           (constructor default_config)
           (tagged (repeat_str 32 (str "zz"))));
    [reflexivity | reflexivity | reflexivity | left; reflexivity].
Defined.

(** C3, as the specification words it, does not hold: a raw file of four
    hexadecimal digits is returned as it is, without tag and of the wrong
    length. *)
Lemma readPrivateKeyFile_returns_untagged_hex :
  readPrivateKeyFile (single_file key_path (str "abcd")) key_path
  = Ok (JString (str "abcd"))
  /\ CborHexString (str "abcd") = false.
Proof. split; vm_compute; reflexivity. Qed.

Lemma readPrivateKeyFile_returns_witness :
  readPrivateKeyFile (single_file key_path (str "abcd")) key_path
  = Ok (JString (str "abcd"))
  /\ exists fileContent,
      existsSync (single_file key_path (str "abcd")) key_path = true
      /\ readFileSync (single_file key_path (str "abcd")) key_path
         = Ok fileContent
      /\ ((exists fields, JSON_parse fileContent = Ok (JObject fields)
                          /\ lookup fields (str "cborHex")
                             = Some (JString (str "abcd"))
                          /\ truthy (JString (str "abcd")) = true)
          \/ (exists s, JSON_parse fileContent = Ok (JString s)
                        /\ s <> [] /\ JString (str "abcd") = JString s)
          \/ (JString (str "abcd") = JString (trim fileContent)
              /\ isValidHex (trim fileContent) = true)).
Proof.
  split; [vm_compute; reflexivity|].
  apply (readPrivateKeyFile_returns (single_file key_path (str "abcd"))
           key_path (JString (str "abcd"))).
  vm_compute; reflexivity.
Defined.

(** C4, as the specification words it, does not hold: an object whose
    [cborHex] member is the empty string is not answered with that
    member. *)
Lemma readPrivateKeyFile_empty_cborHex_member :
  existsSync (single_file key_path (cborHex_file [])) key_path = true
  /\ readFileSync (single_file key_path (cborHex_file [])) key_path
     = Ok (cborHex_file [])
  /\ JSON_parse (cborHex_file []) = Ok (JObject [(str "cborHex", JString [])])
  /\ lookup [(str "cborHex", JString [])] (str "cborHex") = Some (JString [])
  /\ readPrivateKeyFile (single_file key_path (cborHex_file [])) key_path
     = Throw UnrecognizedFormatError.
Proof. repeat split; vm_compute; reflexivity. Qed.

Lemma readPrivateKeyFile_cborHex_member_witness :
  existsSync
    (single_file key_path
       (skey_file (str "AnyOtherType") (tagged (repeat_str 32 (str "bb")))))
    key_path = true
  /\ readFileSync
       (single_file key_path
          (skey_file (str "AnyOtherType") (tagged (repeat_str 32 (str "bb")))))
       key_path
     = Ok (skey_file (str "AnyOtherType") (tagged (repeat_str 32 (str "bb"))))
  /\ JSON_parse
       (skey_file (str "AnyOtherType") (tagged (repeat_str 32 (str "bb"))))
     = Ok (JObject
             [(str "type", JString (str "AnyOtherType"));
              (str "cborHex", JString (tagged (repeat_str 32 (str "bb"))))])
  /\ readPrivateKeyFile
       (single_file key_path
          (skey_file (str "AnyOtherType") (tagged (repeat_str 32 (str "bb")))))
       key_path
     = Ok (JString (tagged (repeat_str 32 (str "bb")))).
Proof.
  split; [reflexivity|]; split; [reflexivity|].
  split; [vm_compute; reflexivity|].
  apply (readPrivateKeyFile_cborHex_member
           (single_file key_path
              (skey_file (str "AnyOtherType")
                         (tagged (repeat_str 32 (str "bb")))))
           key_path
           (skey_file (str "AnyOtherType") (tagged (repeat_str 32 (str "bb"))))
           [(str "type", JString (str "AnyOtherType"));
            (str "cborHex", JString (tagged (repeat_str 32 (str "bb"))))]);
    vm_compute; reflexivity.
Defined.

Lemma cborHexToLucidPrivateKey_tagged_hex_witness :
  List.length (repeat_str 32 (str "aa")) = 64%nat
  /\ forallb is_hex_digit (repeat_str 32 (str "aa")) = true
  /\ load node_modules = Ok (FEncoder bech32)
  /\ exists key : jsstring,
      startsWith key (str "ed25519_sk") = true
      /\ (forall this, settled node_modules this ->
            exists this',
              cborHexToLucidPrivateKey node_modules
                (JString (tagged (repeat_str 32 (str "aa")))) this
              = (Ok key, this')
              /\ bech32Encoder this' = FEncoder bech32
              /\ settled node_modules this')
      /\ (forall (fs : FileSystem) (LucidEvolution UTxO : Type)
                 (lib : LucidLib LucidEvolution UTxO)
                 (config : CardanoConfig) (calls : list Call),
            fst (cborHexToLucidPrivateKey node_modules
                   (JString (tagged (repeat_str 32 (str "aa"))))
                   (after_all fs node_modules LucidEvolution UTxO lib calls
                              (constructor config)))
            = Ok key).
Proof.
  split; [reflexivity|]; split; [reflexivity|]; split; [reflexivity|].
  apply (cborHexToLucidPrivateKey_tagged_hex node_modules
           (repeat_str 32 (str "aa"))); reflexivity.
Defined.

Lemma links_bech32_node_modules (config : CardanoConfig) :
  links_bech32 node_modules (constructor config).
Proof.
  split; [intros e [= <-]; reflexivity | discriminate].
Defined.

Lemma cborHexToLucidPrivateKey_checks_witness :
  links_bech32 node_modules (constructor preprod_config)
  /\ fst (cborHexToLucidPrivateKey node_modules
            (JString (tagged (repeat_str 4 (str "aa"))))
            (constructor preprod_config))
     = Throw (InvalidLengthError 8)
  /\ message (InvalidLengthError 8)
     = str "Error converting CBOR hex to Lucid private key: Invalid private key length: expected 64 characters, got 8".
Proof.
  split; [apply links_bech32_node_modules|].
  split; [|reflexivity].
  destruct (cborHexToLucidPrivateKey_checks node_modules
              (constructor preprod_config)
              (JString (tagged (repeat_str 4 (str "aa"))))
              (links_bech32_node_modules preprod_config))
    as (_ & Hchecks & _).
  destruct (Hchecks (tagged (repeat_str 4 (str "aa"))) eq_refl)
    as (_ & Hlength); [discriminate|].
  apply (Hlength eq_refl); discriminate.
Defined.

Lemma onchainToOffchainPrivateKey_composition_witness :
  readPrivateKeyFile
    (single_file key_path (cborHex_file (tagged (repeat_str 32 (str "ee")))))
    key_path
  = Ok (JString (tagged (repeat_str 32 (str "ee"))))
  /\ cborHexToLucidPrivateKey node_modules
       (JString (tagged (repeat_str 32 (str "ee"))))
       (constructor preprod_config)
     = (Ok (str "ed25519_sk1amhwamhwamhwamhwamhwamhwamhwamhwamhwamhwamhwamhwamhq7ukhat"),
        set_bech32Encoder (FEncoder bech32) (constructor preprod_config))
  /\ onchainToOffchainPrivateKey
       (single_file key_path (cborHex_file (tagged (repeat_str 32 (str "ee")))))
       node_modules key_path (constructor preprod_config)
     = (Ok (str "ed25519_sk1amhwamhwamhwamhwamhwamhwamhwamhwamhwamhwamhwamhwamhq7ukhat"),
        set_bech32Encoder (FEncoder bech32) (constructor preprod_config)).
Proof.
  assert (Hread :
    readPrivateKeyFile
      (single_file key_path (cborHex_file (tagged (repeat_str 32 (str "ee")))))
      key_path
    = Ok (JString (tagged (repeat_str 32 (str "ee")))))
    by (vm_compute; reflexivity).
  assert (Hkey :
    cborHexToLucidPrivateKey node_modules
      (JString (tagged (repeat_str 32 (str "ee"))))
      (constructor preprod_config)
    = (Ok (str "ed25519_sk1amhwamhwamhwamhwamhwamhwamhwamhwamhwamhwamhwamhwamhq7ukhat"),
       set_bech32Encoder (FEncoder bech32) (constructor preprod_config))).
  { apply injective_projections; cbn [fst snd];
      [vm_compute; reflexivity | reflexivity]. }
  split; [exact Hread|]; split; [exact Hkey|].
  exact (proj1 (onchainToOffchainPrivateKey_composition
                  (single_file key_path
                     (cborHex_file (tagged (repeat_str 32 (str "ee")))))
                  node_modules key_path (constructor preprod_config))
               _ _ _ Hread Hkey).
Defined.

Lemma readPrivateKeyFile_missing_file_witness :
  existsSync no_files (str "/missing.key") = false
  /\ readPrivateKeyFile no_files (str "/missing.key")
     = Throw (FileNotFoundError (str "/missing.key"))
  /\ message (FileNotFoundError (str "/missing.key"))
     = str "Error reading private key file: Private key file not found at path: /missing.key"
  /\ includes (message (FileNotFoundError (str "/missing.key")))
              (str "/missing.key") = true.
Proof.
  split; [reflexivity|].
  destruct (readPrivateKeyFile_missing_file no_files (str "/missing.key")
              eq_refl) as (Hthrow & Hmsg & Hinc).
  repeat split; assumption.
Defined.

Lemma configuration_and_encoder_frame_witness :
  bech32Encoder
    (after_all no_files node_modules unit unit offline_lib
       [CallCborHexToLucidPrivateKey
          (JString (tagged (repeat_str 32 (str "aa"))))]
       (constructor preprod_config))
  = FEncoder bech32
  /\ bech32Encoder
       (after_all no_files node_modules unit unit offline_lib
          ([CallCborHexToLucidPrivateKey
              (JString (tagged (repeat_str 32 (str "aa"))))]
           ++ [CallOnchainToOffchainPrivateKey (str "/missing.key");
               CallGetWalletAddress key_path;
               CallCborHexToLucidPrivateKey JUndefined])
          (constructor preprod_config))
     = FEncoder bech32
  /\ network
       (after_all no_files node_modules unit unit offline_lib
          ([CallCborHexToLucidPrivateKey
              (JString (tagged (repeat_str 32 (str "aa"))))]
           ++ [CallOnchainToOffchainPrivateKey (str "/missing.key");
               CallGetWalletAddress key_path;
               CallCborHexToLucidPrivateKey JUndefined])
          (constructor preprod_config))
     = Preprod.
Proof.
  assert (Hset :
    bech32Encoder
      (after_all no_files node_modules unit unit offline_lib
         [CallCborHexToLucidPrivateKey
            (JString (tagged (repeat_str 32 (str "aa"))))]
         (constructor preprod_config))
    = FEncoder bech32) by reflexivity.
  destruct (configuration_and_encoder_frame no_files node_modules unit unit
              offline_lib (constructor preprod_config)
              [CallCborHexToLucidPrivateKey
                 (JString (tagged (repeat_str 32 (str "aa"))))]
              [CallOnchainToOffchainPrivateKey (str "/missing.key");
               CallGetWalletAddress key_path;
               CallCborHexToLucidPrivateKey JUndefined])
    as (Hn & _ & _ & Hstay).
  split; [exact Hset|]; split; [exact (Hstay bech32 Hset) | exact Hn].
Defined.

(* ================================================================== *)
(** ** More on the key file reader *)

Lemma trimStart_head (s : jsstring) :
  match trimStart s with
  | [] => True
  | c :: _ => is_js_space c = false
  end.
Proof.
  induction s as [|c s IH]; simpl; [exact I|].
  destruct (is_js_space c) eqn:Hc; [exact IH | exact Hc].
Qed.

Lemma trimStart_suffix (s : jsstring) : exists pre, s = pre ++ trimStart s.
Proof.
  induction s as [|c s [pre IH]]; [exists []; reflexivity|].
  cbn [trimStart]; destruct (is_js_space c).
  - exists (c :: pre); simpl; now rewrite <- IH.
  - exists []; reflexivity.
Qed.

(** A trimmed string is empty or starts and ends with characters that are
    no white space. *)
Lemma trim_ends (s : jsstring) :
  trim s = []
  \/ exists c p d back,
       trim s = c :: p /\ rev (trim s) = d :: back
       /\ is_js_space c = false /\ is_js_space d = false.
Proof.
  unfold trim.
  pose proof (trimStart_head (rev (trimStart s))) as Hd.
  destruct (trimStart_suffix (rev (trimStart s))) as [pre Hpre].
  destruct (trimStart (rev (trimStart s))) as [|d back] eqn:Hu; [now left|].
  right.
  pose proof (trimStart_head s) as Hc.
  apply (f_equal (@rev N)) in Hpre; rewrite rev_involutive, rev_app_distr in Hpre.
  destruct (rev (d :: back)) as [|c p] eqn:Hr.
  { apply (f_equal (@List.length N)) in Hr; rewrite length_rev in Hr.
    discriminate. }
  rewrite Hpre in Hc; cbn [app] in Hc.
  exists c, p, d, back; repeat split; auto.
  rewrite <- Hr; apply rev_involutive.
Qed.

Lemma trim_idempotent (s : jsstring) : trim (trim s) = trim s.
Proof.
  destruct (trim_ends s) as [->|(c & p & d & back & Ht & Hr & Hc & Hd)];
    [reflexivity|].
  eapply trim_fixed; eassumption.
Qed.

Lemma trim_hex (s : jsstring) :
  forallb is_hex_digit s = true -> trim s = s.
Proof.
  intros Hh; destruct s as [|c p]; [reflexivity|].
  destruct (rev (c :: p)) as [|d back] eqn:Hr.
  { apply (f_equal (@List.length N)) in Hr; rewrite length_rev in Hr.
    discriminate. }
  rewrite forallb_forall in Hh.
  eapply trim_fixed; [reflexivity | exact Hr | |];
    apply hex_digit_not_space, Hh; [now left|].
  apply in_rev; rewrite Hr; now left.
Qed.

Lemma extract_from_json_shape (fileContent : jsstring) :
  match extract_from_json fileContent with
  | Ok v =>
      exists keyData, JSON_parse fileContent = Ok keyData
                      /\ accepted_shape keyData = Some v
  | Throw _ =>
      match JSON_parse fileContent with
      | Ok keyData => accepted_shape keyData = None
      | Throw _ => True
      end
  end.
Proof.
  unfold extract_from_json.
  destruct (JSON_parse fileContent) as [keyData|e]; simpl; [|exact I].
  destruct keyData as [| |b|m e|s|xs|fields]; simpl; auto.
  - destruct s as [|c s]; simpl; eauto.
  - destruct (lookup fields (str "cborHex")) as [x|] eqn:Hl; simpl.
    + destruct (truthy x) eqn:Ht.
      * exists (JObject fields); simpl; now rewrite Hl, Ht.
      * destruct (lookup fields (str "type")) as [t|]; simpl;
          rewrite ?andb_false_r; simpl; now rewrite ?Hl, ?Ht.
    + destruct (lookup fields (str "type")) as [t|]; simpl;
        rewrite ?andb_false_r; simpl; now rewrite ?Hl.
Qed.

Lemma readPrivateKeyFile_table (fs : FileSystem)
  (keyPath fileContent : jsstring) :
  existsSync fs keyPath = true ->
  readFileSync fs keyPath = Ok fileContent ->
  readPrivateKeyFile fs keyPath = reader_table fileContent.
Proof.
  intros Hex Hrd; rewrite (readPrivateKeyFile_readable fs _ _ Hex Hrd).
  unfold reader_table.
  pose proof (extract_from_json_shape fileContent) as H.
  destruct (extract_from_json fileContent) as [v|e].
  - destruct H as (keyData & -> & ->); reflexivity.
  - destruct (JSON_parse fileContent) as [keyData|e']; [now rewrite H|].
    reflexivity.
Qed.

Lemma hex_content_no_shape (fileContent : jsstring) (keyData : JSValue) :
  JSON_parse fileContent = Ok keyData ->
  isValidHex (trim fileContent) = true ->
  accepted_shape keyData = None.
Proof.
  intros Hp Hh.
  destruct (JSON_parse_hex_is_number _ _ Hp Hh) as (m & e & ->); reflexivity.
Qed.

(** X1. A readable file whose trimmed content is a non-empty run of
    hexadecimal digits of even length is answered with that trimmed
    content, whether or not the content also parses as JSON. *)
Theorem readPrivateKeyFile_hex_content (fs : FileSystem)
  (keyPath fileContent : jsstring) :
  existsSync fs keyPath = true ->
  readFileSync fs keyPath = Ok fileContent ->
  isValidHex (trim fileContent) = true ->
  readPrivateKeyFile fs keyPath = Ok (JString (trim fileContent)).
Proof.
  intros Hex Hrd Hh.
  rewrite (readPrivateKeyFile_table fs _ _ Hex Hrd); unfold reader_table.
  destruct (JSON_parse fileContent) as [keyData|e] eqn:Hp.
  - now rewrite (hex_content_no_shape _ _ Hp Hh), Hh.
  - now rewrite Hh.
Qed.

Lemma readPrivateKeyFile_hex_content_witness :
  existsSync (single_file key_path
                (str "  " ++ tagged (repeat_str 32 (str "dd")) ++ [10%N]))
             key_path = true
  /\ isValidHex
       (trim (str "  " ++ tagged (repeat_str 32 (str "dd")) ++ [10%N]))
     = true
  /\ readPrivateKeyFile
       (single_file key_path
          (str "  " ++ tagged (repeat_str 32 (str "dd")) ++ [10%N]))
       key_path
     = Ok (JString (tagged (repeat_str 32 (str "dd")))).
Proof.
  split; [reflexivity|]; split; [vm_compute; reflexivity|].
  rewrite (readPrivateKeyFile_hex_content
             (single_file key_path
                (str "  " ++ tagged (repeat_str 32 (str "dd")) ++ [10%N]))
             key_path
             (str "  " ++ tagged (repeat_str 32 (str "dd")) ++ [10%N]));
    vm_compute; reflexivity.
Defined.



(** X3. On a readable file [readPrivateKeyFile] is this table: the truthy
    [cborHex] member if the content parses to an object that has one; the
    parsed value if it is a non-empty string, untrimmed and unchecked; in
    every other case, a parse failure included, the trimmed content if it
    is a hexadecimal string, and the unrecognised-format error if not. *)
Theorem readPrivateKeyFile_decision_table (fs : FileSystem)
  (keyPath fileContent : jsstring) :
  existsSync fs keyPath = true ->
  readFileSync fs keyPath = Ok fileContent ->
  readPrivateKeyFile fs keyPath =
    match
      match JSON_parse fileContent with
      | Ok (JObject fields) =>
          match lookup fields (str "cborHex") with
          | Some v => if truthy v then Some v else None
          | None => None
          end
      | Ok (JString (c :: s)) => Some (JString (c :: s))
      | _ => None
      end
    with
    | Some v => Ok v
    | None =>
        if isValidHex (trim fileContent) then Ok (JString (trim fileContent))
        else Throw (new_Error
                      (str "Error reading private key file: File content is neither valid JSON nor valid hex string"))
    end.
Proof.
  intros Hex Hrd; rewrite (readPrivateKeyFile_table fs _ _ Hex Hrd).
  unfold reader_table, accepted_shape.
  destruct (JSON_parse fileContent) as [[| |b|m e|[|c s]|xs|fields]|e];
    reflexivity.
Qed.

Lemma readPrivateKeyFile_decision_table_witness :
  existsSync (single_file key_path (quoted (str " 5820 zz "))) key_path = true
  /\ readFileSync (single_file key_path (quoted (str " 5820 zz "))) key_path
     = Ok (quoted (str " 5820 zz "))
  /\ readPrivateKeyFile (single_file key_path (quoted (str " 5820 zz ")))
                        key_path
     = Ok (JString (str " 5820 zz ")).
Proof.
  split; [reflexivity|]; split; [reflexivity|].
  rewrite (readPrivateKeyFile_decision_table
             (single_file key_path (quoted (str " 5820 zz ")))
             key_path (quoted (str " 5820 zz ")));
    vm_compute; reflexivity.
Defined.

(** X4. For two readable files that parse to JSON objects, the result, value
    or error, depends on the [cborHex] member alone: the [type] member and
    every other member are ignored. *)
Theorem readPrivateKeyFile_object_members
  (fs1 fs2 : FileSystem) (path1 path2 content1 content2 : jsstring)
  (fields1 fields2 : list (jsstring * JSValue)) :
  existsSync fs1 path1 = true -> readFileSync fs1 path1 = Ok content1 ->
  existsSync fs2 path2 = true -> readFileSync fs2 path2 = Ok content2 ->
  JSON_parse content1 = Ok (JObject fields1) ->
  JSON_parse content2 = Ok (JObject fields2) ->
  lookup fields1 (str "cborHex") = lookup fields2 (str "cborHex") ->
  readPrivateKeyFile fs1 path1 = readPrivateKeyFile fs2 path2.
Proof.
  intros Hex1 Hrd1 Hex2 Hrd2 Hp1 Hp2 Hl.
  rewrite (readPrivateKeyFile_table fs1 _ _ Hex1 Hrd1).
  rewrite (readPrivateKeyFile_table fs2 _ _ Hex2 Hrd2).
  unfold reader_table; rewrite Hp1, Hp2; cbn [accepted_shape]; rewrite Hl.
  destruct (match lookup fields2 (str "cborHex") with
            | Some v => if truthy v then Some v else None
            | None => None
            end) as [v|] eqn:Hs; [reflexivity|].
  assert (H1 : isValidHex (trim content1) = false).
  { destruct (isValidHex (trim content1)) eqn:Hh; [|reflexivity].
    destruct (JSON_parse_hex_is_number _ _ Hp1 Hh) as (m & e & Hm).
    discriminate. }
  assert (H2 : isValidHex (trim content2) = false).
  { destruct (isValidHex (trim content2)) eqn:Hh; [|reflexivity].
    destruct (JSON_parse_hex_is_number _ _ Hp2 Hh) as (m & e & Hm).
    discriminate. }
  now rewrite H1, H2.
Qed.

Lemma readPrivateKeyFile_object_members_witness :
  JSON_parse (cborHex_file (str "5820"))
  = Ok (JObject [(str "cborHex", JString (str "5820"))])
  /\ JSON_parse (skey_file (str "StakeSigningKeyShelley_ed25519") (str "5820"))
     = Ok (JObject [(str "type", JString (str "StakeSigningKeyShelley_ed25519"));
                    (str "cborHex", JString (str "5820"))])
  /\ readPrivateKeyFile (single_file key_path (cborHex_file (str "5820")))
                        key_path
     = readPrivateKeyFile
         (single_file (str "/stake.skey")
            (skey_file (str "StakeSigningKeyShelley_ed25519") (str "5820")))
         (str "/stake.skey").
Proof.
  split; [vm_compute; reflexivity|]; split; [vm_compute; reflexivity|].
  apply (readPrivateKeyFile_object_members
           (single_file key_path (cborHex_file (str "5820")))
           (single_file (str "/stake.skey")
              (skey_file (str "StakeSigningKeyShelley_ed25519") (str "5820")))
           key_path (str "/stake.skey")
           (cborHex_file (str "5820"))
           (skey_file (str "StakeSigningKeyShelley_ed25519") (str "5820"))
           [(str "cborHex", JString (str "5820"))]
           [(str "type", JString (str "StakeSigningKeyShelley_ed25519"));
            (str "cborHex", JString (str "5820"))]);
    vm_compute; reflexivity.
Defined.

(* ================================================================== *)
(** ** The accepted file formats *)

Lemma hex_digit_plain (c : N) : is_hex_digit c = true -> plain_char c = true.
Proof.
  unfold is_hex_digit, plain_char; intros H.
  repeat rewrite ?orb_true_iff, ?andb_true_iff, ?N.leb_le in H.
  repeat rewrite ?andb_true_iff, ?negb_true_iff, ?N.eqb_neq, ?N.ltb_ge.
  lia.
Qed.

Lemma hex_digits_plain (s : jsstring) :
  forallb is_hex_digit s = true -> forallb plain_char s = true.
Proof.
  rewrite !forallb_forall; intros H c Hc; apply hex_digit_plain; auto.
Qed.

(** A run of plain characters up to a quote is read as it is. *)
Lemma parse_string_body_plain (s : jsstring) :
  forall acc rest : jsstring,
    forallb plain_char s = true ->
    parse_string_body (s ++ 34%N :: rest) acc = Some (rev acc ++ s, rest).
Proof.
  induction s as [|c s IH]; intros acc rest Hp.
  - cbn [app parse_string_body]; rewrite N.eqb_refl, app_nil_r; reflexivity.
  - cbn [forallb] in Hp; apply andb_prop in Hp as [Hc Hs].
    unfold plain_char in Hc.
    repeat rewrite ?andb_true_iff, ?negb_true_iff in Hc.
    destruct Hc as [[H34 H92] H32].
    cbn [app parse_string_body]; rewrite H34, H92, H32, (IH _ _ Hs).
    cbn [rev]; now rewrite <- app_assoc.
Qed.

Lemma JSON_parse_quoted (s : jsstring) :
  forallb plain_char s = true ->
  JSON_parse (quoted s) = Ok (JString s).
Proof.
  intros Hp; unfold JSON_parse, parse_fuel, quoted, dquote.
  cbn [parse_value skip_ws]; change (is_json_ws 34) with false; cbv iota.
  change ((34 =? 123)%N) with false; change ((34 =? 91)%N) with false.
  change ((34 =? 34)%N) with true; cbv iota.
  rewrite (parse_string_body_plain s [] [] Hp); reflexivity.
Qed.

Lemma parse_value_cborHex_file (s : jsstring) (fuel : nat) :
  forallb plain_char s = true ->
  parse_value (S (S (S fuel))) (cborHex_file s)
  = Accept (JObject [(str "cborHex", JString s)]) [].
Proof.
  intros Hp.
  replace (cborHex_file s)
    with (123%N :: 34%N :: str "cborHex"
          ++ 34%N :: 58%N :: 34%N :: s ++ 34%N :: [125%N]).
  2:{ unfold cborHex_file, quoted, dquote; cbn [str map list_ascii_of_string app].
      now rewrite <- !app_assoc. }
  cbn; rewrite (parse_string_body_plain s _ _ Hp); reflexivity.
Qed.

Lemma parse_value_skey_file (s : jsstring) (fuel : nat) :
  forallb plain_char s = true ->
  parse_value (S (S (S (S fuel))))
    (skey_file (str "PaymentSigningKeyShelley_ed25519") s)
  = Accept
      (JObject [(str "type", JString (str "PaymentSigningKeyShelley_ed25519"));
                (str "cborHex", JString s)]) [].
Proof.
  intros Hp.
  replace (skey_file (str "PaymentSigningKeyShelley_ed25519") s)
    with (123%N :: 34%N :: str "type"
          ++ 34%N :: 58%N :: 32%N :: 34%N
             :: str "PaymentSigningKeyShelley_ed25519"
          ++ 34%N :: 44%N :: 32%N :: 34%N :: str "cborHex"
          ++ 34%N :: 58%N :: 32%N :: 34%N :: s ++ 34%N :: [125%N]).
  2:{ unfold skey_file, quoted, dquote; cbn [str map list_ascii_of_string app].
      now rewrite <- !app_assoc. }
  cbn; rewrite (parse_string_body_plain s _ _ Hp); reflexivity.
Qed.

Lemma JSON_parse_cborHex_file (s : jsstring) :
  forallb plain_char s = true ->
  JSON_parse (cborHex_file s) = Ok (JObject [(str "cborHex", JString s)]).
Proof.
  intros Hp; unfold JSON_parse, parse_fuel.
  replace (2 * List.length (cborHex_file s))%nat
    with (S (S (2 * List.length (cborHex_file s) - 2))).
  2:{ unfold cborHex_file; rewrite length_app; cbn [List.length str map
        list_ascii_of_string]; lia. }
  now rewrite (parse_value_cborHex_file s _ Hp).
Qed.

Lemma JSON_parse_skey_file (s : jsstring) :
  forallb plain_char s = true ->
  JSON_parse (skey_file (str "PaymentSigningKeyShelley_ed25519") s)
  = Ok (JObject [(str "type", JString (str "PaymentSigningKeyShelley_ed25519"));
                 (str "cborHex", JString s)]).
Proof.
  intros Hp; unfold JSON_parse, parse_fuel.
  replace (2 * List.length
                 (skey_file (str "PaymentSigningKeyShelley_ed25519") s))%nat
    with (S (S (S (2 * List.length
                         (skey_file (str "PaymentSigningKeyShelley_ed25519") s)
                   - 3)))).
  2:{ unfold skey_file; rewrite !length_app; cbn [List.length str map
        list_ascii_of_string]; lia. }
  now rewrite (parse_value_skey_file s _ Hp).
Qed.

(** X5. The four accepted formats agree.  For a non-empty hexadecimal string
    of even length, a readable file that holds the string as raw text, as
    a quoted JSON string, as the object with the single member [cborHex],
    or as the key file of the command-line tooling (members [type] and
    [cborHex]) is answered with that same string. *)
Theorem readPrivateKeyFile_formats_agree (fs : FileSystem)
  (keyPath fileContent hex : jsstring) :
  existsSync fs keyPath = true ->
  readFileSync fs keyPath = Ok fileContent ->
  isValidHex hex = true ->
  fileContent = hex
  \/ fileContent = quoted hex
  \/ fileContent = cborHex_file hex
  \/ fileContent = skey_file (str "PaymentSigningKeyShelley_ed25519") hex ->
  readPrivateKeyFile fs keyPath = Ok (JString hex).
Proof.
  intros Hex Hrd Hv Hc.
  pose proof (isValidHex_digits _ Hv) as Hd.
  pose proof (hex_digits_plain _ Hd) as Hp.
  assert (Hne : exists c s, hex = c :: s)
    by (destruct hex as [|c s]; [discriminate | eauto]).
  rewrite (readPrivateKeyFile_table fs _ _ Hex Hrd); unfold reader_table.
  destruct Hc as [->|[->|[->| ->]]].
  - rewrite (trim_hex _ Hd), Hv.
    destruct (JSON_parse hex) as [keyData|e] eqn:Hj; [|reflexivity].
    rewrite (hex_content_no_shape hex keyData Hj); [reflexivity|].
    now rewrite (trim_hex _ Hd).
  - rewrite (JSON_parse_quoted _ Hp).
    destruct Hne as (c & s & ->); reflexivity.
  - rewrite (JSON_parse_cborHex_file _ Hp).
    destruct Hne as (c & s & ->); reflexivity.
  - rewrite (JSON_parse_skey_file _ Hp).
    destruct Hne as (c & s & ->); reflexivity.
Qed.

Lemma readPrivateKeyFile_formats_agree_witness :
  isValidHex (tagged (repeat_str 32 (str "cc"))) = true
  /\ readPrivateKeyFile
       (single_file key_path (quoted (tagged (repeat_str 32 (str "cc")))))
       key_path
     = Ok (JString (tagged (repeat_str 32 (str "cc")))).
Proof.
  split; [vm_compute; reflexivity|].
  apply (readPrivateKeyFile_formats_agree
           (single_file key_path (quoted (tagged (repeat_str 32 (str "cc")))))
           key_path (quoted (tagged (repeat_str 32 (str "cc"))))
           (tagged (repeat_str 32 (str "cc"))));
    [reflexivity | reflexivity | vm_compute; reflexivity | right; left;
     reflexivity].
Defined.

(* ================================================================== *)
(** ** [isValidHex] and the decoding of [Buffer.from] *)

Lemma unhex_hex_digit (c : N) :
  is_hex_digit c = true -> exists z, unhex c = Some z /\ (0 <= z < 16)%Z.
Proof.
  unfold is_hex_digit, unhex; intros H.
  repeat rewrite ?orb_true_iff, ?andb_true_iff, ?N.leb_le in H.
  assert (Hm : (c mod 256 = c)%N) by (apply N.mod_small; lia).
  rewrite Hm.
  destruct ((48 <=? c) && (c <=? 57))%N eqn:H1.
  { apply andb_prop in H1 as [Ha Hb]; apply N.leb_le in Ha, Hb.
    eexists; split; [reflexivity | lia]. }
  destruct ((97 <=? c) && (c <=? 102))%N eqn:H2.
  { apply andb_prop in H2 as [Ha Hb]; apply N.leb_le in Ha, Hb.
    eexists; split; [reflexivity | lia]. }
  destruct ((65 <=? c) && (c <=? 70))%N eqn:H3.
  { apply andb_prop in H3 as [Ha Hb]; apply N.leb_le in Ha, Hb.
    eexists; split; [reflexivity | lia]. }
  exfalso.
  rewrite andb_false_iff, !N.leb_gt in H1, H2, H3; lia.
Qed.

Lemma nibbles_byte (hi lo : Z) :
  (0 <= hi < 16)%Z -> (0 <= lo < 16)%Z ->
  is_byte (Z.lor (Z.shiftl hi 4) lo)
  /\ Z.lor (Z.shiftl hi 4) lo = (16 * hi + lo)%Z.
Proof.
  intros Hh Hl.
  assert (Ehi : In hi [0;1;2;3;4;5;6;7;8;9;10;11;12;13;14;15]%Z)
    by (simpl; lia).
  assert (Elo : In lo [0;1;2;3;4;5;6;7;8;9;10;11;12;13;14;15]%Z)
    by (simpl; lia).
  unfold is_byte.
  repeat (destruct Ehi as [<-|Ehi]; [|]); try contradiction;
    repeat (destruct Elo as [<-|Elo]; [|]); try contradiction;
    vm_compute; intuition discriminate.
Qed.

Lemma hex_decode_digits (n : nat) :
  forall s : jsstring,
    (List.length s <= n)%nat ->
    forallb is_hex_digit s = true ->
    Nat.even (List.length s) = true ->
    (2 * List.length (hex_decode s) = List.length s)%nat
    /\ Forall is_byte (hex_decode s).
Proof.
  induction n as [|n IH]; intros s Hn Hd He.
  - destruct s; [split; [reflexivity | constructor] | simpl in Hn; lia].
  - destruct s as [|a [|b rest]]; [split; [reflexivity | constructor]
                                  | discriminate |].
    cbn [forallb] in Hd.
    apply andb_prop in Hd as [Ha Hd]; apply andb_prop in Hd as [Hb Hd].
    destruct (unhex_hex_digit a Ha) as (x & Hx & Rx).
    destruct (unhex_hex_digit b Hb) as (y & Hy & Ry).
    cbn [hex_decode]; rewrite Hx, Hy.
    destruct (IH rest) as [Hl Hf]; [simpl in Hn; lia | exact Hd | exact He |].
    split; [cbn [List.length]; lia|].
    constructor; [apply (nibbles_byte x y Rx Ry) | exact Hf].
Qed.

(** X6. What [isValidHex] accepts, [Buffer.from] decodes completely: one
    byte for every two characters, none dropped, each between 0 and 255. *)
Theorem isValidHex_decodes_fully (hex : jsstring) :
  isValidHex hex = true ->
  (2 * List.length (Buffer_from_hex hex) = List.length hex)%nat
  /\ Forall is_byte (Buffer_from_hex hex).
Proof.
  intros Hv; pose proof (isValidHex_digits _ Hv) as Hd.
  unfold isValidHex in Hv; apply andb_prop in Hv as [_ He].
  apply Nat.eqb_eq in He.
  apply (hex_decode_digits (List.length hex)); auto.
  apply Nat.even_spec; exists (List.length hex / 2)%nat.
  pose proof (Nat.div_mod_eq (List.length hex) 2); lia.
Qed.

Lemma isValidHex_decodes_fully_witness :
  isValidHex (str "5820aBcD") = true
  /\ (2 * List.length (Buffer_from_hex (str "5820aBcD"))
      = List.length (str "5820aBcD"))%nat
  /\ Forall is_byte (Buffer_from_hex (str "5820aBcD")).
Proof.
  split; [reflexivity|].
  apply (isValidHex_decodes_fully (str "5820aBcD")); reflexivity.
Defined.

(* ================================================================== *)
(** ** More on the key encoder *)

(** X7. White space around the input does not matter: when the trimmed
    text is not empty, [cborHexToLucidPrivateKey] gives for a string what it
    gives for the trimmed string, result and instance alike. *)
Theorem cborHexToLucidPrivateKey_ignores_surrounding_space
  (loader : ModuleLoader) (this : CardanoKeyConverter) (s : jsstring) :
  trim s <> [] ->
  cborHexToLucidPrivateKey loader (JString s) this
  = cborHexToLucidPrivateKey loader (JString (trim s)) this.
Proof.
  intros Ht.
  pose proof (trim_idempotent s) as Hi.
  destruct s as [|c s]; [now elim Ht|].
  destruct (trim (c :: s)) as [|t0 t] eqn:Heq; [now elim Ht|].
  unfold cborHexToLucidPrivateKey.
  cbn [truthy typeof_string string_of negb orb].
  now rewrite Hi, Heq.
Qed.

Lemma cborHexToLucidPrivateKey_ignores_surrounding_space_witness :
  trim (str "  5820zz ") <> []
  /\ cborHexToLucidPrivateKey node_modules (JString (str "  5820zz "))
       (constructor default_config)
     = cborHexToLucidPrivateKey node_modules (JString (trim (str "  5820zz ")))
         (constructor default_config).
Proof.
  split; [discriminate|].
  apply (cborHexToLucidPrivateKey_ignores_surrounding_space node_modules
           (constructor default_config) (str "  5820zz ")).
  discriminate.
Defined.

Lemma unhex_toLowerCase (c : N) :
  unhex (if ((65 <=? c) && (c <=? 90))%N then (c + 32)%N else c) = unhex c.
Proof.
  destruct ((65 <=? c) && (c <=? 90))%N eqn:Hc; [|reflexivity].
  apply andb_prop in Hc as [Ha Hb]; apply N.leb_le in Ha, Hb.
  unfold unhex.
  rewrite (N.mod_small c 256), (N.mod_small (c + 32) 256) by lia.
  repeat match goal with
         | |- context [(?a <=? ?b)%N] => destruct (N.leb_spec a b)
         end; cbn [andb]; try lia; try reflexivity; f_equal; lia.
Qed.

(** The decoding does not depend on the case of the letters. *)
Lemma hex_decode_toLowerCase (n : nat) :
  forall s : jsstring,
    (List.length s <= n)%nat ->
    hex_decode (Bech32.toLowerCase s) = hex_decode s.
Proof.
  induction n as [|n IH]; intros s Hn.
  - destruct s; [reflexivity | simpl in Hn; lia].
  - destruct s as [|a [|b rest]]; try reflexivity.
    unfold Bech32.toLowerCase in *; cbn [map hex_decode].
    rewrite !unhex_toLowerCase, IH by (simpl in Hn; lia).
    reflexivity.
Qed.

Lemma toLowerCase_hex_digits (s : jsstring) :
  forallb is_hex_digit s = true ->
  forallb is_hex_digit (Bech32.toLowerCase s) = true.
Proof.
  unfold Bech32.toLowerCase.
  induction s as [|c s IH]; cbn [map forallb]; [reflexivity|].
  intros H; apply andb_prop in H as [Hc Hs]; rewrite (IH Hs), andb_true_r.
  destruct ((65 <=? c) && (c <=? 90))%N eqn:Hr; [|exact Hc].
  apply andb_prop in Hr as [Ha Hb]; apply N.leb_le in Ha, Hb.
  unfold is_hex_digit in *.
  repeat rewrite ?orb_true_iff, ?andb_true_iff, ?N.leb_le in Hc.
  repeat rewrite ?orb_true_iff, ?andb_true_iff, ?N.leb_le.
  lia.
Qed.

Lemma cborHexToLucidPrivateKey_tagged (loader : ModuleLoader)
  (this : CardanoKeyConverter) (hex : jsstring) :
  List.length hex = 64%nat ->
  forallb is_hex_digit hex = true ->
  cborHexToLucidPrivateKey loader (JString (tagged hex)) this
  = encode_stage loader hex this.
Proof.
  intros Hl Hh.
  assert (Htrim : trim (tagged hex) = tagged hex) by now apply trim_tagged.
  rewrite cborHexToLucidPrivateKey_encodes; rewrite ?Htrim; auto;
    try discriminate; try apply startsWith_app.
Qed.

(** X8. The case of the hexadecimal letters does not matter: two payloads
    of 64 hexadecimal digits that are equal up to the case of their
    letters give the same result and leave the same instance. *)
Theorem cborHexToLucidPrivateKey_hex_case
  (loader : ModuleLoader) (this : CardanoKeyConverter) (hex1 hex2 : jsstring) :
  List.length hex1 = 64%nat -> forallb is_hex_digit hex1 = true ->
  List.length hex2 = 64%nat -> forallb is_hex_digit hex2 = true ->
  Bech32.toLowerCase hex1 = Bech32.toLowerCase hex2 ->
  cborHexToLucidPrivateKey loader (JString (tagged hex1)) this
  = cborHexToLucidPrivateKey loader (JString (tagged hex2)) this.
Proof.
  intros Hl1 Hh1 Hl2 Hh2 Hlow.
  rewrite !cborHexToLucidPrivateKey_tagged by assumption.
  unfold encode_stage, Buffer_from_hex.
  rewrite <- (hex_decode_toLowerCase 64 hex1), <- (hex_decode_toLowerCase 64 hex2)
    by lia.
  now rewrite Hlow.
Qed.

Lemma cborHexToLucidPrivateKey_hex_case_witness :
  Bech32.toLowerCase (repeat_str 32 (str "aB"))
  = Bech32.toLowerCase (repeat_str 32 (str "Ab"))
  /\ cborHexToLucidPrivateKey node_modules
       (JString (tagged (repeat_str 32 (str "aB"))))
       (constructor default_config)
     = cborHexToLucidPrivateKey node_modules
         (JString (tagged (repeat_str 32 (str "Ab"))))
         (constructor default_config).
Proof.
  split; [reflexivity|].
  apply (cborHexToLucidPrivateKey_hex_case node_modules
           (constructor default_config)
           (repeat_str 32 (str "aB")) (repeat_str 32 (str "Ab")));
    reflexivity.
Defined.

(** X9. An input that fails one of the three checks is refused before the
    encoder is looked for: the instance is left as it was, and the error is
    one of the three validation errors. *)
Theorem cborHexToLucidPrivateKey_rejection_loads_nothing
  (loader : ModuleLoader) (this : CardanoKeyConverter) (x : JSValue) :
  (forall s, x = JString s ->
             s = [] \/ startsWith (trim s) (str "5820") = false
             \/ List.length (slice 4 (trim s)) <> 64%nat) ->
  snd (cborHexToLucidPrivateKey loader x this) = this
  /\ (fst (cborHexToLucidPrivateKey loader x this) = Throw InvalidInputError
      \/ fst (cborHexToLucidPrivateKey loader x this) = Throw InvalidPrefixError
      \/ exists n,
           fst (cborHexToLucidPrivateKey loader x this)
           = Throw (InvalidLengthError n)).
Proof.
  intros Hbad.
  destruct (cborHexToLucidPrivateKey_cases loader x this)
    as [[_ ->]|(s & -> & Hs & [[_ ->]|[(_ & _ & ->)|(Hp & Hl & _)]])];
    cbn [fst snd]; eauto.
  exfalso; destruct (Hbad s eq_refl) as [H|[H|H]]; congruence.
Qed.

Lemma cborHexToLucidPrivateKey_rejection_loads_nothing_witness :
  snd (cborHexToLucidPrivateKey node_modules (JString (str "abcd"))
         (constructor preprod_config))
  = constructor preprod_config
  /\ fst (cborHexToLucidPrivateKey node_modules (JString (str "abcd"))
            (constructor preprod_config))
     = Throw InvalidPrefixError.
Proof.
  destruct (cborHexToLucidPrivateKey_rejection_loads_nothing node_modules
              (constructor preprod_config) (JString (str "abcd")))
    as [Hs _].
  { intros s [= <-]; right; left; reflexivity. }
  split; [exact Hs | reflexivity].
Defined.

Lemma cborHexToLucidPrivateKey_context (loader : ModuleLoader)
  (this : CardanoKeyConverter) (x : JSValue) (e : JSError) :
  fst (cborHexToLucidPrivateKey loader x this) = Throw e ->
  exists m, e = new_Error (msg_converting ++ m).
Proof.
  unfold cborHexToLucidPrivateKey, try_catch.
  match goal with
  | |- context [match ?b this with _ => _ end] =>
      destruct (b this) as [[k|err] this']
  end; cbn [fst throw]; [discriminate|].
  intros [= <-]; eexists; reflexivity.
Qed.

Lemma readPrivateKeyFile_context (fs : FileSystem) (keyPath : jsstring)
  (e : JSError) :
  readPrivateKeyFile fs keyPath = Throw e ->
  exists m, e = new_Error (msg_reading ++ m).
Proof.
  unfold readPrivateKeyFile, try_catchR.
  match goal with
  | |- match ?b with _ => _ end = _ -> _ => destruct b as [v|err]
  end; [discriminate|].
  intros [= <-]; eexists; reflexivity.
Qed.

(** X10. Every error of [onchainToOffchainPrivateKey] is an [Error] whose
    message is a chain of contexts: that of the method, then that of the
    reader or that of the encoder, then the cause. *)
Theorem onchainToOffchainPrivateKey_error_chain
  (fs : FileSystem) (loader : ModuleLoader) (keyPath : jsstring)
  (this : CardanoKeyConverter) (e : JSError) :
  fst (onchainToOffchainPrivateKey fs loader keyPath this) = Throw e ->
  exists m,
    e = new_Error
          (str "Error converting onchain to offchain private key: "
           ++ str "Error reading private key file: " ++ m)
    \/ e = new_Error
             (str "Error converting onchain to offchain private key: "
              ++ str "Error converting CBOR hex to Lucid private key: " ++ m).
Proof.
  rewrite onchainToOffchainPrivateKey_unfold; unfold reader_then_encoder.
  destruct (readPrivateKeyFile fs keyPath) as [cborHex|err] eqn:Hr.
  - destruct (cborHexToLucidPrivateKey loader cborHex this)
      as [[key|err] this'] eqn:Hc; cbn [fst]; [discriminate|].
    intros [= <-].
    destruct (cborHexToLucidPrivateKey_context loader this cborHex err)
      as [m ->]; [now rewrite Hc|].
    exists m; right; reflexivity.
  - cbn [fst]; intros [= <-].
    destruct (readPrivateKeyFile_context fs keyPath err Hr) as [m ->].
    exists m; left; reflexivity.
Qed.

Lemma onchainToOffchainPrivateKey_error_chain_witness :
  fst (onchainToOffchainPrivateKey no_files node_modules (str "/no.key")
         (constructor preprod_config))
  = Throw (new_Error
             (str "Error converting onchain to offchain private key: Error reading private key file: Private key file not found at path: /no.key"))
  /\ exists m,
      new_Error
        (str "Error converting onchain to offchain private key: Error reading private key file: Private key file not found at path: /no.key")
      = new_Error
          (str "Error converting onchain to offchain private key: "
           ++ str "Error reading private key file: " ++ m)
      \/ new_Error
           (str "Error converting onchain to offchain private key: Error reading private key file: Private key file not found at path: /no.key")
         = new_Error
             (str "Error converting onchain to offchain private key: "
              ++ str "Error converting CBOR hex to Lucid private key: " ++ m).
Proof.
  split; [reflexivity|].
  apply (onchainToOffchainPrivateKey_error_chain no_files node_modules
           (str "/no.key") (constructor preprod_config)).
  reflexivity.
Defined.

(** X11. A key file whose [cborHex] member is truthy and not a string (a
    number, [true], an array, an object) passes the reader and is refused by
    the encoder: the orchestration fails with the invalid-input error under
    its own context, and the instance is left as it was. *)
Theorem onchainToOffchainPrivateKey_non_string_member
  (fs : FileSystem) (loader : ModuleLoader) (keyPath fileContent : jsstring)
  (fields : list (jsstring * JSValue)) (v : JSValue)
  (this : CardanoKeyConverter) :
  existsSync fs keyPath = true ->
  readFileSync fs keyPath = Ok fileContent ->
  JSON_parse fileContent = Ok (JObject fields) ->
  lookup fields (str "cborHex") = Some v ->
  truthy v = true ->
  typeof_string v = false ->
  onchainToOffchainPrivateKey fs loader keyPath this
  = (Throw (new_Error
              (str "Error converting onchain to offchain private key: Error converting CBOR hex to Lucid private key: Invalid CBOR hex input")),
     this).
Proof.
  intros Hex Hrd Hp Hl Ht Hty.
  rewrite onchainToOffchainPrivateKey_unfold; unfold reader_then_encoder.
  rewrite (readPrivateKeyFile_table fs _ _ Hex Hrd); unfold reader_table.
  rewrite Hp; cbn [accepted_shape]; rewrite Hl, Ht.
  rewrite cborHexToLucidPrivateKey_rejects by now right.
  reflexivity.
Qed.

Lemma onchainToOffchainPrivateKey_non_string_member_witness :
  JSON_parse (str "{" ++ quoted (str "cborHex") ++ str ": 5820}")
  = Ok (JObject [(str "cborHex", JNumber 5820 0)])
  /\ onchainToOffchainPrivateKey
       (single_file key_path
          (str "{" ++ quoted (str "cborHex") ++ str ": 5820}"))
       node_modules key_path (constructor preprod_config)
     = (Throw (new_Error
                 (str "Error converting onchain to offchain private key: Error converting CBOR hex to Lucid private key: Invalid CBOR hex input")),
        constructor preprod_config).
Proof.
  split; [vm_compute; reflexivity|].
  apply (onchainToOffchainPrivateKey_non_string_member
           (single_file key_path
              (str "{" ++ quoted (str "cborHex") ++ str ": 5820}"))
           node_modules key_path
           (str "{" ++ quoted (str "cborHex") ++ str ": 5820}")
           [(str "cborHex", JNumber 5820 0)] (JNumber 5820 0));
    vm_compute; reflexivity.
Defined.

(* ================================================================== *)
(** ** More on [initBech32Encoder] *)

Lemma initBech32Encoder_Ok (loader : ModuleLoader)
  (this this' : CardanoKeyConverter) (e : Bech32Encoder) :
  initBech32Encoder loader this = (Ok e, this') ->
  bech32Encoder this' = FEncoder e.
Proof.
  destruct (bech32Encoder this) as [| |e0] eqn:Hf.
  3:{ rewrite (initBech32Encoder_memo loader _ _ Hf); now intros [= <- <-]. }
  all: rewrite initBech32Encoder_load by (rewrite Hf; discriminate).
  all: destruct (load loader) as [[| |e1]|err]; try discriminate.
  all: now intros [= <- <-].
Qed.

(** X12. The encoder is memoised: once a call has returned an encoder,
    every later call returns that same encoder and writes nothing,
    whatever the module loader would give by then. *)
Theorem initBech32Encoder_memoizes
  (loader loader' : ModuleLoader) (this this' : CardanoKeyConverter)
  (e : Bech32Encoder) :
  initBech32Encoder loader this = (Ok e, this') ->
  initBech32Encoder loader' this' = (Ok e, this').
Proof.
  intros H; apply initBech32Encoder_memo.
  exact (initBech32Encoder_Ok loader this this' e H).
Qed.

Lemma initBech32Encoder_memoizes_witness :
  initBech32Encoder cjs_only (constructor preprod_config)
  = (Ok bech32, set_bech32Encoder (FEncoder bech32) (constructor preprod_config))
  /\ initBech32Encoder no_modules
       (set_bech32Encoder (FEncoder bech32) (constructor preprod_config))
     = (Ok bech32,
        set_bech32Encoder (FEncoder bech32) (constructor preprod_config)).
Proof.
  split; [reflexivity|].
  apply (initBech32Encoder_memoizes cjs_only no_modules
           (constructor preprod_config)).
  reflexivity.
Defined.

(** X13. A failure is not memoised: after a call that threw, whether
    because both loading strategies threw or because the module had no
    [bech32] export, a call made when the package loads returns the
    encoder. *)
Theorem initBech32Encoder_retries
  (loader loader' : ModuleLoader) (this : CardanoKeyConverter)
  (err : JSError) (e : Bech32Encoder) :
  fst (initBech32Encoder loader this) = Throw err ->
  load loader' = Ok (FEncoder e) ->
  fst (initBech32Encoder loader' (snd (initBech32Encoder loader this)))
  = Ok e
  /\ bech32Encoder
       (snd (initBech32Encoder loader' (snd (initBech32Encoder loader this))))
     = FEncoder e.
Proof.
  intros Hfail Hload.
  assert (Hn : forall e0,
             bech32Encoder (snd (initBech32Encoder loader this))
             <> FEncoder e0).
  { destruct (bech32Encoder this) as [| |e0] eqn:Hf.
    3:{ rewrite (initBech32Encoder_memo loader _ _ Hf) in Hfail.
        discriminate. }
    all: rewrite initBech32Encoder_load in * by (rewrite Hf; discriminate).
    all: destruct (load loader) as [[| |e1]|err1]; cbn [fst snd] in *;
      try discriminate; cbn [bech32Encoder set_bech32Encoder];
      rewrite ?Hf; discriminate. }
  rewrite (initBech32Encoder_load loader' _ Hn), Hload.
  split; reflexivity.
Qed.

Lemma initBech32Encoder_retries_witness :
  fst (initBech32Encoder module_without_export (constructor preprod_config))
  = Throw (new_Error (str "Failed to initialize bech32 encoder"))
  /\ load node_modules = Ok (FEncoder bech32)
  /\ fst (initBech32Encoder node_modules
            (snd (initBech32Encoder module_without_export
                    (constructor preprod_config))))
     = Ok bech32.
Proof.
  split; [reflexivity|]; split; [reflexivity|].
  apply (initBech32Encoder_retries module_without_export node_modules
           (constructor preprod_config)
           (new_Error (str "Failed to initialize bech32 encoder")) bech32);
    reflexivity.
Defined.

(** What a call that finds no encoder does is decided by the two
    loading strategies in order: the export of the imported module is
    stored even when it is [undefined], in which case the call fails
    without trying [require]; [require] is tried only when the import
    throws; and when both throw, the error names the failure of [require]
    alone and the instance is left as it was. *)
Theorem initBech32Encoder_strategies
  (loader : ModuleLoader) (this : CardanoKeyConverter) :
  (forall e, bech32Encoder this <> FEncoder e) ->
  initBech32Encoder loader this =
    match import_bech32 loader, require_bech32 loader with
    | Ok (Some e), _ => (Ok e, set_bech32Encoder (FEncoder e) this)
    | Ok None, _ =>
        (Throw (new_Error (str "Failed to initialize bech32 encoder")),
         set_bech32Encoder FUndefined this)
    | Throw _, Ok (Some e) => (Ok e, set_bech32Encoder (FEncoder e) this)
    | Throw _, Ok None =>
        (Throw (new_Error (str "Failed to initialize bech32 encoder")),
         set_bech32Encoder FUndefined this)
    | Throw _, Throw cause =>
        (Throw (new_Error (str "Failed to load bech32 encoder: "
                           ++ message cause)), this)
    end.
Proof.
  intros Hn; rewrite (initBech32Encoder_load loader this Hn); unfold load.
  destruct (import_bech32 loader) as [[e|]|err1];
    try destruct (require_bech32 loader) as [[e|]|err2]; reflexivity.
Qed.

Lemma initBech32Encoder_strategies_witness :
  (forall e, bech32Encoder (constructor preprod_config) <> FEncoder e)
  /\ initBech32Encoder no_modules (constructor preprod_config)
     = (Throw (new_Error
                 (str "Failed to load bech32 encoder: require is not defined")),
        constructor preprod_config).
Proof.
  split; [discriminate|].
  rewrite (initBech32Encoder_strategies no_modules (constructor preprod_config));
    [reflexivity | discriminate].
Defined.

(** X14. Calls that overlap at the import: from an instance with no call in
    flight, however calls start and resume, the configuration stays what
    it was and an encoder seen in the field at one moment is the encoder
    in the field at every later moment. *)
Theorem overlapping_calls_keep_encoder
  (loader : ModuleLoader) (this this1 this2 : CardanoKeyConverter)
  (n1 n2 : nat) :
  overlap_run loader (this, 0%nat) (this1, n1) ->
  overlap_run loader (this1, n1) (this2, n2) ->
  network this2 = network this
  /\ blockfrostApiUrl this2 = blockfrostApiUrl this
  /\ blockfrostApiKey this2 = blockfrostApiKey this
  /\ (forall e, bech32Encoder this1 = FEncoder e ->
                bech32Encoder this2 = FEncoder e).
Proof. apply overlapping_calls_frame. Qed.

Lemma overlapping_calls_keep_encoder_witness :
  overlap_run node_modules (constructor preprod_config, 0%nat)
    (set_bech32Encoder (FEncoder bech32) (constructor preprod_config), 1%nat)
  /\ overlap_run node_modules
       (set_bech32Encoder (FEncoder bech32) (constructor preprod_config), 1%nat)
       (set_bech32Encoder (FEncoder bech32)
          (set_bech32Encoder (FEncoder bech32) (constructor preprod_config)),
        0%nat)
  /\ bech32Encoder
       (set_bech32Encoder (FEncoder bech32)
          (set_bech32Encoder (FEncoder bech32) (constructor preprod_config)))
     = FEncoder bech32.
Proof.
  assert (H1 :
    overlap_run node_modules (constructor preprod_config, 0%nat)
      (set_bech32Encoder (FEncoder bech32) (constructor preprod_config),
       1%nat)).
  { eapply overlap_next; [apply overlap_suspend; discriminate|].
    eapply overlap_next; [apply overlap_suspend; discriminate|].
    eapply overlap_next; [apply overlap_resume | apply overlap_done]. }
  assert (H2 :
    overlap_run node_modules
      (set_bech32Encoder (FEncoder bech32) (constructor preprod_config), 1%nat)
      (set_bech32Encoder (FEncoder bech32)
         (set_bech32Encoder (FEncoder bech32) (constructor preprod_config)),
       0%nat)).
  { eapply overlap_next; [apply overlap_resume | apply overlap_done]. }
  split; [exact H1|]; split; [exact H2|].
  exact (proj2 (proj2 (proj2
           (overlapping_calls_keep_encoder node_modules _ _ _ _ _ H1 H2)))
           bech32 eq_refl).
Defined.

(* ================================================================== *)
(** ** The wallet helpers *)

Section WalletResults.

Variable fs : FileSystem.
Variable loader : ModuleLoader.
Variables LucidEvolution UTxO : Type.
Variable lib : LucidLib LucidEvolution UTxO.

Lemma createLucidWithPrivateKey_unfold (keyPath : jsstring)
  (this : CardanoKeyConverter) :
  createLucidWithPrivateKey fs loader _ _ lib keyPath this =
    match Lucid lib (blockfrostApiUrl this) (blockfrostApiKey this)
                (network this) with
    | Throw e => (Throw (rethrow msg_creating e), this)
    | Ok lucid =>
        match onchainToOffchainPrivateKey fs loader keyPath this with
        | (Throw e, this') => (Throw (rethrow msg_creating e), this')
        | (Ok privateKey, this') =>
            match selectWallet_fromPrivateKey lib lucid privateKey with
            | Ok lucid' => (Ok lucid', this')
            | Throw e => (Throw (rethrow msg_creating e), this')
            end
        end
    end.
Proof.
  unfold createLucidWithPrivateKey, try_catch, bind, lift, ret, throw.
  destruct (Lucid lib _ _ _) as [lucid|e]; [|reflexivity].
  destruct (onchainToOffchainPrivateKey fs loader keyPath this)
    as [[privateKey|e] this']; [|reflexivity].
  destruct (selectWallet_fromPrivateKey lib lucid privateKey); reflexivity.
Qed.

Lemma getWalletAddress_unfold (keyPath : jsstring)
  (this : CardanoKeyConverter) :
  getWalletAddress fs loader _ _ lib keyPath this =
    match createLucidWithPrivateKey fs loader _ _ lib keyPath this with
    | (Throw e, this') => (Throw (rethrow msg_address e), this')
    | (Ok lucid, this') =>
        (match wallet_address lib lucid with
         | Ok address => Ok address
         | Throw e => Throw (rethrow msg_address e)
         end, this')
    end.
Proof.
  unfold getWalletAddress, try_catch, bind, lift, ret, throw.
  destruct (createLucidWithPrivateKey fs loader _ _ lib keyPath this)
    as [[lucid|e] this']; [|reflexivity].
  destruct (wallet_address lib lucid); reflexivity.
Qed.

Lemma getWalletUtxos_unfold (keyPath : jsstring)
  (this : CardanoKeyConverter) :
  getWalletUtxos fs loader _ _ lib keyPath this =
    match createLucidWithPrivateKey fs loader _ _ lib keyPath this with
    | (Throw e, this') => (Throw (rethrow msg_utxos e), this')
    | (Ok lucid, this') =>
        (match wallet_address lib lucid with
         | Ok address =>
             match utxosAt lib lucid address with
             | Ok utxos => Ok utxos
             | Throw e => Throw (rethrow msg_utxos e)
             end
         | Throw e => Throw (rethrow msg_utxos e)
         end, this')
    end.
Proof.
  unfold getWalletUtxos, try_catch, bind, lift, ret, throw.
  destruct (createLucidWithPrivateKey fs loader _ _ lib keyPath this)
    as [[lucid|e] this']; [|reflexivity].
  destruct (wallet_address lib lucid) as [address|e]; [|reflexivity].
  destruct (utxosAt lib lucid address); reflexivity.
Qed.

(** X15. A missing key file is reported through every layer, with the
    path: when the wallet client can be built and the path does not exist,
    [getWalletAddress] and [getWalletUtxos] fail with the full chain of
    contexts, and the instance is left as it was. *)
Theorem wallet_helpers_missing_key_file (keyPath : jsstring)
  (this : CardanoKeyConverter) (lucid : LucidEvolution) :
  Lucid lib (blockfrostApiUrl this) (blockfrostApiKey this) (network this)
  = Ok lucid ->
  existsSync fs keyPath = false ->
  getWalletAddress fs loader _ _ lib keyPath this
  = (Throw (new_Error
              (str "Error getting wallet address: Error creating Lucid instance with private key: Error converting onchain to offchain private key: Error reading private key file: Private key file not found at path: "
               ++ keyPath)),
     this)
  /\ getWalletUtxos fs loader _ _ lib keyPath this
     = (Throw (new_Error
                 (str "Error getting wallet UTXOs: Error creating Lucid instance with private key: Error converting onchain to offchain private key: Error reading private key file: Private key file not found at path: "
                  ++ keyPath)),
        this).
Proof.
  intros Hl Hex.
  assert (Hc : createLucidWithPrivateKey fs loader _ _ lib keyPath this
               = (Throw (rethrow msg_creating
                           (rethrow msg_onchain (FileNotFoundError keyPath))),
                  this)).
  { rewrite createLucidWithPrivateKey_unfold, Hl.
    rewrite onchainToOffchainPrivateKey_unfold; unfold reader_then_encoder.
    unfold readPrivateKeyFile; rewrite Hex; reflexivity. }
  rewrite getWalletAddress_unfold, getWalletUtxos_unfold, Hc.
  split; reflexivity.
Qed.

(** X16. The client is built first: when building it throws, the helper
    fails with that cause under its context, the instance is left as it
    was, and nothing depends on the key file or on the module loader. *)
Theorem createLucidWithPrivateKey_client_failure (keyPath : jsstring)
  (this : CardanoKeyConverter) (cause : JSError)
  (fs' : FileSystem) (loader' : ModuleLoader) :
  Lucid lib (blockfrostApiUrl this) (blockfrostApiKey this) (network this)
  = Throw cause ->
  createLucidWithPrivateKey fs loader _ _ lib keyPath this
  = (Throw (new_Error
              (str "Error creating Lucid instance with private key: "
               ++ message cause)),
     this)
  /\ createLucidWithPrivateKey fs' loader' _ _ lib keyPath this
     = createLucidWithPrivateKey fs loader _ _ lib keyPath this.
Proof.
  intros Hl.
  unfold createLucidWithPrivateKey, try_catch, bind, lift, ret, throw.
  rewrite Hl; split; reflexivity.
Qed.

(** X17. A client that [createLucidWithPrivateKey] returns was built from
    the three configuration fields of the instance and had the key
    selected that [onchainToOffchainPrivateKey] returns for the path; the
    instance is left as that conversion left it. *)
Theorem createLucidWithPrivateKey_returns (keyPath : jsstring)
  (this this' : CardanoKeyConverter) (lucid' : LucidEvolution) :
  createLucidWithPrivateKey fs loader _ _ lib keyPath this = (Ok lucid', this') ->
  exists lucid privateKey,
    Lucid lib (blockfrostApiUrl this) (blockfrostApiKey this) (network this)
    = Ok lucid
    /\ onchainToOffchainPrivateKey fs loader keyPath this
       = (Ok privateKey, this')
    /\ selectWallet_fromPrivateKey lib lucid privateKey = Ok lucid'.
Proof.
  rewrite createLucidWithPrivateKey_unfold.
  destruct (Lucid lib _ _ _) as [lucid|e]; [|discriminate].
  destruct (onchainToOffchainPrivateKey fs loader keyPath this)
    as [[privateKey|e] this0]; [|discriminate].
  destruct (selectWallet_fromPrivateKey lib lucid privateKey) as [l|e] eqn:Hs;
    [|discriminate].
  intros [= <- <-]; eauto.
Qed.

(** X18. The two queries go through the same client: when
    [createLucidWithPrivateKey] returns a client, [getWalletAddress] returns
    the address of that client, and [getWalletUtxos] asks for the outputs
    at that very address; a failure of a query comes back under the
    context of the helper. *)
Theorem wallet_queries_share_client (keyPath : jsstring)
  (this this' : CardanoKeyConverter) (lucid : LucidEvolution) :
  createLucidWithPrivateKey fs loader _ _ lib keyPath this = (Ok lucid, this') ->
  getWalletAddress fs loader _ _ lib keyPath this
  = (match wallet_address lib lucid with
     | Ok address => Ok address
     | Throw e =>
         Throw (new_Error (str "Error getting wallet address: " ++ message e))
     end, this')
  /\ getWalletUtxos fs loader _ _ lib keyPath this
     = (match wallet_address lib lucid with
        | Ok address =>
            match utxosAt lib lucid address with
            | Ok utxos => Ok utxos
            | Throw e =>
                Throw (new_Error (str "Error getting wallet UTXOs: "
                                  ++ message e))
            end
        | Throw e =>
            Throw (new_Error (str "Error getting wallet UTXOs: " ++ message e))
        end, this').
Proof.
  intros Hc; rewrite getWalletAddress_unfold, getWalletUtxos_unfold, Hc.
  split; reflexivity.
Qed.

End WalletResults.

Lemma wallet_helpers_missing_key_file_witness :
  existsSync no_files (str "/no.key") = false
  /\ getWalletAddress no_files node_modules _ _ answering_lib (str "/no.key")
       (constructor preprod_config)
     = (Throw (new_Error
                 (str "Error getting wallet address: Error creating Lucid instance with private key: Error converting onchain to offchain private key: Error reading private key file: Private key file not found at path: /no.key")),
        constructor preprod_config).
Proof.
  split; [reflexivity|].
  exact (proj1 (wallet_helpers_missing_key_file no_files node_modules _ _
                  answering_lib (str "/no.key") (constructor preprod_config)
                  _ eq_refl eq_refl)).
Defined.

Lemma createLucidWithPrivateKey_client_failure_witness :
  Lucid offline_lib (blockfrostApiUrl (constructor preprod_config))
        (blockfrostApiKey (constructor preprod_config))
        (network (constructor preprod_config))
  = Throw (new_Error (str "offline"))
  /\ createLucidWithPrivateKey no_files no_modules _ _ offline_lib key_path
       (constructor preprod_config)
     = (Throw (new_Error
                 (str "Error creating Lucid instance with private key: offline")),
        constructor preprod_config).
Proof.
  split; [reflexivity|].
  exact (proj1 (createLucidWithPrivateKey_client_failure no_files no_modules
                  _ _ offline_lib key_path (constructor preprod_config)
                  (new_Error (str "offline")) no_files no_modules eq_refl)).
Defined.

Lemma createLucidWithPrivateKey_ee :
  createLucidWithPrivateKey
    (single_file key_path (cborHex_file (tagged (repeat_str 32 (str "ee")))))
    node_modules _ _ answering_lib key_path (constructor preprod_config)
  = (Ok (str "https://cardano-preprod.blockfrost.io/api/v0",
         str "test-api-key", Preprod,
         Some (str "ed25519_sk1amhwamhwamhwamhwamhwamhwamhwamhwamhwamhwamhwamhwamhq7ukhat")),
     set_bech32Encoder (FEncoder bech32) (constructor preprod_config)).
Proof.
  apply injective_projections; cbn [fst snd];
    [vm_compute; reflexivity | reflexivity].
Defined.

Lemma createLucidWithPrivateKey_returns_witness :
  exists lucid privateKey,
    Lucid answering_lib (blockfrostApiUrl (constructor preprod_config))
          (blockfrostApiKey (constructor preprod_config))
          (network (constructor preprod_config))
    = Ok lucid
    /\ onchainToOffchainPrivateKey
         (single_file key_path
            (cborHex_file (tagged (repeat_str 32 (str "ee")))))
         node_modules key_path (constructor preprod_config)
       = (Ok privateKey,
          set_bech32Encoder (FEncoder bech32) (constructor preprod_config))
    /\ selectWallet_fromPrivateKey answering_lib lucid privateKey
       = Ok (str "https://cardano-preprod.blockfrost.io/api/v0",
             str "test-api-key", Preprod,
             Some (str "ed25519_sk1amhwamhwamhwamhwamhwamhwamhwamhwamhwamhwamhwamhwamhq7ukhat")).
Proof.
  exact (createLucidWithPrivateKey_returns _ node_modules _ _ answering_lib
           key_path _ _ _ createLucidWithPrivateKey_ee).
Defined.

Lemma wallet_queries_share_client_witness :
  getWalletUtxos
    (single_file key_path (cborHex_file (tagged (repeat_str 32 (str "ee")))))
    node_modules _ _ answering_lib key_path (constructor preprod_config)
  = (Ok [str "utxo_at_addr_of_ed25519_sk1amhwamhwamhwamhwamhwamhwamhwamhwamhwamhwamhwamhwamhq7ukhat"],
     set_bech32Encoder (FEncoder bech32) (constructor preprod_config)).
Proof.
  exact (proj2 (wallet_queries_share_client _ node_modules _ _ answering_lib
                  key_path _ _ _ createLucidWithPrivateKey_ee)).
Defined.

(* ================================================================== *)
(** ** The shape of an encoded key *)

Module Bech32Shape.
Import Bech32 Bech32Facts.
Local Open Scope Z_scope.

Lemma charAt_word5 (x : Z) :
  word5 x -> exists c, charAt ALPHABET x = [c] /\ In c ALPHABET.
Proof.
  intros [H0 H32]; unfold charAt.
  destruct (Z.ltb_spec x 0) as [Hneg|_]; [lia|].
  destruct (nth_error ALPHABET (Z.to_nat x)) as [c|] eqn:Hn.
  - exists c; split; [reflexivity|]; eapply nth_error_In; eassumption.
  - apply nth_error_None in Hn.
    change (List.length ALPHABET) with 32%nat in Hn; lia.
Qed.

(** The characters [encode] appends for the words. *)
Lemma encode_words_chars (ws : list Z) :
  Forall word5 ws ->
  forall (chk : Z) (result : jsstring),
  exists chk' : Z,
    encode_words ws chk result
    = Some (chk', result ++ flat_map (charAt ALPHABET) ws).
Proof.
  induction 1 as [|x ws Hx Hws IH]; intros chk result.
  - exists chk; cbn [encode_words flat_map]; now rewrite app_nil_r.
  - cbn [encode_words flat_map]; rewrite (word5_sar _ Hx); cbn [Z.eqb negb].
    destruct (IH (js_xor (polymodStep chk) x) (result ++ charAt ALPHABET x))
      as (chk' & He).
    exists chk'; now rewrite He, <- app_assoc.
Qed.

Lemma word_chars (ws : list Z) :
  Forall word5 ws ->
  List.length (flat_map (charAt ALPHABET) ws) = List.length ws
  /\ Forall (fun c => In c ALPHABET) (flat_map (charAt ALPHABET) ws).
Proof.
  induction 1 as [|x ws Hx Hws [IHl IHf]]; [split; [reflexivity|constructor]|].
  destruct (charAt_word5 x Hx) as (c & Hc & Hin).
  cbn [flat_map]; rewrite Hc; cbn [app List.length]; split;
    [now rewrite IHl | now constructor].
Qed.

Lemma checksum_chars_shape (chk : Z) :
  List.length (checksum_chars chk) = 6%nat
  /\ Forall (fun c => In c ALPHABET) (checksum_chars chk).
Proof.
  assert (Hw : Forall word5
                 (map (fun i => js_and (js_sar chk ((5 - i) * 5)) 31)
                      [0; 1; 2; 3; 4; 5]))
    by (cbn [map]; repeat (apply Forall_cons; [apply js_and_31|]);
        apply Forall_nil).
  pose proof (word_chars _ Hw) as H.
  rewrite flat_map_concat_map, map_map, <- flat_map_concat_map in H.
  exact H.
Qed.

(** [encode] with the converter's prefix: the key is the prefix, the
    separator, one character of the alphabet for each word and six for the
    checksum. *)
Lemma encode_ed25519_sk_shape (ws : list Z) :
  Forall word5 ws ->
  (List.length ws <= 73)%nat ->
  exists chk : Z,
    encode (str "ed25519_sk") ws None
    = Ok (str "ed25519_sk1" ++ flat_map (charAt ALPHABET) ws
          ++ checksum_chars chk).
Proof.
  intros Hw Hl; unfold encode.
  change (List.length (str "ed25519_sk")) with 10%nat.
  rewrite Z.gtb_ltb.
  destruct (Z.ltb_spec 90 (Z.of_nat 10 + 7 + Z.of_nat (List.length ws)));
    [lia|].
  rewrite prefixChk_ed25519_sk.
  change (toLowerCase (str "ed25519_sk") ++ str "1")%list
    with (str "ed25519_sk1").
  destruct (encode_words_chars ws Hw ed25519_sk_chk (str "ed25519_sk1"))
    as (chk' & ->).
  exists (js_xor (Nat.iter 6 polymodStep chk') ENCODING_CONST).
  now rewrite <- app_assoc.
Qed.

(** [toWords] gives as many words as the bits of the bytes need. *)
Lemma toWords_count (bytes : list Z) :
  exists ws : list Z,
    toWords bytes = inr ws
    /\ Forall word5 ws
    /\ 8 * Z.of_nat (List.length bytes) <= 5 * Z.of_nat (List.length ws)
       < 8 * Z.of_nat (List.length bytes) + 5.
Proof.
  unfold toWords, convert.
  change (js_shl 1 5 - 1) with 31.
  destruct (convert_loop_8_5 bytes 0 0 [])
    as (ws & value & bits & Hc & Hw & Hl & Hr); [lia|].
  rewrite Hc; cbn [app].
  rewrite Z.gtb_ltb. destruct (Z.ltb_spec 0 bits) as [Hpos|Hpos].
  - eexists; split; [reflexivity|]; split.
    + apply Forall_app; split; [assumption|].
      constructor; [apply js_and_31 | constructor].
    + rewrite length_app, Nat2Z.inj_add; cbn [List.length]; lia.
  - exists ws; repeat split; auto; lia.
Qed.

End Bech32Shape.

(** The key of 32 bytes. *)
Lemma bech32_key_shape (bytes : list Z) :
  List.length bytes = 32%nat ->
  exists (words : list Z) (body : jsstring),
    toWords bech32 bytes = Ok words
    /\ encode bech32 (str "ed25519_sk") words = Ok (str "ed25519_sk1" ++ body)
    /\ List.length body = 58%nat
    /\ Forall (fun c => In c Bech32.ALPHABET) body.
Proof.
  intros Hl.
  destruct (Bech32Shape.toWords_count bytes) as (ws & Ht & Hw & Hc).
  assert (Hws : List.length ws = 52%nat) by lia.
  destruct (Bech32Shape.encode_ed25519_sk_shape ws Hw) as (chk & He); [lia|].
  destruct (Bech32Shape.word_chars ws Hw) as [Hl1 Hf1].
  destruct (Bech32Shape.checksum_chars_shape chk) as [Hl2 Hf2].
  exists ws, (flat_map (Bech32.charAt Bech32.ALPHABET) ws
              ++ Bech32.checksum_chars chk).
  cbn [toWords encode bech32]; rewrite Ht, He.
  repeat split.
  - rewrite length_app; lia.
  - apply Forall_app; auto.
Qed.

(** X19. The key of a well-formed input has a fixed shape: for the tag
    [5820] and 64 hexadecimal digits, with the [bech32] package loaded, the
    key returned is 69 characters long: [ed25519_sk1], then 52 characters
    for the 32 bytes and 6 for the checksum, all 58 taken from the
    alphabet of the encoding. *)
Theorem cborHexToLucidPrivateKey_key_shape
  (loader : ModuleLoader) (this : CardanoKeyConverter) (hex : jsstring) :
  List.length hex = 64%nat ->
  forallb is_hex_digit hex = true ->
  load loader = Ok (FEncoder bech32) ->
  settled loader this ->
  exists body : jsstring,
    fst (cborHexToLucidPrivateKey loader (JString (tagged hex)) this)
    = Ok (str "ed25519_sk1" ++ body)
    /\ List.length body = 58%nat
    /\ List.length (str "ed25519_sk1" ++ body) = 69%nat
    /\ Forall (fun c => In c (str "qpzry9x8gf2tvdw0s3jn54khce6mua7l")) body.
Proof.
  intros Hl Hh Hload Hs.
  destruct (hex_decode_digits 64 hex) as [Hbytes _]; [lia | exact Hh
    | rewrite Hl; reflexivity |].
  destruct (bech32_key_shape (Buffer_from_hex hex))
    as (words & body & Hw & He & Hlen & Hall);
    [unfold Buffer_from_hex; lia|].
  exists body.
  rewrite (cborHexToLucidPrivateKey_tagged loader this hex Hl Hh).
  rewrite (encode_stage_settled loader hex this Hs).
  unfold init_outcome; rewrite Hload, Hw, He.
  repeat split; auto.
  rewrite length_app, Hlen; reflexivity.
Qed.

Lemma cborHexToLucidPrivateKey_key_shape_witness :
  exists body : jsstring,
    fst (cborHexToLucidPrivateKey node_modules
           (JString (tagged (repeat_str 32 (str "aa"))))
           (constructor default_config))
    = Ok (str "ed25519_sk1" ++ body)
    /\ List.length body = 58%nat
    /\ List.length (str "ed25519_sk1" ++ body) = 69%nat
    /\ Forall (fun c => In c (str "qpzry9x8gf2tvdw0s3jn54khce6mua7l")) body.
Proof.
  apply (cborHexToLucidPrivateKey_key_shape node_modules
           (constructor default_config) (repeat_str 32 (str "aa")));
    [reflexivity | reflexivity | reflexivity | left; reflexivity].
Defined.

(* ================================================================== *)
(** ** Distinct payloads, distinct keys *)

Module Bech32Regroup.
Import Bech32 Bech32Facts.
Local Open Scope Z_scope.

Lemma int32_range (z : Z) : - 2 ^ 31 <= int32 z < 2 ^ 31.
Proof. unfold int32. Z.to_euclidean_division_equations. lia. Qed.

Lemma int32_idem (z : Z) : - 2 ^ 31 <= z < 2 ^ 31 -> int32 z = z.
Proof. unfold int32. Z.to_euclidean_division_equations. lia. Qed.

Lemma int32_mod (z m : Z) : In m [2;4;8;16;32;256;4096] -> int32 z mod m = z mod m.
Proof.
  unfold int32; intros H; simpl in H.
  repeat (destruct H as [<-|H]; [Z.to_euclidean_division_equations; lia|]).
  contradiction.
Qed.

Lemma lor_low (a d : Z) : a mod 256 = 0 -> 0 <= d < 256 -> Z.lor a d = a + d.
Proof.
  intros Ha Hd.
  assert (Hl : Z.land a d = 0).
  { apply Z.bits_inj'; intros n Hn; rewrite Z.land_spec, Z.bits_0.
    destruct (Z.ltb_spec n 8).
    - rewrite <- (Z.mod_pow2_bits_low a 8 n) by lia.
      change (2 ^ 8) with 256; rewrite Ha, Z.bits_0; reflexivity.
    - rewrite <- (Z.mod_small d (2 ^ 8)) by (change (2^8) with 256; lia).
      rewrite Z.mod_pow2_bits_high by lia. apply andb_false_r. }
  rewrite <- Z.lxor_lor by assumption.
  symmetry; apply Z.add_nocarry_lxor; assumption.
Qed.

Lemma next_value (v d : Z) :
  0 <= d < 256 ->
  let v1 := js_or (js_shl v 8) d in
  int32 v1 = v1 /\ v1 mod 4096 = (int32 v mod 16) * 256 + d.
Proof.
  intros Hd v1; subst v1; unfold js_or, js_shl.
  change (Z.land 8 31) with 8.
  rewrite Z.shiftl_mul_pow2 by lia; change (2 ^ 8) with 256.
  rewrite (int32_idem (int32 (int32 v * 256))) by apply int32_range.
  rewrite (int32_idem d) by lia.
  pose proof (int32_range (int32 v * 256)) as Hr.
  pose proof (int32_mod (int32 v * 256) 256 ltac:(simpl; tauto)) as Hm.
  pose proof (int32_mod (int32 v * 256) 4096 ltac:(simpl; tauto)) as Hm2.
  set (A := int32 (int32 v * 256)) in *.
  set (P := int32 v) in *.
  assert (HA : A mod 256 = 0) by (rewrite Hm; Z.to_euclidean_division_equations; lia).
  rewrite (lor_low A d HA Hd).
  split.
  - apply int32_idem. Z.to_euclidean_division_equations. lia.
  - Z.to_euclidean_division_equations. lia.
Qed.

(* word extracted at position k of the new value *)
Lemma word_at (v1 k : Z) :
  int32 v1 = v1 -> In k [0;1;2;3;4;5;6;7] ->
  js_and (js_sar v1 k) 31 = ((v1 mod 4096) / 2 ^ k) mod 32.
Proof.
  intros Hv Hk; unfold js_and, js_sar; rewrite Hv.
  change (int32 31) with (Z.ones 5).
  rewrite Z.land_ones by lia. change (2 ^ 5) with 32.
  rewrite (int32_mod _ 32) by (simpl; tauto).
  simpl in Hk.
  repeat (destruct Hk as [<-|Hk];
          [match goal with
           | |- context [Z.land ?k 31] => change (Z.land k 31) with k
           end; rewrite Z.shiftr_div_pow2 by lia;
           Z.to_euclidean_division_equations; lia|]).
  contradiction.
Qed.

Lemma pad_word (v k : Z) :
  In k [1;2;3;4] ->
  js_and (js_shl v k) 31 = ((int32 v mod 2 ^ (5 - k)) * 2 ^ k).
Proof.
  intros Hk; unfold js_and, js_shl.
  change (int32 31) with (Z.ones 5).
  rewrite Z.land_ones by lia. change (2 ^ 5) with 32.
  rewrite !(int32_mod _ 32) by (simpl; tauto).
  simpl in Hk.
  repeat (destruct Hk as [<-|Hk];
          [match goal with
           | |- context [Z.land ?k 31] => change (Z.land k 31) with k
           end; rewrite Z.shiftl_mul_pow2 by lia;
           Z.to_euclidean_division_equations; lia|]).
  contradiction.
Qed.

Ltac pow2 :=
  repeat match goal with
         | |- context [2 ^ (?a + ?b)] =>
             let t := eval vm_compute in (2 ^ (a + b)) in
             change (2 ^ (a + b)) with t
         | |- context [2 ^ (?a - ?b)] =>
             let t := eval vm_compute in (2 ^ (a - b)) in
             change (2 ^ (a - b)) with t
         | H : context [2 ^ (?a + ?b)] |- _ =>
             let t := eval vm_compute in (2 ^ (a + b)) in
             change (2 ^ (a + b)) with t in H
         | H : context [2 ^ (?a - ?b)] |- _ =>
             let t := eval vm_compute in (2 ^ (a - b)) in
             change (2 ^ (a - b)) with t in H
         end.

Lemma drain_cases (v1 b : Z) (result : list Z) :
  In b [0;1;2;3;4] ->
  drain (Z.to_nat (b + 8)) v1 (b + 8) 5 31 result
  = if b >=? 2
    then (b - 2, (result ++ [js_and (js_sar v1 (b + 3)) 31])
                 ++ [js_and (js_sar v1 (b - 2)) 31])
    else (b + 3, result ++ [js_and (js_sar v1 (b + 3)) 31]).
Proof.
  intros Hb; simpl in Hb.
  repeat (destruct Hb as [<-|Hb]; [reflexivity|]); contradiction.
Qed.

Lemma regroup_nil (b c : Z) :
  regroup b c [] = if b >? 0 then [c * 2 ^ (5 - b)] else [].
Proof. reflexivity. Qed.

Lemma regroup_cons (b c d : Z) (rest : list Z) :
  regroup b c (d :: rest) =
    if b >=? 2 then
      (c * 256 + d) / 2 ^ (b + 3) :: ((c * 256 + d) / 2 ^ (b - 2)) mod 32
      :: regroup (b - 2) ((c * 256 + d) mod 2 ^ (b - 2)) rest
    else
      (c * 256 + d) / 2 ^ (b + 3)
      :: regroup (b + 3) ((c * 256 + d) mod 2 ^ (b + 3)) rest.
Proof. reflexivity. Qed.

Ltac decide_if H :=
  match type of H with
  | context [if ?g then _ else _] =>
      let t := eval vm_compute in g in change g with t in H; cbv iota in H
  end.

Ltac arith := pow2; Z.to_euclidean_division_equations; lia.

(** The regrouping loses no bit: equal words come from equal bytes. *)
Lemma regroup_inj (data : list Z) :
  forall (data' : list Z) (b c c' : Z),
    List.length data = List.length data' ->
    Forall is_byte data -> Forall is_byte data' ->
    In b [0;1;2;3;4] ->
    0 <= c < 2 ^ b -> 0 <= c' < 2 ^ b ->
    regroup b c data = regroup b c' data' ->
    c = c' /\ data = data'.
Proof.
  induction data as [|d data IH];
    intros [|d' data'] b c c' Hlen Hd Hd' Hb Hc Hc' He; try discriminate.
  - split; [|reflexivity]. rewrite !regroup_nil in He. simpl in Hb.
    repeat (destruct Hb as [<-|Hb];
            [repeat decide_if He; try (injection He as He); arith|]).
    destruct Hb.
  - inversion Hd as [|? ? Hbd Hdd]; inversion Hd' as [|? ? Hbd' Hdd']; subst.
    unfold is_byte in Hbd, Hbd'.
    injection Hlen as Hlen.
    rewrite !regroup_cons in He.
    assert (Hx : c * 256 + d = c' * 256 + d' /\ data = data').
    { simpl in Hb.
      repeat (destruct Hb as [<-|Hb];
        [repeat decide_if He; pow2; injection He; intros;
         match goal with
         | H : regroup ?b1 ?c1 data = regroup _ ?c2 data' |- _ =>
             destruct (IH data' b1 c1 c2 Hlen Hdd Hdd') as [Hcar ->];
             [simpl; tauto | arith | arith | exact H |];
             split; [arith | reflexivity]
         end|]).
      destruct Hb. }
    destruct Hx as [Hx ->]; split; [|f_equal]; lia.
Qed.

Lemma pad_word_bits (v b : Z) :
  In b [1;2;3;4] ->
  js_and (js_shl v (5 - b)) 31 = (int32 v mod 2 ^ b) * 2 ^ (5 - b).
Proof.
  intros Hb; simpl in Hb.
  repeat (destruct Hb as [<-|Hb];
          [rewrite pad_word by (simpl; tauto); reflexivity|]).
  destruct Hb.
Qed.

Lemma step_words (v d b : Z) :
  is_byte d -> In b [0;1;2;3;4] ->
  let v1 := js_or (js_shl v 8) d in
  let x := (int32 v mod 2 ^ b) * 256 + d in
  js_and (js_sar v1 (b + 3)) 31 = x / 2 ^ (b + 3)
  /\ int32 v1 mod 2 ^ (b + 3) = x mod 2 ^ (b + 3)
  /\ (2 <= b ->
      js_and (js_sar v1 (b - 2)) 31 = (x / 2 ^ (b - 2)) mod 32
      /\ int32 v1 mod 2 ^ (b - 2) = x mod 2 ^ (b - 2)).
Proof.
  intros Hd Hb v1 x; subst x.
  destruct (next_value v d Hd) as [Hi Hm]; fold v1 in Hi, Hm.
  rewrite Hi.
  set (P := int32 v) in *. clearbody v1 P.
  unfold is_byte in Hd. simpl in Hb.
  repeat (destruct Hb as [<-|Hb];
    [split; [|split];
     [rewrite word_at by (assumption || (simpl; tauto)); rewrite Hm; arith
     |arith
     |intros Hb2; first
      [lia
      |split;
       [rewrite word_at by (assumption || (simpl; tauto)); rewrite Hm; arith
       |arith]]]|]).
  destruct Hb.
Qed.

Lemma convert_loop_regroup (data : list Z) :
  Forall is_byte data ->
  forall (value bits : Z) (result : list Z),
    In bits [0;1;2;3;4] ->
    (let '(value', bits', result') :=
       convert_loop data 8 5 31 value bits result in
     if bits' >? 0
     then result' ++ [js_and (js_shl value' (5 - bits')) 31]
     else result')
    = result ++ regroup bits (int32 value mod 2 ^ bits) data.
Proof.
  induction 1 as [|d data Hd Hdata IH]; intros value bits result Hb.
  - cbn [convert_loop]. rewrite regroup_nil.
    simpl in Hb. destruct Hb as [<-|Hb]; [now rewrite app_nil_r|].
    rewrite pad_word_bits by (simpl; tauto).
    repeat (destruct Hb as [<-|Hb]; [reflexivity|]). destruct Hb.
  - cbn [convert_loop]. rewrite drain_cases by assumption.
    rewrite regroup_cons.
    destruct (step_words value d bits Hd Hb) as (Hw1 & Hc1 & H2).
    rewrite Z.geb_leb. destruct (Z.leb_spec 2 bits) as [Hge|Hlt].
    + destruct (H2 Hge) as [Hw2 Hc2].
      rewrite IH by (simpl in *; lia).
      rewrite Hw1, Hw2, Hc2, <- !app_assoc. reflexivity.
    + rewrite IH by (simpl in *; lia).
      rewrite Hw1, Hc1, <- !app_assoc. reflexivity.
Qed.

(** [toWords] on bytes is the regrouping of their bits. *)
Lemma toWords_regroup (bytes : list Z) :
  Forall is_byte bytes -> Bech32.toWords bytes = inr (regroup 0 0 bytes).
Proof.
  intros Hb. unfold Bech32.toWords, convert.
  change (js_shl 1 5 - 1) with 31.
  pose proof (convert_loop_regroup bytes Hb 0 0 [] ltac:(simpl; tauto)) as H.
  destruct (convert_loop bytes 8 5 31 0 0 []) as [[value bits] result].
  cbn [app] in H. change (int32 0 mod 2 ^ 0) with 0 in H.
  rewrite <- H. destruct (bits >? 0); reflexivity.
Qed.

Lemma NoDup_ALPHABET : NoDup ALPHABET.
Proof.
  vm_compute.
  repeat (apply NoDup_cons;
          [intros H; simpl in H;
           repeat (destruct H as [H|H]; [discriminate H|]); exact H|]).
  apply NoDup_nil.
Qed.

(** The alphabet has 32 different characters. *)
Lemma charAt_inj (x y : Z) :
  word5 x -> word5 y -> charAt ALPHABET x = charAt ALPHABET y -> x = y.
Proof.
  intros [Hx0 Hx] [Hy0 Hy]; unfold charAt.
  destruct (Z.ltb_spec x 0); [lia|]. destruct (Z.ltb_spec y 0); [lia|].
  assert (Hlx : (Z.to_nat x < List.length ALPHABET)%nat)
    by (change (List.length ALPHABET) with 32%nat; lia).
  assert (Hly : (Z.to_nat y < List.length ALPHABET)%nat)
    by (change (List.length ALPHABET) with 32%nat; lia).
  destruct (nth_error ALPHABET (Z.to_nat x)) as [c|] eqn:Ex;
    [|apply nth_error_None in Ex; lia].
  destruct (nth_error ALPHABET (Z.to_nat y)) as [c'|] eqn:Ey;
    [|apply nth_error_None in Ey; lia].
  intros Hc; injection Hc as <-.
  assert (Z.to_nat x = Z.to_nat y); [|lia].
  apply (proj1 (NoDup_nth_error ALPHABET) NoDup_ALPHABET); [assumption|].
  now rewrite Ex, Ey.
Qed.

Lemma word_chars_inj (ws : list Z) :
  Forall word5 ws ->
  forall (ws' : list Z) (t t' : jsstring),
    Forall word5 ws' ->
    List.length ws = List.length ws' ->
    (flat_map (charAt ALPHABET) ws ++ t
     = flat_map (charAt ALPHABET) ws' ++ t')%list ->
    ws = ws'.
Proof.
  induction 1 as [|x ws Hx Hws IH]; intros [|y ws'] t t' Hw' Hl He;
    try discriminate; [reflexivity|].
  inversion Hw' as [|? ? Hy Hws']; subst.
  destruct (Bech32Shape.charAt_word5 x Hx) as (c & Ec & _).
  destruct (Bech32Shape.charAt_word5 y Hy) as (c' & Ec' & _).
  cbn [flat_map] in He; rewrite Ec, Ec' in He; cbn [app] in He.
  injection He as Hc He.
  f_equal.
  - apply charAt_inj; try assumption. now rewrite Ec, Ec', Hc.
  - injection Hl as Hl. eapply IH; eassumption.
Qed.

End Bech32Regroup.

Lemma lower_of_unhex (c : N) :
  is_hex_digit c = true ->
  exists z, unhex c = Some z /\ (0 <= z < 16)%Z
            /\ Bech32.toLowerCase [c]
               = [Z.to_N (if z <? 10 then z + 48 else z + 87)%Z].
Proof.
  unfold is_hex_digit, unhex, Bech32.toLowerCase; cbn [map]; intros H.
  repeat rewrite ?orb_true_iff, ?andb_true_iff, ?N.leb_le in H.
  assert (Hm : (c mod 256 = c)%N) by (apply N.mod_small; lia).
  rewrite Hm.
  repeat match goal with
         | |- context [(?a <=? ?b)%N] => destruct (N.leb_spec a b)
         end; cbn [andb]; try lia;
    eexists; (split; [reflexivity|]); (split; [lia|]);
    match goal with
    | |- context [(?a <? ?b)%Z] => destruct (Z.ltb_spec a b)
    end; f_equal; lia.
Qed.

(** Strings of hexadecimal digits with the same bytes are equal up to
    the case of their letters. *)
Lemma hex_decode_inj (n : nat) :
  forall s s' : jsstring,
    (List.length s <= n)%nat ->
    List.length s = List.length s' ->
    Nat.even (List.length s) = true ->
    forallb is_hex_digit s = true ->
    forallb is_hex_digit s' = true ->
    hex_decode s = hex_decode s' ->
    Bech32.toLowerCase s = Bech32.toLowerCase s'.
Proof.
  induction n as [|n IH]; intros s s' Hn Hl He Hd Hd' Hdec.
  - destruct s; [|simpl in Hn; lia]. destruct s'; [reflexivity|discriminate].
  - destruct s as [|a [|b rest]]; destruct s' as [|a' [|b' rest']];
      try discriminate; [reflexivity|].
    cbn [forallb] in Hd, Hd'.
    apply andb_prop in Hd as [Ha Hd]; apply andb_prop in Hd as [Hb Hd].
    apply andb_prop in Hd' as [Ha' Hd']; apply andb_prop in Hd' as [Hb' Hd'].
    destruct (lower_of_unhex a Ha) as (x & Ex & Rx & Lx).
    destruct (lower_of_unhex b Hb) as (y & Ey & Ry & Ly).
    destruct (lower_of_unhex a' Ha') as (x' & Ex' & Rx' & Lx').
    destruct (lower_of_unhex b' Hb') as (y' & Ey' & Ry' & Ly').
    cbn [hex_decode] in Hdec; rewrite Ex, Ey, Ex', Ey' in Hdec.
    assert (Hbyte : (Z.lor (Z.shiftl x 4) y = Z.lor (Z.shiftl x' 4) y')%Z)
      by congruence.
    assert (Hrest : hex_decode rest = hex_decode rest') by congruence.
    clear Hdec.
    destruct (nibbles_byte x y Rx Ry) as [_ E1].
    destruct (nibbles_byte x' y' Rx' Ry') as [_ E2].
    rewrite E1, E2 in Hbyte.
    assert (x = x' /\ y = y') as [-> ->] by lia.
    change (Bech32.toLowerCase (a :: b :: rest))
      with (Bech32.toLowerCase [a] ++ Bech32.toLowerCase [b]
            ++ Bech32.toLowerCase rest)%list.
    change (Bech32.toLowerCase (a' :: b' :: rest'))
      with (Bech32.toLowerCase [a'] ++ Bech32.toLowerCase [b']
            ++ Bech32.toLowerCase rest')%list.
    rewrite Lx, Ly, Lx', Ly'. do 2 f_equal.
    apply IH; auto.
    + simpl in Hn; lia.
    + simpl in Hl; lia.
Qed.

Lemma bech32_key_words (bytes : list Z) :
  List.length bytes = 32%nat ->
  Forall is_byte bytes ->
  exists (words : list Z) (chk : Z),
    toWords bech32 bytes = Ok words
    /\ encode bech32 (str "ed25519_sk") words
       = Ok (str "ed25519_sk1" ++ flat_map (Bech32.charAt Bech32.ALPHABET) words
             ++ Bech32.checksum_chars chk)
    /\ words = regroup 0 0 bytes
    /\ Forall Bech32.word5 words
    /\ List.length words = 52%nat.
Proof.
  intros Hl Hb.
  destruct (Bech32Shape.toWords_count bytes) as (ws & Ht & Hw & Hc).
  assert (Hws : List.length ws = 52%nat) by lia.
  destruct (Bech32Shape.encode_ed25519_sk_shape ws Hw) as (chk & He); [lia|].
  exists ws, chk.
  cbn [toWords encode bech32]; rewrite Ht, He.
  repeat split; auto.
  rewrite (Bech32Regroup.toWords_regroup bytes Hb) in Ht. now injection Ht.
Qed.

(** X20. Distinct payloads give distinct keys: with the [bech32] package
    loaded, two inputs made of the tag [5820] and 64 hexadecimal digits
    that give the same result carry the same payload up to the case of its
    letters; this holds across instances. *)
Theorem cborHexToLucidPrivateKey_distinct_keys
  (loader : ModuleLoader) (this1 this2 : CardanoKeyConverter)
  (hex1 hex2 : jsstring) :
  List.length hex1 = 64%nat -> forallb is_hex_digit hex1 = true ->
  List.length hex2 = 64%nat -> forallb is_hex_digit hex2 = true ->
  load loader = Ok (FEncoder bech32) ->
  settled loader this1 -> settled loader this2 ->
  fst (cborHexToLucidPrivateKey loader (JString (tagged hex1)) this1)
  = fst (cborHexToLucidPrivateKey loader (JString (tagged hex2)) this2) ->
  Bech32.toLowerCase hex1 = Bech32.toLowerCase hex2.
Proof.
  intros Hl1 Hh1 Hl2 Hh2 Hload Hs1 Hs2.
  destruct (hex_decode_digits 64 hex1) as [Hn1 Hb1];
    [lia | exact Hh1 | rewrite Hl1; reflexivity |].
  destruct (hex_decode_digits 64 hex2) as [Hn2 Hb2];
    [lia | exact Hh2 | rewrite Hl2; reflexivity |].
  destruct (bech32_key_words (Buffer_from_hex hex1))
    as (ws1 & chk1 & Hw1 & He1 & Hr1 & Hf1 & Hc1);
    [unfold Buffer_from_hex; lia | exact Hb1 |].
  destruct (bech32_key_words (Buffer_from_hex hex2))
    as (ws2 & chk2 & Hw2 & He2 & Hr2 & Hf2 & Hc2);
    [unfold Buffer_from_hex; lia | exact Hb2 |].
  rewrite (cborHexToLucidPrivateKey_tagged loader this1 hex1 Hl1 Hh1).
  rewrite (cborHexToLucidPrivateKey_tagged loader this2 hex2 Hl2 Hh2).
  rewrite (encode_stage_settled loader hex1 this1 Hs1).
  rewrite (encode_stage_settled loader hex2 this2 Hs2).
  unfold init_outcome; rewrite Hload, Hw1, He1, Hw2, He2.
  intros Hk; injection Hk as Hk.
  try apply app_inv_head in Hk.
  assert (Hws : ws1 = ws2)
    by (eapply Bech32Regroup.word_chars_inj; [exact Hf1 | exact Hf2 | congruence | exact Hk]).
  rewrite Hr1, Hr2 in Hws.
  destruct (Bech32Regroup.regroup_inj (Buffer_from_hex hex1) (Buffer_from_hex hex2) 0 0 0)
    as [_ Hbytes]; auto.
  - unfold Buffer_from_hex; lia.
  - simpl; tauto.
  - lia.
  - lia.
  - apply (hex_decode_inj 64); auto; try lia.
    rewrite Hl1; reflexivity.
Qed.

Lemma cborHexToLucidPrivateKey_distinct_keys_witness :
  Bech32.toLowerCase (repeat_str 32 (str "aB"))
  = Bech32.toLowerCase (repeat_str 32 (str "Ab")).
Proof.
  apply (cborHexToLucidPrivateKey_distinct_keys node_modules
           (constructor default_config) (constructor default_config)
           (repeat_str 32 (str "aB")) (repeat_str 32 (str "Ab")));
    [reflexivity | reflexivity | reflexivity | reflexivity | reflexivity
    | left; reflexivity | left; reflexivity | vm_compute; reflexivity].
Defined.

(* ================================================================== *)
(** ** The shortcuts and the orchestration *)

(** X21. The two [CardanoUtils] shortcuts compose to the orchestration: on
    every instance whose encoder field is settled,
    [onchainToOffchainPrivateKey] returns a key exactly when
    [CardanoUtils.readPrivateKeyFile] returns a value for the path and
    [CardanoUtils.cborHexToLucidPrivateKey] returns that key for the
    value. *)
Theorem CardanoUtils_compose
  (fs : FileSystem) (loader : ModuleLoader) (keyPath : jsstring)
  (this : CardanoKeyConverter) (key : jsstring) :
  settled loader this ->
  fst (onchainToOffchainPrivateKey fs loader keyPath this) = Ok key
  <-> exists cborHex : JSValue,
        CardanoUtils_readPrivateKeyFile fs keyPath = Ok cborHex
        /\ CardanoUtils_cborHexToLucidPrivateKey loader cborHex = Ok key.
Proof.
  intros Hs.
  rewrite onchainToOffchainPrivateKey_unfold; unfold reader_then_encoder.
  unfold CardanoUtils_readPrivateKeyFile; cbv zeta.
  destruct (readPrivateKeyFile fs keyPath) as [cborHex|err].
  - pose proof (cborHexToLucidPrivateKey_settled loader cborHex this Hs) as Hc.
    destruct (cborHexToLucidPrivateKey loader cborHex this)
      as [[k|err] this']; cbn [fst] in *; split.
    + intros [= ->]; exists cborHex; split; [reflexivity | now rewrite <- Hc].
    + intros (x & [= <-] & Hk); now rewrite <- Hk.
    + discriminate.
    + intros (x & [= <-] & Hk); rewrite <- Hc in Hk; discriminate Hk.
  - cbn [fst]; split; [discriminate|].
    intros (x & Hx & _); discriminate Hx.
Qed.

Lemma CardanoUtils_compose_witness :
  fst (onchainToOffchainPrivateKey
         (single_file key_path (tagged (repeat_str 32 (str "aa"))))
         node_modules key_path (constructor preprod_config))
  = Ok (str "ed25519_sk1424242424242424242424242424242424242424242424242424qcvxpce")
  <-> exists cborHex : JSValue,
        CardanoUtils_readPrivateKeyFile
          (single_file key_path (tagged (repeat_str 32 (str "aa")))) key_path
        = Ok cborHex
        /\ CardanoUtils_cborHexToLucidPrivateKey node_modules cborHex
           = Ok (str "ed25519_sk1424242424242424242424242424242424242424242424242424qcvxpce").
Proof.
  apply (CardanoUtils_compose
           (single_file key_path (tagged (repeat_str 32 (str "aa"))))
           node_modules key_path (constructor preprod_config)).
  left; reflexivity.
Defined.
